(** * Verification-code retrieval over IMAP: [src/emailReceiver.js]

    A shallow embedding of [EmailReceiver.getVerificationCode] and of the
    helpers it closes over, followed by the properties the specification
    states about them.

    - JavaScript strings are sequences of UTF-16 code units: [list N].
    - Regular expressions are an abstract syntax with the backtracking
      semantics of ECMA-262 ([String.prototype.match], [replace], [test]).
    - The promise body of [getVerificationCode] is a set of callbacks over
      shared mutable variables; each callback is a function on [Session],
      and the run-time that fires them is the step function [step]. *)

From Stdlib Require Import ZArith NArith List Bool Lia Ascii String.
From stdpp Require Import base decidable option list gmap sets sorting.

Set Default Proof Using "Type".
Local Open Scope nat_scope.

(** ** JavaScript strings *)

Abbreviation jsstring := (list N).

(** A string literal of the source, for literals inside Basic Latin. *)
Definition js (s : string) : jsstring :=
  List.map N_of_ascii (list_ascii_of_string s).

(** [s.startsWith(p)] *)
Fixpoint startsWith (p s : jsstring) : bool :=
  match p, s with
  | [], _ => true
  | _ :: _, [] => false
  | a :: p', b :: s' => (a =? b)%N && startsWith p' s'
  end.

(** [s.includes(sub)] *)
Fixpoint includes (s sub : jsstring) : bool :=
  startsWith sub s ||
  match s with
  | [] => false
  | _ :: s' => includes s' sub
  end.

(** [s.split(sep)[0]] for a one-unit separator: the text before its first
    occurrence, the whole string when it does not occur. *)
Fixpoint split0 (sep : N) (s : jsstring) : jsstring :=
  match s with
  | [] => []
  | c :: s' => if (c =? sep)%N then [] else c :: split0 sep s'
  end.

(** Truthiness of a string-valued field that may be absent: [undefined],
    [null], [false] and the empty string are falsy. *)
Definition truthy (o : option jsstring) : bool :=
  match o with
  | Some (_ :: _) => true
  | _ => false
  end.

(** [o || ''] *)
Definition orEmpty (o : option jsstring) : jsstring :=
  match o with
  | Some s => s
  | None => []
  end.

(** ** Character classes *)

Definition inRange (lo hi c : N) : bool := ((lo <=? c) && (c <=? hi))%N.

(** [\d] *)
Definition isDigit (c : N) : bool := inRange 48 57 c.

(** Line terminators: LF, CR, U+2028, U+2029. *)
Definition isLineTerminator (c : N) : bool :=
  ((c =? 10) || (c =? 13) || (c =? 8232) || (c =? 8233))%N.

(** [\s]: WhiteSpace and LineTerminator of ECMA-262. *)
Definition isSpace (c : N) : bool :=
  (inRange 9 13 c || (c =? 32) || (c =? 160) || (c =? 5760) ||
   inRange 8192 8202 c || (c =? 8232) || (c =? 8233) || (c =? 8239) ||
   (c =? 8287) || (c =? 12288) || (c =? 65279))%N.

(** Case folding used by the [i] flag (Canonicalize without the [u] flag).
    A code unit outside Basic Latin never folds to one inside it, and the
    patterns below name only Basic Latin letters and caseless characters,
    so folding Basic Latin is all their matching can observe. *)
Definition upperLatin (c : N) : N := if inRange 97 122 c then (c - 32)%N else c.
Definition lowerLatin (c : N) : N := if inRange 65 90 c then (c + 32)%N else c.

Inductive citem :=
| CChar (c : N)
| CRange (lo hi : N)
| CSpace
| CDigit.

Definition in_item (ci : bool) (c : N) (it : citem) : bool :=
  match it with
  | CChar a => if ci then (upperLatin a =? upperLatin c)%N else (a =? c)%N
  | CRange lo hi =>
      inRange lo hi c ||
      (ci && (inRange lo hi (upperLatin c) || inRange lo hi (lowerLatin c)))
  | CSpace => isSpace c
  | CDigit => isDigit c
  end.

Definition in_items (ci : bool) (items : list citem) (c : N) : bool :=
  existsb (in_item ci c) items.

(** ** Regular expressions *)

Inductive regex :=
| Eps
| Cls (neg : bool) (items : list citem)
| Dot
| Seq (r1 r2 : regex)
| Alt (r1 r2 : regex)
| Star (greedy : bool) (r : regex)
| Group (r : regex)
| Bol
| Eol
| NotAhead (r : regex).

Definition Chr (c : N) : regex := Cls false [CChar c].
Definition Opt (r : regex) : regex := Alt r Eps.
Definition Plus (r : regex) : regex := Seq r (Star true r).

Fixpoint Times (n : nat) (r : regex) : regex :=
  match n with
  | O => Eps
  | S n' => Seq r (Times n' r)
  end.

Fixpoint Lit (s : jsstring) : regex :=
  match s with
  | [] => Eps
  | c :: s' => Seq (Chr c) (Lit s')
  end.

Fixpoint Seqs (rs : list regex) : regex :=
  match rs with
  | [] => Eps
  | r :: rs' => Seq r (Seqs rs')
  end.

(** The matcher state: the index reached, the input from there on, and the
    text of the capture group (every pattern here has at most one). *)
Record mstate := MState {
  m_pos : nat;
  m_rest : jsstring;
  m_cap : option jsstring
}.

Definition advance (st : mstate) (tl : jsstring) : mstate :=
  MState (S (m_pos st)) tl (m_cap st).

Definition closeGroup (from st : mstate) : mstate :=
  MState (m_pos st) (m_rest st)
         (Some (take (m_pos st - m_pos from) (m_rest from))).

(** Backtracking matcher in continuation-passing style: [k] is the rest of
    the pattern.  Alternatives are tried left to right; a greedy star tries
    one more iteration before the continuation, a lazy one the continuation
    first; an iteration that consumes nothing is refused. *)
Fixpoint mtch (ci : bool) (r : regex) (st : mstate)
    (k : mstate -> option mstate) {struct r} : option mstate :=
  match r with
  | Eps => k st
  | Cls neg items =>
      match m_rest st with
      | c :: tl => if xorb neg (in_items ci items c) then k (advance st tl) else None
      | [] => None
      end
  | Dot =>
      match m_rest st with
      | c :: tl => if isLineTerminator c then None else k (advance st tl)
      | [] => None
      end
  | Seq a b => mtch ci a st (fun st' => mtch ci b st' k)
  | Alt a b =>
      match mtch ci a st k with
      | Some res => Some res
      | None => mtch ci b st k
      end
  | Star greedy a =>
      (fix loop (fuel : nat) (st : mstate) {struct fuel} : option mstate :=
         match fuel with
         | O => k st
         | S fuel' =>
             let again :=
               mtch ci a st (fun st' =>
                 if length (m_rest st') <? length (m_rest st)
                 then loop fuel' st' else None) in
             if greedy
             then match again with Some res => Some res | None => k st end
             else match k st with Some res => Some res | None => again end
         end) (S (length (m_rest st))) st
  | Group a => mtch ci a st (fun st' => k (closeGroup st st'))
  | Bol => if m_pos st =? 0 then k st else None
  | Eol => match m_rest st with [] => k st | _ :: _ => None end
  | NotAhead a =>
      match mtch ci a st Some with
      | Some _ => None
      | None => k st
      end
  end.

(** What [exec] reports: where the match starts and ends, and [m[1]]. *)
Record MatchArr := MkMatch {
  index : nat;
  lastIndex : nat;
  group1 : option jsstring
}.

(** The search loop of [RegExp.prototype.exec]: the leftmost index at which
    the pattern matches. *)
Fixpoint exec_from (ci : bool) (r : regex) (pos : nat) (rest : jsstring)
    : option MatchArr :=
  match mtch ci r (MState pos rest None) Some with
  | Some st => Some (MkMatch pos (m_pos st) (m_cap st))
  | None =>
      match rest with
      | [] => None
      | _ :: tl => exec_from ci r (S pos) tl
      end
  end.

(** A pattern with its flags. *)
Record pattern := Pattern { p_ci : bool; p_re : regex }.

(** [s.match(p)] for a pattern without the [g] flag. *)
Definition str_match (p : pattern) (s : jsstring) : option MatchArr :=
  exec_from (p_ci p) (p_re p) 0 s.

(** [p.test(s)] *)
Definition test (p : pattern) (s : jsstring) : bool :=
  match str_match p s with Some _ => true | None => false end.

(** [s.replace(p, f)] for a pattern with the [g] flag; [f] receives the
    capture group.  After an empty match the search moves one unit on. *)
Fixpoint replace_loop (p : pattern) (f : option jsstring -> jsstring)
    (fuel : nat) (pos : nat) (rest : jsstring) : jsstring :=
  match fuel with
  | O => rest
  | S fuel' =>
      match exec_from (p_ci p) (p_re p) pos rest with
      | None => rest
      | Some m =>
          let skipped := take (index m - pos) rest in
          let after := drop (lastIndex m - pos) rest in
          if lastIndex m =? index m
          then match after with
               | [] => skipped ++ f (group1 m)
               | c :: tl =>
                   skipped ++ f (group1 m) ++ c :: replace_loop p f fuel' (S (lastIndex m)) tl
               end
          else skipped ++ f (group1 m) ++ replace_loop p f fuel' (lastIndex m) after
      end
  end.

Definition replace_all (p : pattern) (f : option jsstring -> jsstring)
    (s : jsstring) : jsstring :=
  replace_loop p f (S (length s)) 0 s.

(** [s.trim()] *)
Fixpoint trimStart (s : jsstring) : jsstring :=
  match s with
  | [] => []
  | c :: s' => if isSpace c then trimStart s' else s
  end.

Definition trim (s : jsstring) : jsstring :=
  rev (trimStart (rev (trimStart s))).

(** ** The patterns of the source *)

Module Re.
Definition sp : regex := Cls false [CSpace].
Definition digit : regex := Cls false [CDigit].
Definition nonDigit : regex := Cls true [CDigit].
(** [[0-9]] and [[^0-9]] *)
Definition d09 : regex := Cls false [CRange 48 57].
Definition notD09 : regex := Cls true [CRange 48 57].
(** [[A-Z0-9]] *)
Definition alnum : regex := Cls false [CRange 65 90; CRange 48 57].
(** [[：:\s]]: full-width colon U+FF1A, colon, white space *)
Definition colons : regex := Cls false [CChar 65306; CChar 58; CSpace].
(** [[：:\s　]] *)
Definition colonsWide : regex := Cls false [CChar 65306; CChar 58; CSpace; CChar 12288].
(** [[^>]] *)
Definition notGt : regex := Cls true [CChar 62].
Definition star (r : regex) : regex := Star true r.
End Re.

(** [processEmail], [patterns]: in priority order, the most precise first. *)
Definition patterns : list pattern :=
  [ (* /following\s+6\s*-?\s*digit\s+code[^\d]*(\d{6})/i *)
    Pattern true (Seqs [Lit (js "following"); Plus Re.sp; Chr 54; Re.star Re.sp;
                        Opt (Chr 45); Re.star Re.sp; Lit (js "digit"); Plus Re.sp;
                        Lit (js "code"); Re.star Re.nonDigit;
                        Group (Times 6 Re.digit)]);
    (* /enter\s+(?:the\s+)?following[^\d]*(\d{6})/i *)
    Pattern true (Seqs [Lit (js "enter"); Plus Re.sp;
                        Opt (Seq (Lit (js "the")) (Plus Re.sp));
                        Lit (js "following"); Re.star Re.nonDigit;
                        Group (Times 6 Re.digit)]);
    (* /verification\s*code[：:\s]*([A-Z0-9]{6})/i *)
    Pattern true (Seqs [Lit (js "verification"); Re.star Re.sp; Lit (js "code");
                        Re.star Re.colons; Group (Times 6 Re.alnum)]);
    (* /verify\s*code[：:\s]*([A-Z0-9]{6})/i *)
    Pattern true (Seqs [Lit (js "verify"); Re.star Re.sp; Lit (js "code");
                        Re.star Re.colons; Group (Times 6 Re.alnum)]);
    (* /code\s*(?:is)?[：:\s]+([A-Z0-9]{6})/i *)
    Pattern true (Seqs [Lit (js "code"); Re.star Re.sp; Opt (Lit (js "is"));
                        Plus Re.colons; Group (Times 6 Re.alnum)]);
    (* /your\s*code[：:\s]*([A-Z0-9]{6})/i *)
    Pattern true (Seqs [Lit (js "your"); Re.star Re.sp; Lit (js "code");
                        Re.star Re.colons; Group (Times 6 Re.alnum)]);
    (* /验证码[：:\s　]*([A-Z0-9]{6})/i : U+9A8C U+8BC1 U+7801 *)
    Pattern true (Seqs [Lit [39564; 35777; 30721]%N; Re.star Re.colonsWide;
                        Group (Times 6 Re.alnum)]);
    (* /验证代码[：:\s　]*([A-Z0-9]{6})/i : U+9A8C U+8BC1 U+4EE3 U+7801 *)
    Pattern true (Seqs [Lit [39564; 35777; 20195; 30721]%N; Re.star Re.colonsWide;
                        Group (Times 6 Re.alnum)]);
    (* /code[：:\s]*([A-Z0-9]{6})(?![0-9])/i *)
    Pattern true (Seqs [Lit (js "code"); Re.star Re.colons;
                        Group (Times 6 Re.alnum); NotAhead Re.d09]);
    (* /(?:^|[^0-9])([0-9]{6})(?:[^0-9]|$)/ *)
    Pattern false (Seqs [Alt Bol Re.notD09; Group (Times 6 Re.d09);
                         Alt Re.notD09 Eol]) ].

(** [/(?:^|[\s\-:])([0-9]{6})(?:[\s\-]|$)/], written out twice in the
    source: in [processEmail] and in the header callback. *)
Definition subjectPattern : pattern :=
  Pattern false
    (Seqs [Alt Bol (Cls false [CSpace; CChar 45; CChar 58]);
           Group (Times 6 Re.d09);
           Alt (Cls false [CSpace; CChar 45]) Eol]).

(** [subject.match(/(?:^|[\s\-:])([0-9]{6})(?:[\s\-]|$)/)] *)
Definition subjectMatch (subject : jsstring) : option MatchArr :=
  str_match subjectPattern subject.

(** [for (const pattern of patterns) { const match = text.match(pattern);
    if (match) ... }]: the match of the first pattern that has one. *)
Fixpoint cascade (ps : list pattern) (text : jsstring) : option MatchArr :=
  match ps with
  | [] => None
  | p :: ps' =>
      match str_match p text with
      | Some m => Some m
      | None => cascade ps' text
      end
  end.

(** *** Clean-up of the HTML body *)

(** The value of a run of decimal digits. *)
Definition decimalValue (ds : jsstring) : Z :=
  fold_left (fun acc c => (acc * 10 + (Z.of_N c - 48))%Z) ds 0%Z.

(** [Number(ds)]: the double nearest to the value (ties to even), which is
    the value itself below 2^53.  A value past the largest double becomes
    Infinity; the only use below reduces modulo 2^16, which maps Infinity
    and every double from 2^69 on to 0, so no separate case is needed. *)
Definition toNumber (ds : jsstring) : Z :=
  let n := decimalValue ds in
  if (n <? 2 ^ 53)%Z then n
  else
    let e := (Z.log2 n - 52)%Z in
    let q := (n / 2 ^ e)%Z in
    let r := (n mod 2 ^ e)%Z in
    let half := (2 ^ (e - 1))%Z in
    let q' := if (half <? r)%Z || ((r =? half)%Z && Z.odd q) then (q + 1)%Z else q in
    (q' * 2 ^ e)%Z.

(** [String.fromCharCode(dec)] for a captured digit run [dec]. *)
Definition fromCharCode (dec : option jsstring) : jsstring :=
  [Z.to_N (toNumber (orEmpty dec) mod 65536)].

Definition const (s : jsstring) : option jsstring -> jsstring := fun _ => s.

Module Html.
(* /<style[^>]*>.*?<\/style>/gi *)
Definition style : pattern :=
  Pattern true (Seqs [Lit (js "<style"); Re.star Re.notGt; Chr 62;
                      Star false Dot; Lit (js "</style>")]).
(* /<script[^>]*>.*?<\/script>/gi *)
Definition script : pattern :=
  Pattern true (Seqs [Lit (js "<script"); Re.star Re.notGt; Chr 62;
                      Star false Dot; Lit (js "</script>")]).
(* /<[^>]+>/g *)
Definition tag : pattern := Pattern false (Seqs [Chr 60; Plus Re.notGt; Chr 62]).
(* /&nbsp;/g *)
Definition nbsp : pattern := Pattern false (Lit (js "&nbsp;")).
(* /&#(\d+);/g *)
Definition numericRef : pattern :=
  Pattern false (Seqs [Lit (js "&#"); Group (Plus Re.digit); Chr 59]).
(* /\s+/g *)
Definition spaces : pattern := Pattern false (Plus Re.sp).
End Html.

(** [processEmail], [cleanHtml] *)
Definition cleanHtml (html : jsstring) : jsstring :=
  trim
    (replace_all Html.spaces (const (js " "))
      (replace_all Html.numericRef fromCharCode
        (replace_all Html.nbsp (const (js " "))
          (replace_all Html.tag (const (js " "))
            (replace_all Html.script (const [])
              (replace_all Html.style (const []) html)))))).

(** [processEmail], [htmlTextOnly] (logged only) *)
Definition htmlTextOnly (html : jsstring) : jsstring :=
  trim (replace_all Html.spaces (const (js " "))
         (replace_all Html.tag (const (js " ")) html)).

(** *** [isGarbledText] *)

(* /[\ufffd\u0000-\u001f]{3,}|\?{5,}/ *)
Definition garbledPatterns : pattern :=
  let bad := Cls false [CChar 65533; CRange 0 31] in
  Pattern false (Alt (Seq (Times 3 bad) (Star true bad))
                     (Seq (Times 5 (Chr 63)) (Star true (Chr 63)))).

(** [/[\x00-\x1f\x7f-\x9f]/] *)
Definition nonPrintable (c : N) : bool := inRange 0 31 c || inRange 127 159 c.

(** [count / length > 0.1] on two integers is [10 * count > length]: the
    quotient rounds to the double 0.1 exactly when the two sides are equal. *)
Definition isGarbledText (text : option jsstring) : bool :=
  match text with
  | None => false
  | Some t =>
      if length t <? 10 then false
      else test garbledPatterns t ||
           (length t <? 10 * length (List.filter nonPrintable t))
  end.


(** ** Mailbox names: [getMailboxList] *)

(** One entry of the object [imap.getBoxes] hands over: its hierarchy
    delimiter and its children, in the enumeration order of [for ... in]. *)
Local Unset Elimination Schemes.
Inductive Box :=
| MkBox (delimiter : option jsstring) (children : option (list (jsstring * Box))).
Local Set Elimination Schemes.

(** [extractBoxNames], one entry: the full name, then the names below it. *)
Fixpoint extractBox (prefix name : jsstring) (b : Box) {struct b} : list jsstring :=
  match b with
  | MkBox delimiter children =>
      let fullName :=
        match prefix with
        | [] => name
        | _ :: _ => prefix ++ (if truthy delimiter then orEmpty delimiter else js "/") ++ name
        end in
      fullName ::
      match children with
      | None => []
      | Some cs =>
          (fix below (cs : list (jsstring * Box)) : list jsstring :=
             match cs with
             | [] => []
             | c :: cs' => extractBox fullName (fst c) (snd c) ++ below cs'
             end) cs
      end
  end.

Definition extractBoxNames (boxes : list (jsstring * Box)) : list jsstring :=
  flat_map (fun c => extractBox [] (fst c) (snd c)) boxes.

(** [switchToNextBox], [junkBoxNames] *)
Definition junkBoxNames : list jsstring :=
  [js "Junk"; js "Spam"; js "Deleted Messages"; js "Trash"; js "Bulk Mail";
   js "[Gmail]/Spam"; js "INBOX.Junk"; js "INBOX.Spam"].

Definition INBOX : jsstring := js "INBOX".

(** ** Search results: newest first *)

(** The order [(a, b) => b - a] sorts numbers into. *)
Definition newerFirst (a b : N) : Prop := (b <= a)%N.

#[global] Instance newerFirst_dec : RelDecision newerFirst.
Proof. intros a b. unfold newerFirst. apply _. Defined.

#[global] Instance newerFirst_total : Total newerFirst.
Proof. intros a b. unfold newerFirst. lia. Qed.

#[global] Instance newerFirst_trans : Transitive newerFirst.
Proof. intros a b c. unfold newerFirst. lia. Qed.

(** [newResults.sort((a, b) => b - a).slice(0, 10)] *)
Definition newestTen (newResults : list N) : list N :=
  take 10 (merge_sort newerFirst newResults).

(** ** The session *)

(** [imap.state], which the library owns and [cleanup] reads. *)
Inductive connState := Disconnected | Connected | Authenticated.

(** [parsed.date]: absent, a Date that is not a time, or a time in ms. *)
Inductive jsdate := NoDate | InvalidDate | DateMs (t : Z).

(** The fields of a parsed message the code reads. *)
Record Parsed := MkParsed {
  p_subject : option jsstring;
  p_from : option jsstring;       (* parsed.from?.text *)
  p_to : option jsstring;         (* parsed.to?.text *)
  p_date : jsdate;
  p_text : option jsstring;
  p_html : option jsstring;
  p_contentType : option jsstring (* parsed.headers?.get('content-type') *)
}.

Inductive Failure :=
| TimeoutError                      (* 获取验证码超时 *)
| OpenBoxError (message : jsstring)  (* 打开邮箱失败 *)
| ConnectionError (message : jsstring). (* IMAP 连接失败 *)

(** A call of [resolve] or of [reject]; [match[1]] is [None] when the group
    took no part in the match. *)
Inductive Outcome :=
| Resolved (code : option jsstring)
| Rejected (e : Failure).

(** Calls made on the connection. *)
Inductive Command :=
| CmdConnect
| CmdOpenBox (name : jsstring)
| CmdSearch (unseen : bool) (since : Z)
| CmdFetchHeaders (ids : list N)
| CmdFetchFull (id : N)
| CmdGetBoxes
| CmdCloseBox
| CmdEnd.

(** Callbacks handed to the connection and not fired yet, each with the
    variables its closure captured. *)
Inductive Callback :=
| OnReady
| OnError
| OnEnd
| OnInboxOpen
| OnSearch (since : Z)
| OnFallback
| OnHeaders (ids : list N)
| OnFull (emailId : N)
| OnBoxes
| OnBoxClosed (junkBox : jsstring)
| OnJunkOpen (junkBox : jsstring).

#[global] Instance Callback_eq_dec : EqDecision Callback.
Proof. solve_decision. Defined.

#[global] Instance Command_eq_dec : EqDecision Command.
Proof. solve_decision. Defined.

#[global] Instance connState_eq_dec : EqDecision connState.
Proof. solve_decision. Defined.

(** One constructor for each [this.log] call, with the values it prints. *)
Inductive LogEntry :=
| LogStart (target : jsstring)
| LogServer
| LogBoxListFailed (message : jsstring)
| LogMail (id : N) (subject from : jsstring) (date : jsdate)
| LogMailTo (id : N) (to : jsstring)
| LogContentType (id : N) (ct : option jsstring)
| LogTooOld (seconds : Z)
| LogNotWindsurf
| LogSubjectCode (code : option jsstring)
| LogSubjectNoCode
| LogTextPreview (preview : jsstring)
| LogRecipientMismatchText (target : jsstring)
| LogExtractText
| LogTextCode (code : option jsstring)
| LogTryHtml
| LogHtmlPreview (preview : jsstring)
| LogRecipientMismatchHtml (target : jsstring)
| LogHtmlCode (code : option jsstring)
| LogCleanRetry
| LogCleanCode (code : option jsstring)
| LogNoCode
| LogTryJunk
| LogBoxes (names : list jsstring)
| LogNoJunk
| LogFoundJunk (junkBox : jsstring)
| LogCloseFailed (message : jsstring)
| LogOpenJunkFailed (message : jsstring)
| LogSwitched (junkBox : jsstring)
| LogTimeout
| LogWaitingBox
| LogCriteria (since : Z)
| LogCurrentBox (box : jsstring)
| LogSearchFailed (message : jsstring)
| LogUnseenCount (n : nat) (firstIds : list N)
| LogFallbackStart
| LogFallbackCount (n : nat)
| LogFallbackFound (n : nat)
| LogNewMail (n : nat)
| LogHeader (id : N) (subject to : jsstring)
| LogRecipientMismatch (target : jsstring)
| LogRecipientOk (target : jsstring)
| LogFetchFull
| LogGarbled
| LogFullFetchFailed (message : jsstring)
| LogFetchFailed (message : jsstring)
| LogConnected
| LogInboxOpened
| LogTarget (target : jsstring)
| LogMaxWait (ms : Z)
| LogJunkHint
| LogImapFailed (message : jsstring)
| LogClosed.

(** The variables of the promise body, the calls it has made and the
    callbacks it waits for. *)
Record Session := MkSession {
  checkInterval : bool;            (* the 2 s timer is armed *)
  isResolved : bool;
  currentBox : option jsstring;
  junkBoxChecked : bool;
  processedEmails : gset N;
  imapState : connState;
  settled : list Outcome;          (* calls of resolve / reject, oldest first *)
  sent : list Command;             (* oldest first *)
  pending : list Callback;
  logs : list LogEntry
}.

Definition set_checkInterval (v : bool) (s : Session) : Session :=
  MkSession v (isResolved s) (currentBox s) (junkBoxChecked s) (processedEmails s)
            (imapState s) (settled s) (sent s) (pending s) (logs s).
Definition set_isResolved (v : bool) (s : Session) : Session :=
  MkSession (checkInterval s) v (currentBox s) (junkBoxChecked s) (processedEmails s)
            (imapState s) (settled s) (sent s) (pending s) (logs s).
Definition set_currentBox (v : option jsstring) (s : Session) : Session :=
  MkSession (checkInterval s) (isResolved s) v (junkBoxChecked s) (processedEmails s)
            (imapState s) (settled s) (sent s) (pending s) (logs s).
Definition set_junkBoxChecked (v : bool) (s : Session) : Session :=
  MkSession (checkInterval s) (isResolved s) (currentBox s) v (processedEmails s)
            (imapState s) (settled s) (sent s) (pending s) (logs s).
Definition set_processedEmails (v : gset N) (s : Session) : Session :=
  MkSession (checkInterval s) (isResolved s) (currentBox s) (junkBoxChecked s) v
            (imapState s) (settled s) (sent s) (pending s) (logs s).
Definition set_imapState (v : connState) (s : Session) : Session :=
  MkSession (checkInterval s) (isResolved s) (currentBox s) (junkBoxChecked s)
            (processedEmails s) v (settled s) (sent s) (pending s) (logs s).
Definition set_settled (v : list Outcome) (s : Session) : Session :=
  MkSession (checkInterval s) (isResolved s) (currentBox s) (junkBoxChecked s)
            (processedEmails s) (imapState s) v (sent s) (pending s) (logs s).
Definition set_sent (v : list Command) (s : Session) : Session :=
  MkSession (checkInterval s) (isResolved s) (currentBox s) (junkBoxChecked s)
            (processedEmails s) (imapState s) (settled s) v (pending s) (logs s).
Definition set_pending (v : list Callback) (s : Session) : Session :=
  MkSession (checkInterval s) (isResolved s) (currentBox s) (junkBoxChecked s)
            (processedEmails s) (imapState s) (settled s) (sent s) v (logs s).
Definition set_logs (v : list LogEntry) (s : Session) : Session :=
  MkSession (checkInterval s) (isResolved s) (currentBox s) (junkBoxChecked s)
            (processedEmails s) (imapState s) (settled s) (sent s) (pending s) v.

(** [this.log(...)] *)
Definition say (l : LogEntry) (s : Session) : Session := set_logs (logs s ++ [l]) s.
(** A call on [imap], and the callback it is given. *)
Definition send (c : Command) (s : Session) : Session := set_sent (sent s ++ [c]) s.
Definition await (c : Callback) (s : Session) : Session :=
  set_pending (pending s ++ [c]) s.
(** [processedEmails.add(id)] and [processedEmails.has(id)] *)
Definition add (id : N) (s : Session) : Session :=
  set_processedEmails ({[id]} ∪ processedEmails s) s.
Definition has (id : N) (s : Session) : bool := bool_decide (id ∈ processedEmails s).
(** [resolve(code)] and [reject(new Error(...))] *)
Definition resolve (code : option jsstring) (s : Session) : Session :=
  set_settled (settled s ++ [Resolved code]) s.
Definition reject (e : Failure) (s : Session) : Session :=
  set_settled (settled s ++ [Rejected e]) s.

(** [cleanup] *)
Definition cleanup (s : Session) : Session :=
  let s := if checkInterval s then set_checkInterval false s else s in
  match imapState s with
  | Disconnected => s
  | _ => send CmdEnd s
  end.

(** The shape every exit of the promise body has:
    [cleanup(); if (!isResolved) { isResolved = true; this.log(..); resolve(..) }]
    ([reject] logs nothing on a failed [openBox]). *)
Definition finish (l : option LogEntry) (o : Outcome) (s : Session) : Session :=
  let s := cleanup s in
  if isResolved s then s
  else
    let s := set_isResolved true s in
    let s := match l with Some l => say l s | None => s end in
    match o with
    | Resolved code => resolve code s
    | Rejected e => reject e s
    end.

(** [Date.now() - new Date(date).getTime()], where [date] is
    [parsed.date || new Date()]; [None] is NaN. *)
Definition emailAge (now : Z) (d : jsdate) : option Z :=
  match d with
  | NoDate => Some 0%Z
  | InvalidDate => None
  | DateMs t => Some (now - t)%Z
  end.

(** [age > limit]; a comparison with NaN is false. *)
Definition exceeds (age : option Z) (limit : Z) : bool :=
  match age with
  | Some a => (limit <? a)%Z
  | None => false
  end.

(** [Math.floor(emailAge / 1000)] *)
Definition seconds (age : option Z) : Z :=
  match age with Some a => (a / 1000)%Z | None => 0%Z end.

Definition maxEmailAge : Z := (2 * 60 * 1000)%Z.

(** [text.substring(0, 200).replace(/\n/g, '\\n')] *)
Definition preview (text : jsstring) : jsstring :=
  replace_all (Pattern false (Chr 10)) (const (js "\n")) (take 200 text).

(** What the connection and the parser hand to the callbacks. *)
Inductive Event :=
| EvReady
| EvInboxOpened (err : option jsstring) (now : Z)
| EvTick (now : Z)
| EvSearch (since : Z) (err : option jsstring) (results : option (list N))
| EvFallback (err : option jsstring) (results : option (list N)) (now : Z)
| EvHeader (err : bool) (emailId : option N) (parsed : Parsed) (now : Z)
| EvFetchError (message : jsstring)
| EvFull (emailId : N) (err : bool) (fullParsed : Parsed) (now : Z)
| EvFullError (emailId : N) (message : jsstring)
| EvBoxes (res : jsstring + list (jsstring * Box))
| EvBoxClosed (junkBox : jsstring) (err : option jsstring)
| EvJunkOpened (junkBox : jsstring) (err : option jsstring) (now : Z)
| EvError (message : jsstring)
| EvEnd
| EvConn (st : connState).

(** Removes the first occurrence of a fired callback. *)
Fixpoint consume (c : Callback) (l : list Callback) : list Callback :=
  match l with
  | [] => []
  | x :: l' => if decide (x = c) then l' else x :: consume c l'
  end.

(** [!emailId]: no [attributes] event yet, or a uid of 0. *)
Definition noId (emailId : option N) : bool :=
  match emailId with
  | None => true
  | Some id => (id =? 0)%N
  end.

(** A header callback belongs to a header fetch that asked for its uid. *)
Definition headerAwaited (emailId : option N) (cs : list Callback) : bool :=
  existsb (fun c =>
    match c, emailId with
    | OnHeaders ids, Some id => bool_decide (id ∈ ids)
    | OnHeaders _, None => true
    | _, _ => false
    end) cs.

Definition fetchAwaited (cs : list Callback) : bool :=
  existsb (fun c => match c with OnHeaders _ => true | _ => false end) cs.

Section GetVerificationCode.

(** [String.prototype.toLowerCase], whose Unicode tables are not part of
    the program; [targetEmail], [maxWaitTime] and the [Date.now()] read on
    entry are the parameters of one call. *)
Variable toLowerCase : jsstring -> jsstring.
Variable targetEmail : jsstring.
Variable maxWaitTime : Z.
Variable startTime : Z.

(** [targetEmail.split('@')[0]] *)
Definition emailDomain : jsstring := split0 64 targetEmail.

(** [processEmail], [isWindsurfEmail] *)
Definition isWindsurfEmail (subject from : jsstring) : bool :=
  let subjectLower := toLowerCase subject in
  let fromLower := toLowerCase from in
  includes subjectLower (js "windsurf") ||
  includes subjectLower (js "verify") ||
  includes subjectLower (js "verification") ||
  includes fromLower (js "windsurf") ||
  includes fromLower (js "codeium") ||
  includes fromLower (js "exafunction").

(** The header callback, [isWindsurf] *)
Definition isWindsurf (subject from : jsstring) : bool :=
  let subjectLower := toLowerCase subject in
  let fromLower := toLowerCase from in
  includes subjectLower (js "windsurf") ||
  includes subjectLower (js "verify") ||
  includes fromLower (js "windsurf") ||
  includes fromLower (js "codeium") ||
  includes fromLower (js "exafunction").

(** [processEmail], [isTargetEmail] against a body ([parsed.text] or
    [parsed.html]) *)
Definition isTargetEmailBody (to body : jsstring) : bool :=
  let bodyLower := toLowerCase body in
  includes to targetEmail ||
  includes bodyLower (toLowerCase targetEmail) ||
  includes bodyLower (toLowerCase emailDomain).

(** The header callback, [isTargetEmail] *)
Definition isTargetEmail (to : jsstring) : bool :=
  includes (toLowerCase to) (toLowerCase targetEmail) ||
  includes (toLowerCase to) (toLowerCase emailDomain).

(** [processEmail] from "方案2" on: the HTML body, raw and then cleaned. *)
Definition processHtml (parsed : Parsed) (to : jsstring) (s : Session)
    : bool * Session :=
  if truthy (p_html parsed) then
    let html := orEmpty (p_html parsed) in
    let s := say LogTryHtml s in
    let s := say (LogHtmlPreview (take 200 (htmlTextOnly html))) s in
    if negb (isTargetEmailBody to html) then
      (false, say (LogRecipientMismatchHtml targetEmail) s)
    else
      match cascade patterns html with
      | Some m =>
          (true, finish (Some (LogHtmlCode (group1 m))) (Resolved (group1 m)) s)
      | None =>
          let s := say LogCleanRetry s in
          match cascade patterns (cleanHtml html) with
          | Some m =>
              (true, finish (Some (LogCleanCode (group1 m))) (Resolved (group1 m)) s)
          | None => (false, say LogNoCode s)
          end
      end
  else (false, say LogNoCode s).

(** [processEmail] *)
Definition processEmail (parsed : Parsed) (emailId : N) (now : Z) (s : Session)
    : bool * Session :=
  if isResolved s || has emailId s then (false, s)
  else
    let s := add emailId s in
    let subject := orEmpty (p_subject parsed) in
    let from := orEmpty (p_from parsed) in
    let to := orEmpty (p_to parsed) in
    let s := say (LogMail emailId subject from (p_date parsed)) s in
    let s := say (LogMailTo emailId to) s in
    let s := say (LogContentType emailId (p_contentType parsed)) s in
    let age := emailAge now (p_date parsed) in
    if exceeds age maxEmailAge then (false, say (LogTooOld (seconds age)) s)
    else if negb (isWindsurfEmail subject from) then (false, say LogNotWindsurf s)
    else
      match subjectMatch subject with
      | Some m =>
          (true, finish (Some (LogSubjectCode (group1 m))) (Resolved (group1 m)) s)
      | None =>
          let s := say LogSubjectNoCode s in
          if truthy (p_text parsed) then
            let text := orEmpty (p_text parsed) in
            let s := say (LogTextPreview (preview text)) s in
            if negb (isTargetEmailBody to text) then
              (false, say (LogRecipientMismatchText targetEmail) s)
            else
              let s := say LogExtractText s in
              match cascade patterns text with
              | Some m =>
                  (true, finish (Some (LogTextCode (group1 m))) (Resolved (group1 m)) s)
              | None => processHtml parsed to s
              end
          else processHtml parsed to s
      end.

(** [switchToNextBox] up to its [await]: the guard, the flag, and the call
    of [getMailboxList]. *)
Definition switchToNextBox (s : Session) : Session :=
  if isResolved s || junkBoxChecked s then s
  else
    let s := say LogTryJunk s in
    let s := set_junkBoxChecked true s in
    await OnBoxes (send CmdGetBoxes s).

(** The first mailbox whose lower-cased name contains a lower-cased alias. *)
Definition findJunkBox (allBoxes : list jsstring) : option jsstring :=
  List.find (fun boxName =>
    existsb (fun junk => includes (toLowerCase boxName) (toLowerCase junk))
            junkBoxNames) allBoxes.

(** The callback of [imap.getBoxes] in [getMailboxList], and
    [switchToNextBox] from its [await] on. *)
Definition onBoxes (res : jsstring + list (jsstring * Box)) (s : Session) : Session :=
  let '(allBoxes, s) :=
    match res with
    | inl message => ([], say (LogBoxListFailed message) s)
    | inr boxes => (extractBoxNames boxes, s)
    end in
  let s := say (LogBoxes allBoxes) s in
  match findJunkBox allBoxes with
  | None => say LogNoJunk s
  | Some junkBox =>
      let s := say (LogFoundJunk junkBox) s in
      await (OnBoxClosed junkBox) (send CmdCloseBox s)
  end.

(** The callback of [imap.closeBox] *)
Definition onBoxClosed (junkBox : jsstring) (err : option jsstring) (s : Session)
    : Session :=
  let s := match err with Some message => say (LogCloseFailed message) s | None => s end in
  await (OnJunkOpen junkBox) (send (CmdOpenBox junkBox) s).

(** [checkMail] up to the call of [imap.search] *)
Definition checkMail (now : Z) (s : Session) : Session :=
  if isResolved s then s
  else if (maxWaitTime <? now - startTime)%Z then
    finish (Some LogTimeout) (Rejected TimeoutError) s
  else
    match currentBox s with
    | None => say LogWaitingBox s
    | Some box =>
        let sinceDate := (now - 5 * 60 * 1000)%Z in
        let s := say (LogCriteria sinceDate) s in
        let s := say (LogCurrentBox box) s in
        await (OnSearch sinceDate) (send (CmdSearch true sinceDate) s)
    end.

(** The callback of [imap.openBox(junkBox, ...)] *)
Definition onJunkOpened (junkBox : jsstring) (err : option jsstring) (now : Z)
    (s : Session) : Session :=
  match err with
  | Some message => say (LogOpenJunkFailed message) s
  | None =>
      let s := set_currentBox (Some junkBox) s in
      let s := say (LogSwitched junkBox) s in
      checkMail now s
  end.

(** [processSearchResults] up to the call of [imap.fetch] *)
Definition processSearchResults (results : list N) (s : Session) : Session :=
  let newResults := filter (fun id => id ∉ processedEmails s) results in
  match newResults with
  | [] => s
  | _ :: _ =>
      let s := say (LogNewMail (length newResults)) s in
      let sortedResults := newestTen newResults in
      await (OnHeaders sortedResults) (send (CmdFetchHeaders sortedResults) s)
  end.

(** [!results || results.length === 0] *)
Definition noResults (results : option (list N)) : bool :=
  match results with
  | Some (_ :: _) => false
  | _ => true
  end.

Definition resultsLength (results : option (list N)) : nat :=
  match results with Some l => length l | None => 0 end.

(** The callback of the UNSEEN search *)
Definition onSearch (sinceDate : Z) (err : option jsstring)
    (results : option (list N)) (s : Session) : Session :=
  match err with
  | Some message => say (LogSearchFailed message) s
  | None =>
      let s := say (LogUnseenCount (resultsLength results)
                      (match results with Some l => take 5 l | None => [] end)) s in
      if noResults results then
        let s := say LogFallbackStart s in
        await OnFallback (send (CmdSearch false sinceDate) s)
      else processSearchResults (default [] results) s
  end.

(** The callback of the fallback search *)
Definition onFallback (fallbackErr : option jsstring)
    (fallbackResults : option (list N)) (now : Z) (s : Session) : Session :=
  let s := say (LogFallbackCount (resultsLength fallbackResults)) s in
  if bool_decide (is_Some fallbackErr) || noResults fallbackResults then
    if bool_decide (currentBox s = Some INBOX) && negb (junkBoxChecked s) then
      let elapsedTime := (now - startTime)%Z in
      if (30000 <? elapsedTime)%Z then switchToNextBox s else s
    else s
  else
    let s := say (LogFallbackFound (resultsLength fallbackResults)) s in
    processSearchResults (default [] fallbackResults) s.

(** The [simpleParser] callback of the header fetch *)
Definition onHeader (err : bool) (emailId : option N) (parsed : Parsed) (now : Z)
    (s : Session) : Session :=
  if err || noId emailId || isResolved s then s
  else
    let id := default 0%N emailId in
    let subject := orEmpty (p_subject parsed) in
    let from := orEmpty (p_from parsed) in
    let to := orEmpty (p_to parsed) in
    let age := emailAge now (p_date parsed) in
    if exceeds age (2 * 60 * 1000) then add id s
    else if negb (isWindsurf subject from) then add id s
    else
      let s := say (LogHeader id subject to) s in
      if negb (isTargetEmail to) then
        add id (say (LogRecipientMismatch targetEmail) s)
      else
        let s := say (LogRecipientOk targetEmail) s in
        match subjectMatch subject with
        | Some m =>
            let s := add id s in
            finish (Some (LogSubjectCode (group1 m))) (Resolved (group1 m)) s
        | None =>
            let s := say LogFetchFull s in
            await (OnFull id) (send (CmdFetchFull id) s)
        end.

(** The [simpleParser] callback of the full fetch *)
Definition onFull (emailId : N) (err : bool) (fullParsed : Parsed) (now : Z)
    (s : Session) : Session :=
  if err || isResolved s then s
  else
    let s := if truthy (p_html fullParsed) && isGarbledText (p_html fullParsed)
             then say LogGarbled s else s in
    snd (processEmail fullParsed emailId now s).

(** [fullFetch.once('error', ...)] and [fetch.once('error', ...)] *)
Definition onFullError (emailId : N) (message : jsstring) (s : Session) : Session :=
  add emailId (say (LogFullFetchFailed message) s).
Definition onFetchError (message : jsstring) (s : Session) : Session :=
  say (LogFetchFailed message) s.

(** [imap.once('ready', ...)] *)
Definition onReady (s : Session) : Session :=
  let s := say LogConnected s in
  await OnInboxOpen (send (CmdOpenBox INBOX) s).

(** The callback of [imap.openBox('INBOX', ...)] *)
Definition onInboxOpened (err : option jsstring) (now : Z) (s : Session) : Session :=
  match err with
  | Some message => finish None (Rejected (OpenBoxError message)) s
  | None =>
      let s := set_currentBox (Some INBOX) s in
      let s := say LogInboxOpened s in
      let s := say (LogTarget targetEmail) s in
      let s := say (LogMaxWait maxWaitTime) s in
      let s := say LogJunkHint s in
      let s := checkMail now s in
      set_checkInterval true s
  end.

(** [imap.once('error', ...)] and [imap.once('end', ...)] *)
Definition onError (message : jsstring) (s : Session) : Session :=
  finish (Some (LogImapFailed message)) (Rejected (ConnectionError message)) s.
Definition onEnd (s : Session) : Session := say LogClosed (cleanup s).

(** The promise body up to [imap.connect()]. *)
Definition initial : Session :=
  MkSession false false None false ∅ Disconnected []
            [CmdConnect] [OnReady; OnError; OnEnd]
            [LogStart targetEmail; LogServer].

(** A callback that fires once is taken off [pending]. *)
Definition once (c : Callback) (h : Session -> Session) (s : Session)
    : option Session :=
  if bool_decide (c ∈ pending s)
  then Some (h (set_pending (consume c (pending s)) s))
  else None.

(** One turn of the event loop: the callback the event belongs to runs to
    its end; an event nothing waits for cannot happen. *)
Definition step (e : Event) (s : Session) : option Session :=
  match e with
  | EvReady => once OnReady onReady s
  | EvInboxOpened err now => once OnInboxOpen (onInboxOpened err now) s
  | EvTick now => if checkInterval s then Some (checkMail now s) else None
  | EvSearch since err results => once (OnSearch since) (onSearch since err results) s
  | EvFallback err results now => once OnFallback (onFallback err results now) s
  | EvHeader err emailId parsed now =>
      if headerAwaited emailId (pending s)
      then Some (onHeader err emailId parsed now s) else None
  | EvFetchError message =>
      if fetchAwaited (pending s) then Some (onFetchError message s) else None
  | EvFull emailId err fullParsed now =>
      if bool_decide (OnFull emailId ∈ pending s)
      then Some (onFull emailId err fullParsed now s) else None
  | EvFullError emailId message =>
      if bool_decide (OnFull emailId ∈ pending s)
      then Some (onFullError emailId message s) else None
  | EvBoxes res => once OnBoxes (onBoxes res) s
  | EvBoxClosed junkBox err => once (OnBoxClosed junkBox) (onBoxClosed junkBox err) s
  | EvJunkOpened junkBox err now =>
      once (OnJunkOpen junkBox) (onJunkOpened junkBox err now) s
  | EvError message => once OnError (onError message) s
  | EvEnd => once OnEnd onEnd s
  | EvConn st => Some (set_imapState st s)
  end.

(** A run of the event loop. *)
Fixpoint run (es : list Event) (s : Session) : option Session :=
  match es with
  | [] => Some s
  | e :: es' =>
      match step e s with
      | Some s' => run es' s'
      | None => None
      end
  end.

Definition reachable (s : Session) : Prop := exists es, run es initial = Some s.

(** * Properties *)

(** ** Vocabulary *)

(** Every callback leaves the seen-set at least as large, never clears
    [junkBoxChecked], and either leaves the outcome alone or, in a session
    not yet resolved, sets [isResolved] and makes one call of [resolve] or
    [reject]. *)
Definition evolves (s s' : Session) : Prop :=
  processedEmails s ⊆ processedEmails s' /\
  (junkBoxChecked s = true -> junkBoxChecked s' = true) /\
  ((isResolved s' = isResolved s /\ settled s' = settled s) \/
   (isResolved s = false /\ isResolved s' = true /\
    exists o, settled s' = settled s ++ [o])).

(** The number of times [imap.end()] has been called. *)
Definition teardowns (s : Session) : nat := count_occ Command_eq_dec (sent s) CmdEnd.

(** The completions of a search, of a header fetch and of a full fetch. *)
Definition isFetchOrSearch (e : Event) : bool :=
  match e with
  | EvSearch _ _ _ | EvFallback _ _ _ | EvHeader _ _ _ _ | EvFetchError _
  | EvFull _ _ _ _ | EvFullError _ _ => true
  | _ => false
  end.

Definition settledOnce (s : Session) : Prop :=
  (isResolved s = false /\ settled s = []) \/
  (isResolved s = true /\ exists o, settled s = [o]).


(** *** The subject fast path *)

(** The characters the subject pattern accepts before and after the six
    digits: [[\s\-:]] on the left, [[\s\-]] on the right. *)
Definition leftFlank (c : N) : bool := isSpace c || (c =? 45)%N || (c =? 58)%N.
Definition rightFlank (c : N) : bool := isSpace c || (c =? 45)%N.

Definition sixDigits (d : jsstring) : bool := (length d =? 6) && forallb isDigit d.

(** The text before the digits is empty or ends with a left flank; the text
    after them is empty or starts with a right flank. *)
Definition leftOk (pre : jsstring) : bool :=
  match last pre with None => true | Some c => leftFlank c end.
Definition rightOk (post : jsstring) : bool :=
  match post with [] => true | c :: _ => rightFlank c end.

(** Six digits and their right flank at the head of [rest]. *)
Definition runHere (rest : jsstring) : bool :=
  sixDigits (take 6 rest) && rightOk (drop 6 rest).

(** A flanked run of six digits starts at index [i] of [s]. *)
Definition runAt (s : jsstring) (i : nat) : bool :=
  match i with
  | 0 => true
  | S j => match s !! j with Some c => leftFlank c | None => false end
  end && runHere (drop i s).

(** The first run behind a left flank. *)
Fixpoint scanTail (rest : jsstring) : option jsstring :=
  match rest with
  | [] => None
  | c :: tl => if leftFlank c && runHere tl then Some (take 6 tl) else scanTail tl
  end.

(** The least of [i], ..., [i + n - 1] that satisfies [p]. *)
Fixpoint leastFrom (p : nat -> bool) (i n : nat) : option nat :=
  match n with
  | 0 => None
  | S n' => if p i then Some i else leastFrom p (S i) n'
  end.

Definition leastRun (s : jsstring) : option nat := leastFrom (runAt s) 0 (S (length s)).

Definition subjectRe : regex := p_re subjectPattern.

(** *** The seen-set and the fetch of a tick *)

(** [results.filter(id => !processedEmails.has(id))] *)
Definition unseen (s : Session) (results : list N) : list N :=
  filter (fun id => id ∉ processedEmails s) results.

(** *** The pattern cascade *)

(** The last pattern of the table: a bare run of six digits. *)
Definition barePattern : pattern :=
  Pattern false (Seqs [Alt Bol Re.notD09; Group (Times 6 Re.d09); Alt Re.notD09 Eol]).

(** [p] is the first pattern of [ps] that matches [text], with match [m]. *)
Definition firstMatching (ps : list pattern) (text : jsstring) (i : nat)
    (m : MatchArr) : Prop :=
  (exists p, ps !! i = Some p /\ str_match p text = Some m) /\
  forall j q, j < i -> ps !! j = Some q -> str_match q text = None.

(** *** Transient failures *)

(** A search or a fetch that reports an error. *)
Definition isTransientFailure (e : Event) : bool :=
  match e with
  | EvSearch _ (Some _) _ | EvFallback (Some _) _ _
  | EvFetchError _ | EvFullError _ _ => true
  | _ => false
  end.

(** The callbacks of one poll: the tick and the two searches it starts. *)
Definition isPoll (e : Event) : bool :=
  match e with
  | EvTick _ | EvSearch _ _ _ | EvFallback _ _ _ => true
  | _ => false
  end.

(** The command fetches the headers or the body of message [id]. *)
Definition fetches (id : N) (c : Command) : Prop :=
  match c with
  | CmdFetchHeaders ids => id ∈ ids
  | CmdFetchFull id' => id' = id
  | _ => False
  end.

(** *** The switch to the junk mailbox *)

Definition countIf {A} (p : A -> bool) (l : list A) : nat := length (List.filter p l).

Definition isOnBoxes (c : Callback) : bool :=
  match c with OnBoxes => true | _ => false end.
Definition isOnBoxClosed (c : Callback) : bool :=
  match c with OnBoxClosed _ => true | _ => false end.
Definition isOnJunkOpen (c : Callback) : bool :=
  match c with OnJunkOpen _ => true | _ => false end.
Definition isSwitchCallback (c : Callback) : bool :=
  isOnBoxes c || isOnBoxClosed c || isOnJunkOpen c.
Definition isSwitched (l : LogEntry) : bool :=
  match l with LogSwitched _ => true | _ => false end.

(** The calls of [getMailboxList] made by [switchToNextBox], the calls of
    [imap.closeBox], and the assignments [currentBox = junkBox] (each is
    followed by the log line of [LogSwitched]). *)
Definition attempts (s : Session) : nat := count_occ Command_eq_dec (sent s) CmdGetBoxes.
Definition closes (s : Session) : nat := count_occ Command_eq_dec (sent s) CmdCloseBox.
Definition hops (s : Session) : nat := countIf isSwitched (logs s).

(** Everything the switch reads or counts. *)
Definition junkState (s : Session) : nat * nat * nat * nat * nat * nat * bool :=
  (attempts s, closes s, hops s,
   countIf isOnBoxes (pending s), countIf isOnBoxClosed (pending s),
   countIf isOnJunkOpen (pending s), junkBoxChecked s).

(** One call of [getMailboxList] exactly when [junkBoxChecked] is set; at
    most one [closeBox] for it; at most one hop for that [closeBox]. *)
Definition switchInv (s : Session) : Prop :=
  attempts s = (if junkBoxChecked s then 1 else 0) /\
  countIf isOnBoxes (pending s) + closes s <= attempts s /\
  countIf isOnBoxClosed (pending s) + countIf isOnJunkOpen (pending s) + hops s
    <= closes s.

(** The fallback search found nothing: it failed or came back empty. *)
Definition fallbackEmpty (err : option jsstring) (results : option (list N)) : bool :=
  bool_decide (is_Some err) || noResults results.

(** *** The recipient check *)

(** The event is the header callback of message [id] and carries a
    recipient field that names neither the target address nor its part
    before the [@], compared in lower case as the header callback does. *)
Definition otherRecipient (id : N) (e : Event) : Prop :=
  match e with
  | EvHeader _ (Some id') parsed _ =>
      id' = id ->
      includes (toLowerCase (orEmpty (p_to parsed))) (toLowerCase targetEmail) = false /\
      includes (toLowerCase (orEmpty (p_to parsed))) (toLowerCase emailDomain) = false
  | _ => True
  end.

(** ** Vocabulary for the further properties *)

(** *** The shape of a captured code *)

(** The matcher went from [st] to [st'] by consuming a prefix of the input. *)
Definition advanced (st st' : mstate) : Prop :=
  exists consumed, m_rest st = consumed ++ m_rest st' /\
                   m_pos st' = m_pos st + length consumed.

Fixpoint hasGroup (r : regex) : bool :=
  match r with
  | Group _ => true
  | Seq a b | Alt a b => hasGroup a || hasGroup b
  | Star _ a => hasGroup a
  | _ => false
  end.

(** The loop of [Star], on its own. *)
Definition starLoop (ci : bool) (a : regex) (greedy : bool)
    (k : mstate -> option mstate) : nat -> mstate -> option mstate :=
  fix loop (fuel : nat) (st : mstate) {struct fuel} : option mstate :=
    match fuel with
    | O => k st
    | S fuel' =>
        let again :=
          mtch ci a st (fun st' =>
            if length (m_rest st') <? length (m_rest st)
            then loop fuel' st' else None) in
        if greedy
        then match again with Some res => Some res | None => k st end
        else match k st with Some res => Some res | None => again end
    end.

#[global] Instance citem_eq_dec : EqDecision citem.
Proof. solve_decision. Defined.
#[global] Instance regex_eq_dec : EqDecision regex.
Proof. solve_decision. Defined.

(** The class [C] of a pattern of the form [... (C{6}) post], where [post]
    has no group. *)
Fixpoint codeClass (r : regex) : option (list citem) :=
  match r with
  | Seq a rest =>
      match a with
      | Group (Seq (Cls false cls) _) =>
          if bool_decide (a = Group (Times 6 (Cls false cls))) && negb (hasGroup rest)
          then Some cls else codeClass rest
      | _ => codeClass rest
      end
  | _ => None
  end.

(** The characters a captured code is made of: digits and Basic Latin
    letters. *)
Definition isCodeChar (c : N) : bool :=
  isDigit c || inRange 65 90 c || inRange 97 122 c.

(** *** Where an outcome comes from *)

(** [processEmail] takes the match [m] from the message: from the subject,
    or else from a body that passes the recipient check, through the
    cascade (for the HTML body also after clean-up). *)
Definition extracted (parsed : Parsed) (m : MatchArr) : Prop :=
  subjectMatch (orEmpty (p_subject parsed)) = Some m \/
  (subjectMatch (orEmpty (p_subject parsed)) = None /\
   exists body,
     isTargetEmailBody (orEmpty (p_to parsed)) body = true /\
     ((p_text parsed = Some body /\ cascade patterns body = Some m) \/
      (p_html parsed = Some body /\
       (cascade patterns body = Some m \/ cascade patterns (cleanHtml body) = Some m)))).

(** The outcome [o] is one the callback of event [e] can produce. *)
Definition cause (e : Event) (o : Outcome) : Prop :=
  match e with
  | EvInboxOpened (Some message) _ => o = Rejected (OpenBoxError message)
  | EvInboxOpened None now | EvTick now | EvJunkOpened _ None now =>
      o = Rejected TimeoutError /\ (maxWaitTime < now - startTime)%Z
  | EvHeader err emailId parsed now =>
      err = false /\ noId emailId = false /\
      exceeds (emailAge now (p_date parsed)) (2 * 60 * 1000) = false /\
      isWindsurf (orEmpty (p_subject parsed)) (orEmpty (p_from parsed)) = true /\
      isTargetEmail (orEmpty (p_to parsed)) = true /\
      exists m, subjectMatch (orEmpty (p_subject parsed)) = Some m /\
                o = Resolved (group1 m)
  | EvFull _ err parsed now =>
      err = false /\
      exceeds (emailAge now (p_date parsed)) maxEmailAge = false /\
      isWindsurfEmail (orEmpty (p_subject parsed)) (orEmpty (p_from parsed)) = true /\
      exists m, extracted parsed m /\ o = Resolved (group1 m)
  | EvError message => o = Rejected (ConnectionError message)
  | _ => False
  end.

(** The session has the outcome of [s0], or that and one more. *)
Definition settles (P : Outcome -> Prop) (s0 s : Session) : Prop :=
  settled s = settled s0 \/ exists o, settled s = settled s0 ++ [o] /\ P o.

(** *** What a callback asks of the connection *)

(** From [s] to [s'] calls were made on the connection, some with a
    callback handed over; [R] holds of each call and its callback. *)
Definition effect (R : Command -> option Callback -> Prop) (s s' : Session) : Prop :=
  exists reqs : list (Command * option Callback),
    sent s' = sent s ++ map fst reqs /\
    pending s' = pending s ++ omap snd reqs /\
    Forall (fun r => R (fst r) (snd r)) reqs.

(** From [s] to [s'] the timer was not armed and the current mailbox not
    replaced. *)
Definition calm (s s' : Session) : Prop :=
  (checkInterval s' = true -> checkInterval s = true) /\
  currentBox s' = currentBox s.

(** The [openBox('INBOX')] callback has run: nothing will arm the timer. *)
Definition opened (s : Session) : Prop :=
  (OnReady ∉ pending s) /\ (OnInboxOpen ∉ pending s).

(** [sinceDate] is five minutes before a clock reading of a tick or of a
    mailbox-open callback of [es]. *)
Definition polledAt (es : list Event) (sinceDate : Z) : Prop :=
  exists now,
    sinceDate = (now - 5 * 60 * 1000)%Z /\
    (EvTick now ∈ es \/ EvInboxOpened None now ∈ es \/
     exists junkBox, EvJunkOpened junkBox None now ∈ es).

(** The header of message [id] arrived in [es], not older than two minutes,
    from the vendor, addressed to the target and with no code in its
    subject. *)
Definition headerPassed (es : list Event) (id : N) : Prop :=
  exists emailId parsed now,
    EvHeader false emailId parsed now ∈ es /\
    noId emailId = false /\ default 0%N emailId = id /\
    exceeds (emailAge now (p_date parsed)) (2 * 60 * 1000) = false /\
    isWindsurf (orEmpty (p_subject parsed)) (orEmpty (p_from parsed)) = true /\
    isTargetEmail (orEmpty (p_to parsed)) = true /\
    subjectMatch (orEmpty (p_subject parsed)) = None.

(** The callback an event fires once, and the session as that callback
    finds it. *)
Definition fired (e : Event) : option Callback :=
  match e with
  | EvReady => Some OnReady
  | EvInboxOpened _ _ => Some OnInboxOpen
  | EvSearch since _ _ => Some (OnSearch since)
  | EvFallback _ _ _ => Some OnFallback
  | EvBoxes _ => Some OnBoxes
  | EvBoxClosed junkBox _ => Some (OnBoxClosed junkBox)
  | EvJunkOpened junkBox _ _ => Some (OnJunkOpen junkBox)
  | EvError _ => Some OnError
  | EvEnd => Some OnEnd
  | _ => None
  end.

Definition before (e : Event) (s : Session) : Session :=
  match fired e with
  | Some c => set_pending (consume c (pending s)) s
  | None => s
  end.

(** [R] holds of all that the callback of [e] can ask of the connection:
    each call it can make, with the callback it hands over. *)
Definition asks (R : Command -> option Callback -> Prop) (e : Event) : Prop :=
  match e with
  | EvReady => R (CmdOpenBox INBOX) (Some OnInboxOpen)
  | EvInboxOpened err now | EvJunkOpened _ err now =>
      R CmdEnd None /\
      (err = None ->
       R (CmdSearch true (now - 5 * 60 * 1000)) (Some (OnSearch (now - 5 * 60 * 1000))))
  | EvTick now =>
      R CmdEnd None /\
      R (CmdSearch true (now - 5 * 60 * 1000)) (Some (OnSearch (now - 5 * 60 * 1000)))
  | EvSearch since _ _ =>
      R (CmdSearch false since) (Some OnFallback) /\
      forall ids, R (CmdFetchHeaders ids) (Some (OnHeaders ids))
  | EvFallback _ _ _ =>
      R CmdGetBoxes (Some OnBoxes) /\
      forall ids, R (CmdFetchHeaders ids) (Some (OnHeaders ids))
  | EvHeader err emailId parsed now =>
      R CmdEnd None /\
      (err = false -> noId emailId = false ->
       exceeds (emailAge now (p_date parsed)) (2 * 60 * 1000) = false ->
       isWindsurf (orEmpty (p_subject parsed)) (orEmpty (p_from parsed)) = true ->
       isTargetEmail (orEmpty (p_to parsed)) = true ->
       subjectMatch (orEmpty (p_subject parsed)) = None ->
       R (CmdFetchFull (default 0%N emailId)) (Some (OnFull (default 0%N emailId))))
  | EvFull _ _ _ _ | EvError _ | EvEnd => R CmdEnd None
  | EvBoxes _ => forall junkBox, R CmdCloseBox (Some (OnBoxClosed junkBox))
  | EvBoxClosed junkBox _ => R (CmdOpenBox junkBox) (Some (OnJunkOpen junkBox))
  | EvFetchError _ | EvFullError _ _ | EvConn _ => True
  end.

(** The two callbacks that lead to the opening of INBOX. *)
Definition isOpening (c : Callback) : bool :=
  match c with OnReady | OnInboxOpen => true | _ => false end.

(** Before INBOX is open one of the two is pending, the timer is not armed,
    no mailbox is current and nothing else is awaited but the connection's
    [error] and [end]; afterwards an armed timer finds a current mailbox. *)
Definition phase (s : Session) : Prop :=
  (countIf isOpening (pending s) = 1 /\ checkInterval s = false /\
   currentBox s = None /\
   forall c, c ∈ pending s -> c ∈ [OnReady; OnInboxOpen; OnError; OnEnd]) \/
  (countIf isOpening (pending s) = 0 /\
   (checkInterval s = true -> is_Some (currentBox s))).

(** From [s] to [s'] the session, if still unresolved, was so all along,
    kept its connection and left the timer as it was. *)
Definition alive (s s' : Session) : Prop :=
  isResolved s' = false ->
  isResolved s = false /\ teardowns s' = teardowns s /\
  checkInterval s' = checkInterval s.

(** The one attempt to switch mailboxes was made and is over: no callback
    of the switch is pending. *)
Definition spent (s : Session) : Prop :=
  junkBoxChecked s = true /\
  countIf isOnBoxes (pending s) = 0 /\
  countIf isOnBoxClosed (pending s) = 0 /\
  countIf isOnJunkOpen (pending s) = 0.

(** The calls of [imap.openBox]. *)
Definition isOpenBox (c : Command) : bool :=
  match c with CmdOpenBox _ => true | _ => false end.
Definition opens (s : Session) : nat := countIf isOpenBox (sent s).

(** The names [getMailboxList] resolves with: none when [getBoxes] failed. *)
Definition listedBoxes (res : jsstring + list (jsstring * Box)) : list jsstring :=
  match res with
  | inl _ => []
  | inr boxes => extractBoxNames boxes
  end.

(** *** Text predicates *)

(** [t] holds [n] consecutive units that all satisfy [p]. *)
Definition hasRun (p : N -> bool) (n : nat) (t : jsstring) : Prop :=
  exists pre run post, t = pre ++ run ++ post /\ length run = n /\ forallb p run = true.

(** U+FFFD or a C0 control character: the class [\ufffd\u0000-\u001f]. *)
Definition isBadUnit (c : N) : bool := (c =? 65533)%N || (c <=? 31)%N.

(** The mailbox name contains, in lower case, one of the junk aliases. *)
Definition looksLikeJunk (boxName : jsstring) : Prop :=
  exists junk pre post,
    junk ∈ junkBoxNames /\ toLowerCase boxName = pre ++ toLowerCase junk ++ post.

(** *** Mailbox names *)

(** The full name [extractBoxNames] gives an entry [name] found under
    [prefix]. *)
Definition fullNameOf (prefix name : jsstring) (b : Box) : jsstring :=
  match b with
  | MkBox delimiter _ =>
      match prefix with
      | [] => name
      | _ :: _ => prefix ++ (if truthy delimiter then orEmpty delimiter else js "/") ++ name
      end
  end.

Definition childless (b : Box) : bool :=
  match b with MkBox _ None => true | MkBox _ (Some _) => false end.

(** *** Messages that differ in their date only *)

Definition withDate (d : jsdate) (parsed : Parsed) : Parsed :=
  MkParsed (p_subject parsed) (p_from parsed) (p_to parsed) d
           (p_text parsed) (p_html parsed) (p_contentType parsed).

(** The date does not make the message older than two minutes at [now]:
    it is missing, not a time, or a time not more than two minutes back. *)
Definition passesForNew (now : Z) (d : jsdate) : Prop :=
  match d with
  | DateMs t => (now - t <= 2 * 60 * 1000)%Z
  | NoDate | InvalidDate => True
  end.

(** The session without its log. *)
Definition quiet (s : Session) : Session := set_logs [] s.

(** *** A session whose timer is cleared *)

(** The callbacks that neither poll nor open a mailbox: those of the
    connection and of the fetches. *)
Definition idle (c : Callback) : bool :=
  match c with
  | OnError | OnEnd | OnHeaders _ | OnFull _ => true
  | _ => false
  end.
(** ** How a callback may change the session: lemmas *)



Lemma evolves_refl s : evolves s s.
Proof. unfold evolves. auto. Qed.

Lemma evolves_trans s1 s2 s3 : evolves s1 s2 -> evolves s2 s3 -> evolves s1 s3.
Proof.
  intros (Hp1 & Hj1 & Ho1) (Hp2 & Hj2 & Ho2).
  split; [by transitivity (processedEmails s2)|]. split; [auto|].
  destruct Ho1 as [[Hr1 Hs1]|(Hr1 & Hr1' & o & Hs1)];
    destruct Ho2 as [[Hr2 Hs2]|(Hr2 & Hr2' & o' & Hs2)].
  - left. split; congruence.
  - right. repeat split; try congruence. exists o'. congruence.
  - right. repeat split; try congruence. exists o. congruence.
  - congruence.
Qed.

(** A change that touches neither the seen-set, nor [junkBoxChecked] (other
    than setting it), nor the outcome. *)
Lemma evolves_frame s s' :
  processedEmails s' = processedEmails s ->
  (junkBoxChecked s = true -> junkBoxChecked s' = true) ->
  isResolved s' = isResolved s ->
  settled s' = settled s ->
  evolves s s'.
Proof. intros Hp Hj Hr Hs. unfold evolves. rewrite Hp. auto. Qed.

Lemma evolves_say l s : evolves s (say l s).
Proof. by apply evolves_frame. Qed.
Lemma evolves_send c s : evolves s (send c s).
Proof. by apply evolves_frame. Qed.
Lemma evolves_await c s : evolves s (await c s).
Proof. by apply evolves_frame. Qed.
Lemma evolves_set_pending v s : evolves s (set_pending v s).
Proof. by apply evolves_frame. Qed.
Lemma evolves_set_currentBox v s : evolves s (set_currentBox v s).
Proof. by apply evolves_frame. Qed.
Lemma evolves_set_checkInterval v s : evolves s (set_checkInterval v s).
Proof. by apply evolves_frame. Qed.
Lemma evolves_set_imapState v s : evolves s (set_imapState v s).
Proof. by apply evolves_frame. Qed.
Lemma evolves_set_junkBoxChecked s : evolves s (set_junkBoxChecked true s).
Proof. by apply evolves_frame. Qed.

Lemma evolves_add id s : evolves s (add id s).
Proof. unfold evolves, add. simpl. split; [apply union_subseteq_r|auto]. Qed.

Lemma evolves_cleanup s : evolves s (cleanup s).
Proof.
  unfold cleanup. apply evolves_frame;
    destruct (checkInterval s); simpl; destruct (imapState s); reflexivity || auto.
Qed.

Lemma evolves_finish l o s : evolves s (finish l o s).
Proof.
  unfold finish.
  eapply evolves_trans; [apply evolves_cleanup|].
  destruct (isResolved (cleanup s)) eqn:Hr; [apply evolves_refl|].
  unfold evolves. split; [destruct l, o; reflexivity|].
  split; [destruct l, o; simpl; auto|].
  right. split; [exact Hr|]. split; [destruct l, o; reflexivity|].
  destruct o as [code|e]; [exists (Resolved code)|exists (Rejected e)];
    destruct l; reflexivity.
Qed.

Create HintDb evolves.

#[local] Hint Resolve evolves_refl evolves_say evolves_send evolves_await
  evolves_set_pending evolves_set_currentBox evolves_set_checkInterval
  evolves_set_imapState evolves_set_junkBoxChecked evolves_add
  evolves_cleanup evolves_finish : evolves.

(** Chains the steps of a callback body. *)
Ltac evolve :=
  repeat first
    [ apply evolves_refl
    | (eapply evolves_trans; [|solve [eauto with evolves]])
    | solve [eauto with evolves] ].

Lemma evolves_processHtml parsed to s :
  evolves s (snd (processHtml parsed to s)).
Proof. unfold processHtml. repeat case_match; simpl; evolve. Qed.

#[local] Hint Resolve evolves_processHtml : evolves.

Lemma evolves_processEmail parsed emailId now s :
  evolves s (snd (processEmail parsed emailId now s)).
Proof. unfold processEmail. repeat case_match; simpl; evolve. Qed.

Lemma evolves_switchToNextBox s : evolves s (switchToNextBox s).
Proof. unfold switchToNextBox. case_match; evolve. Qed.

Lemma evolves_checkMail now s : evolves s (checkMail now s).
Proof. unfold checkMail. repeat case_match; evolve. Qed.

Lemma evolves_processSearchResults results s :
  evolves s (processSearchResults results s).
Proof. unfold processSearchResults. case_match; evolve. Qed.

#[local] Hint Resolve evolves_processEmail evolves_switchToNextBox
  evolves_checkMail evolves_processSearchResults : evolves.

Lemma evolves_onSearch since err results s :
  evolves s (onSearch since err results s).
Proof. unfold onSearch. repeat case_match; evolve. Qed.

Lemma evolves_onFallback err results now s :
  evolves s (onFallback err results now s).
Proof. unfold onFallback. repeat case_match; evolve. Qed.

Lemma evolves_onHeader err emailId parsed now s :
  evolves s (onHeader err emailId parsed now s).
Proof. unfold onHeader. repeat case_match; evolve. Qed.

Lemma evolves_onFull emailId err parsed now s :
  evolves s (onFull emailId err parsed now s).
Proof. unfold onFull. repeat case_match; evolve. Qed.

Lemma evolves_onBoxes res s : evolves s (onBoxes res s).
Proof. unfold onBoxes. repeat case_match; simplify_eq; evolve. Qed.

Lemma evolves_onBoxClosed junkBox err s : evolves s (onBoxClosed junkBox err s).
Proof. unfold onBoxClosed. case_match; evolve. Qed.

Lemma evolves_onJunkOpened junkBox err now s :
  evolves s (onJunkOpened junkBox err now s).
Proof. unfold onJunkOpened. case_match; evolve. Qed.

Lemma evolves_onInboxOpened err now s : evolves s (onInboxOpened err now s).
Proof. unfold onInboxOpened. case_match; evolve. Qed.

Lemma evolves_once c h s s' :
  (forall s0, evolves s0 (h s0)) -> once c h s = Some s' -> evolves s s'.
Proof.
  unfold once. intros Hh Hs. case_bool_decide; [|discriminate].
  injection Hs as <-. eapply evolves_trans; [apply evolves_set_pending|apply Hh].
Qed.

(** Every turn of the event loop is such a change. *)
Lemma evolves_step e s s' : step e s = Some s' -> evolves s s'.
Proof.
  destruct e; simpl; intros Hs;
    try (eapply evolves_once; [|exact Hs]; intros s0);
    try (case_match; [|discriminate]; injection Hs as <-).
  - unfold onReady. evolve.
  - apply evolves_onInboxOpened.
  - apply evolves_checkMail.
  - apply evolves_onSearch.
  - apply evolves_onFallback.
  - apply evolves_onHeader.
  - unfold onFetchError. evolve.
  - apply evolves_onFull.
  - unfold onFullError. evolve.
  - apply evolves_onBoxes.
  - apply evolves_onBoxClosed.
  - apply evolves_onJunkOpened.
  - unfold onError. evolve.
  - unfold onEnd. evolve.
  - injection Hs as <-. evolve.
Qed.

Lemma evolves_run es : forall s s', run es s = Some s' -> evolves s s'.
Proof.
  induction es as [|e es IH]; simpl; intros s s' Hr.
  - injection Hr as <-. apply evolves_refl.
  - destruct (step e s) as [s1|] eqn:Hs; [|discriminate].
    eapply evolves_trans; [eapply evolves_step; eauto|eauto].
Qed.

(** ** Exactly-once resolution *)


Lemma settledOnce_evolves s s' : settledOnce s -> evolves s s' -> settledOnce s'.
Proof.
  intros Hs (_ & _ & [[Hr Ho]|(Hr & Hr' & o & Ho)]).
  - unfold settledOnce. rewrite Hr, Ho. exact Hs.
  - destruct Hs as [[_ Hnil]|[Ht _]]; [|congruence].
    right. split; [exact Hr'|]. exists o. by rewrite Ho, Hnil.
Qed.

Lemma settledOnce_reachable s : reachable s -> settledOnce s.
Proof.
  intros [es Hr]. eapply settledOnce_evolves; [|eapply evolves_run; exact Hr].
  left. split; reflexivity.
Qed.

Lemma teardowns_send c s :
  teardowns (send c s) = teardowns s + (if decide (c = CmdEnd) then 1 else 0).
Proof.
  unfold teardowns, send. simpl. rewrite count_occ_app. simpl.
  destruct (Command_eq_dec c CmdEnd), (decide (c = CmdEnd)); congruence || lia.
Qed.

(** A search or fetch completion in a resolved session calls neither
    [imap.end()] nor [clearInterval]. *)
Lemma late_completion_quiet e s s' :
  isResolved s = true -> isFetchOrSearch e = true -> step e s = Some s' ->
  teardowns s' = teardowns s /\ checkInterval s' = checkInterval s.
Proof.
  intros Hr He Hs. destruct e; try discriminate He; simpl in Hs.
  - unfold once in Hs. case_bool_decide; [|discriminate]. injection Hs as <-.
    unfold onSearch, processSearchResults.
    repeat case_match; unfold teardowns; simpl; rewrite ?count_occ_app; simpl;
      auto with lia.
  - unfold once in Hs. case_bool_decide; [|discriminate]. injection Hs as <-.
    unfold onFallback, processSearchResults, switchToNextBox. simpl. rewrite Hr. simpl.
    repeat case_match; unfold teardowns; simpl; rewrite ?count_occ_app; simpl;
      auto with lia.
  - case_match; [|discriminate]. injection Hs as <-.
    unfold onHeader. rewrite Hr, !orb_true_r. auto.
  - case_match; [|discriminate]. injection Hs as <-. auto.
  - case_match; [|discriminate]. injection Hs as <-.
    unfold onFull. rewrite Hr, !orb_true_r. auto.
  - case_match; [|discriminate]. injection Hs as <-. auto.
Qed.

(** [imap.once('error', ...)] in a resolved session is [cleanup] and
    nothing else. *)
Lemma late_error_is_cleanup message s s' :
  isResolved s = true -> step (EvError message) s = Some s' ->
  s' = cleanup (set_pending (consume OnError (pending s)) s).
Proof.
  intros Hr Hs. simpl in Hs. unfold once in Hs.
  case_bool_decide; [|discriminate]. injection Hs as <-.
  unfold onError, finish.
  assert (isResolved (cleanup (set_pending (consume OnError (pending s)) s)) = true) as ->;
    [|reflexivity].
  unfold cleanup. simpl. destruct (checkInterval s); simpl; destruct (imapState s); exact Hr.
Qed.

Lemma teardowns_cleanup s :
  teardowns (cleanup s) =
  teardowns s + (if decide (imapState s = Disconnected) then 0 else 1).
Proof.
  unfold cleanup.
  destruct (checkInterval s); simpl; destruct (imapState s); simpl;
    rewrite ?teardowns_send; simpl; unfold teardowns; simpl; lia.
Qed.

Lemma checkInterval_cleanup s : checkInterval (cleanup s) = false.
Proof.
  unfold cleanup.
  destruct (checkInterval s) eqn:Hc; simpl; destruct (imapState s); simpl; auto.
Qed.

(** C1 (as amended).  In every reachable session [resolve] and [reject]
    have been called at most once in total, and exactly when [isResolved]
    is set.  In a resolved session no event changes the outcome; the
    completion of a search, of a header fetch or of a full fetch calls
    neither [imap.end()] nor [clearInterval]; a connection error runs
    [cleanup] again, which leaves the timer cleared and calls [imap.end()]
    once more unless [imap.state] is already ['disconnected']. *)
Theorem resolution_is_final es s :
  run es initial = Some s ->
  length (settled s) <= 1 /\
  (isResolved s = true <-> settled s <> []) /\
  forall e s', isResolved s = true -> step e s = Some s' ->
    settled s' = settled s /\ isResolved s' = true /\
    (isFetchOrSearch e = true ->
       teardowns s' = teardowns s /\ checkInterval s' = checkInterval s) /\
    (forall message, e = EvError message ->
       checkInterval s' = false /\
       teardowns s' =
         teardowns s + (if decide (imapState s = Disconnected) then 0 else 1)).
Proof.
  intros Hrun.
  assert (settledOnce s) as Hinv by (apply settledOnce_reachable; by exists es).
  split; [|split].
  - destruct Hinv as [[_ ->]|[_ [o ->]]]; simpl; lia.
  - destruct Hinv as [[Hr ->]|[Hr [o ->]]]; split; congruence.
  - intros e s' Hr Hs.
    destruct (evolves_step _ _ _ Hs) as (_ & _ & [[Hr' Ho]|(Hr' & _)]); [|congruence].
    split; [exact Ho|]. split; [congruence|]. split.
    + intros He. eapply late_completion_quiet; eauto.
    + intros message ->.
      rewrite (late_error_is_cleanup _ _ _ Hr Hs).
      rewrite checkInterval_cleanup, teardowns_cleanup. auto.
Qed.

(** ** The subject fast path *)

Lemma mtch_Times_Cls ci neg items n : forall st k,
  mtch ci (Times n (Cls neg items)) st k =
  if (n <=? length (m_rest st)) &&
     forallb (fun c => xorb neg (in_items ci items c)) (take n (m_rest st))
  then k (MState (m_pos st + n) (drop n (m_rest st)) (m_cap st))
  else None.
Proof.
  induction n as [|n IH]; intros [pos rest cap] k.
  - simpl. rewrite Nat.add_0_r. by rewrite drop_0.
  - cbn [Times mtch m_rest m_pos m_cap]. destruct rest as [|c tl]; [reflexivity|].
    cbn [take forallb length drop]. 
    destruct (xorb neg (in_items ci items c)); [|by rewrite andb_false_r].
    rewrite IH. unfold advance. cbn [m_rest m_pos m_cap].
    replace (S pos + n) with (pos + S n) by lia. reflexivity.
Qed.

Lemma in_items_d09 c : in_items false [CRange 48 57] c = isDigit c.
Proof. unfold in_items, isDigit. cbn [existsb in_item andb]. by rewrite !orb_false_r. Qed.

Lemma in_items_left c : in_items false [CSpace; CChar 45; CChar 58] c = leftFlank c.
Proof.
  unfold in_items, leftFlank. cbn [existsb in_item].
  rewrite (N.eqb_sym 45 c), (N.eqb_sym 58 c), orb_false_r. by rewrite orb_assoc.
Qed.

Lemma in_items_right c : in_items false [CSpace; CChar 45] c = rightFlank c.
Proof.
  unfold in_items, rightFlank. cbn [existsb in_item]. by rewrite (N.eqb_sym 45 c), orb_false_r.
Qed.

Lemma sixDigits_take rest :
  sixDigits (take 6 rest) =
  (6 <=? length rest) && forallb (fun c => xorb false (in_items false [CRange 48 57] c)) (take 6 rest).
Proof.
  unfold sixDigits. rewrite length_take. f_equal.
  - destruct (Nat.leb_spec 6 (length rest)); [rewrite Nat.min_l by lia; reflexivity|].
    rewrite Nat.min_r by lia. apply Nat.eqb_neq. lia.
  - induction (take 6 rest) as [|c l IH]; [reflexivity|].
    cbn [forallb xorb]. by rewrite IH, in_items_d09.
Qed.

Lemma mtch_Seq ci a b st k :
  mtch ci (Seq a b) st k = mtch ci a st (fun st' => mtch ci b st' k).
Proof. reflexivity. Qed.
Lemma mtch_Alt ci a b st k :
  mtch ci (Alt a b) st k =
  match mtch ci a st k with Some res => Some res | None => mtch ci b st k end.
Proof. reflexivity. Qed.
Lemma mtch_Bol ci st k : mtch ci Bol st k = if m_pos st =? 0 then k st else None.
Proof. reflexivity. Qed.
Lemma mtch_Cls ci neg items st k :
  mtch ci (Cls neg items) st k =
  match m_rest st with
  | c :: tl => if xorb neg (in_items ci items c) then k (advance st tl) else None
  | [] => None
  end.
Proof. reflexivity. Qed.

Lemma mtch_subject pos rest :
  option_map m_cap (mtch false subjectRe (MState pos rest None) Some) =
  if (pos =? 0) && runHere rest then Some (Some (take 6 rest))
  else match rest with
       | c :: tl => if leftFlank c && runHere tl then Some (Some (take 6 tl)) else None
       | [] => None
       end.
Proof.
  assert (Htail : forall p r, 
     option_map m_cap
       (mtch false (Seq (Group (Times 6 Re.d09)) (Seq (Alt (Cls false [CSpace; CChar 45]) Eol) Eps))
          (MState p r None) Some) =
     if runHere r then Some (Some (take 6 r)) else None).
  { intros p r. cbn [mtch]. unfold Re.d09. rewrite mtch_Times_Cls.
    cbn [m_rest m_pos m_cap]. unfold runHere. rewrite <- sixDigits_take.
    destruct (sixDigits (take 6 r)); [|reflexivity]. simpl andb.
    unfold closeGroup. cbn [m_rest m_pos m_cap].
    replace (p + 6 - p) with 6 by lia.
    destruct (drop 6 r) as [|c tl]; [reflexivity|].
    rewrite in_items_right. unfold rightOk. simpl.
    destruct (rightFlank c); reflexivity. }
  unfold subjectRe, subjectPattern. cbn [p_re Seqs].
  set (tail := Seq (Group (Times 6 Re.d09)) _) in *.
  rewrite mtch_Seq, mtch_Alt, mtch_Bol, mtch_Cls. cbn [m_pos m_rest xorb].
  pose proof (Htail pos rest) as H0.
  destruct (pos =? 0); cbn [andb].
  - destruct (mtch false tail _ Some) as [r|] eqn:E0 in H0 |- *.
    + destruct (runHere rest); [exact H0|discriminate H0].
    + destruct (runHere rest); [discriminate H0|].
      destruct rest as [|c tl]; [reflexivity|].
      rewrite in_items_left. unfold advance. cbn [m_pos m_cap].
      destruct (leftFlank c); [apply Htail|reflexivity].
  - destruct rest as [|c tl]; [reflexivity|].
    rewrite in_items_left. unfold advance. cbn [m_pos m_cap].
    destruct (leftFlank c); [apply Htail|reflexivity].
Qed.

Lemma exec_subject_tail rest : forall pos, pos <> 0 ->
  option_map group1 (exec_from false subjectRe pos rest) = option_map Some (scanTail rest).
Proof.
  induction rest as [|c tl IH]; intros pos Hpos.
  - cbn [exec_from]. pose proof (mtch_subject pos []) as H.
    destruct (mtch false subjectRe _ Some) as [st|].
    + apply Nat.eqb_neq in Hpos. rewrite Hpos in H. discriminate H.
    + reflexivity.
  - cbn [exec_from scanTail]. pose proof (mtch_subject pos (c :: tl)) as H.
    apply Nat.eqb_neq in Hpos. rewrite Hpos in H. cbn [andb] in H.
    destruct (mtch false subjectRe _ Some) as [st|].
    + destruct (leftFlank c && runHere tl); [exact H|discriminate H].
    + destruct (leftFlank c && runHere tl); [discriminate H|].
      apply IH. lia.
Qed.

Lemma exec_subject rest :
  option_map group1 (exec_from false subjectRe 0 rest) =
  if runHere rest then Some (Some (take 6 rest)) else option_map Some (scanTail rest).
Proof.
  destruct rest as [|c tl].
  - cbn [exec_from scanTail]. pose proof (mtch_subject 0 []) as H.
    cbn [Nat.eqb andb] in H.
    destruct (mtch false subjectRe _ Some) as [st|];
      destruct (runHere []); try discriminate H; [exact H|reflexivity].
  - cbn [exec_from scanTail]. pose proof (mtch_subject 0 (c :: tl)) as H.
    cbn [Nat.eqb andb] in H.
    destruct (mtch false subjectRe _ Some) as [st|].
    + destruct (runHere (c :: tl)); [exact H|].
      destruct (leftFlank c && runHere tl); [exact H|discriminate H].
    + destruct (runHere (c :: tl)); [discriminate H|].
      destruct (leftFlank c && runHere tl); [discriminate H|].
      apply exec_subject_tail. lia.
Qed.


Lemma leastFrom_Some p n : forall i k, leastFrom p i n = Some k ->
  i <= k < i + n /\ p k = true /\ forall j, i <= j < k -> p j = false.
Proof.
  induction n as [|n IH]; intros i k H; [discriminate|].
  simpl in H. destruct (p i) eqn:Hp.
  - injection H as <-. repeat split; [lia..|exact Hp|intros; lia].
  - destruct (IH _ _ H) as (Hr & Hk & Hj). repeat split; [lia..|exact Hk|].
    intros j Hij. destruct (decide (j = i)) as [->|]; [exact Hp|apply Hj; lia].
Qed.

Lemma leastFrom_None p n : forall i, leastFrom p i n = None ->
  forall j, i <= j < i + n -> p j = false.
Proof.
  induction n as [|n IH]; intros i H j Hj; [lia|].
  simpl in H. destruct (p i) eqn:Hp; [discriminate|].
  destruct (decide (j = i)) as [->|]; [exact Hp|apply (IH _ H); lia].
Qed.

Lemma scanTail_least s : forall j, j <= length s ->
  scanTail (drop j s) =
  (fun i => take 6 (drop i s)) <$> leastFrom (runAt s) (S j) (length s - j).
Proof.
  intros j. remember (length s - j) as n eqn:Hn. revert j Hn.
  induction n as [|n IH]; intros j Hn Hj.
  - rewrite drop_ge by lia. reflexivity.
  - destruct (lookup_lt_is_Some_2 s j) as [c Hc]; [lia|].
    rewrite (drop_S _ _ _ Hc). cbn [scanTail leastFrom].
    replace (runAt s (S j)) with (leftFlank c && runHere (drop (S j) s))
      by (unfold runAt; by rewrite Hc).
    destruct (leftFlank c && runHere (drop (S j) s)); [reflexivity|].
    apply IH; lia.
Qed.

Lemma subjectMatch_least s :
  group1 <$> subjectMatch s = (fun i => Some (take 6 (drop i s))) <$> leastRun s.
Proof.
  unfold subjectMatch, str_match, leastRun. cbn [p_ci]. 
  change (p_re subjectPattern) with subjectRe.
  change (fmap group1 ?x) with (option_map group1 x).
  rewrite exec_subject. cbn [leastFrom].
  replace (runAt s 0) with (runHere s) by (unfold runAt; by rewrite drop_0).
  destruct (runHere s); [reflexivity|].
  pose proof (scanTail_least s 0) as H. rewrite drop_0, Nat.sub_0_r in H.
  rewrite H by lia. by destruct (leastFrom _ _ _).
Qed.

Lemma sixDigits_length d : sixDigits d = true -> length d = 6.
Proof. unfold sixDigits. intros H. apply andb_true_iff in H as [H _]. by apply Nat.eqb_eq. Qed.

Lemma runAt_app pre d post :
  length d = 6 ->
  runAt (pre ++ d ++ post) (length pre) = leftOk pre && (sixDigits d && rightOk post).
Proof.
  intros Hd. unfold runAt, runHere. rewrite drop_app_length.
  rewrite take_app_length' by done. rewrite drop_app_length' by done.
  f_equal. unfold leftOk. rewrite last_lookup.
  destruct pre as [|c pre] using rev_ind; [reflexivity|].
  rewrite length_app. simpl. replace (length pre + 1) with (S (length pre)) by lia.
  simpl. rewrite <- !app_assoc.
  rewrite (lookup_app_r pre (_ ++ _)) by lia. rewrite (lookup_app_r pre [c]) by lia.
  rewrite Nat.sub_diag. reflexivity.
Qed.

Lemma runAt_split s i :
  runAt s i = true ->
  s = take i s ++ take 6 (drop i s) ++ drop (i + 6) s /\
  length (take i s) = i /\
  sixDigits (take 6 (drop i s)) = true /\
  leftOk (take i s) = true /\
  rightOk (drop (i + 6) s) = true.
Proof.
  unfold runAt, runHere. intros H.
  apply andb_true_iff in H as [Hl H]. apply andb_true_iff in H as [Hd Hr].
  assert (i + 6 <= length s) as Hlen.
  { apply sixDigits_length in Hd. rewrite length_take, length_drop in Hd. lia. }
  split; [|split; [|split; [|split]]].
  - rewrite <- (drop_drop s 6 i) at 1. by rewrite !take_drop.
  - rewrite length_take. lia.
  - exact Hd.
  - unfold leftOk. rewrite last_lookup, length_take.
    destruct i as [|j]; [reflexivity|].
    rewrite Nat.min_l by lia. cbn [Init.Nat.pred]. rewrite lookup_take_lt by lia.
    destruct (s !! j); [exact Hl|reflexivity].
  - by rewrite drop_drop in Hr.
Qed.

(** The match is the leftmost flanked run. *)
Lemma subjectMatch_leftmost s i :
  runAt s i = true -> i <= length s ->
  exists k, k <= i /\ runAt s k = true /\
    (forall j, j < k -> runAt s j = false) /\
    group1 <$> subjectMatch s = Some (Some (take 6 (drop k s))).
Proof.
  intros Hi Hlen. pose proof (subjectMatch_least s) as Hm. unfold leastRun in Hm.
  destruct (leastFrom (runAt s) 0 (S (length s))) as [k|] eqn:Hk.
  - apply leastFrom_Some in Hk as (_ & Hrun & Hmin).
    exists k. repeat split; [|exact Hrun|intros j Hj; apply Hmin; lia|exact Hm].
    destruct (decide (k <= i)) as [|Hn]; [done|].
    rewrite Hmin in Hi by lia. discriminate.
  - rewrite (leastFrom_None _ _ _ Hk i) in Hi by lia. discriminate.
Qed.

(** A header that passes the age, provenance and recipient checks and
    whose subject has a match resolves the session on the spot. *)
Lemma onHeader_subject emailId parsed now s m :
  isResolved s = false -> noId emailId = false ->
  exceeds (emailAge now (p_date parsed)) (2 * 60 * 1000) = false ->
  isWindsurf (orEmpty (p_subject parsed)) (orEmpty (p_from parsed)) = true ->
  isTargetEmail (orEmpty (p_to parsed)) = true ->
  subjectMatch (orEmpty (p_subject parsed)) = Some m ->
  let s' := onHeader false emailId parsed now s in
  settled s' = settled s ++ [Resolved (group1 m)] /\
  isResolved s' = true /\
  pending s' = pending s /\
  sent s' = sent (cleanup s) /\
  processedEmails s' = {[default 0%N emailId]} ∪ processedEmails s.
Proof.
  intros Hr Hid Hage Hw Ht Hm. unfold onHeader.
  rewrite Hr, Hid, Hage, Hw, Ht, Hm. cbn [orb negb].
  unfold finish, cleanup. cbn [checkInterval add say set_processedEmails set_logs].
  destruct (checkInterval s); cbn; destruct (imapState s); cbn; rewrite Hr; cbn; auto.
Qed.

(** C2 (as amended).  When the subject holds six digits that follow
    white space, a hyphen, a colon or the start of the subject, and that are
    followed by white space, a hyphen or the end of the subject (a colon on
    the right does not count), the subject pattern matches and captures
    the leftmost such run: that very run when none starts before it.  If
    the header also passes the age, provenance and recipient checks of a
    session not yet resolved, the header callback resolves the session
    with that run, waits for no further callback and sends nothing but
    what [cleanup] sends: no full-body fetch. *)
Theorem subject_fast_path pre d post :
  sixDigits d = true -> leftOk pre = true -> rightOk post = true ->
  exists pre0 d0 post0,
    pre0 ++ d0 ++ post0 = pre ++ d ++ post /\
    sixDigits d0 = true /\ leftOk pre0 = true /\ rightOk post0 = true /\
    length pre0 <= length pre /\
    (length pre0 = length pre -> d0 = d) /\
    group1 <$> subjectMatch (pre ++ d ++ post) = Some (Some d0) /\
    forall s emailId parsed now,
      p_subject parsed = Some (pre ++ d ++ post) ->
      isResolved s = false -> noId emailId = false ->
      exceeds (emailAge now (p_date parsed)) (2 * 60 * 1000) = false ->
      isWindsurf (pre ++ d ++ post) (orEmpty (p_from parsed)) = true ->
      isTargetEmail (orEmpty (p_to parsed)) = true ->
      let s' := onHeader false emailId parsed now s in
      settled s' = settled s ++ [Resolved (Some d0)] /\
      isResolved s' = true /\
      pending s' = pending s /\
      sent s' = sent (cleanup s).
Proof.
  intros Hd Hl Hr. set (subject := pre ++ d ++ post).
  assert (runAt subject (length pre) = true) as Hrun.
  { unfold subject. rewrite runAt_app by (by apply sixDigits_length).
    by rewrite Hd, Hl, Hr. }
  destruct (subjectMatch_leftmost subject (length pre) Hrun) as (k & Hk & Hrk & _ & Hm).
  { unfold subject. rewrite length_app. lia. }
  destruct (runAt_split _ _ Hrk) as (Hsplit & Hlen & Hd0 & Hl0 & Hr0).
  exists (take k subject), (take 6 (drop k subject)), (drop (k + 6) subject).
  split; [by rewrite <- Hsplit|]. do 3 (split; [done|]).
  split; [by rewrite Hlen|]. split; [|split; [exact Hm|]].
  - rewrite Hlen. intros ->. unfold subject.
    rewrite drop_app_length. apply take_app_length'. symmetry. by apply sixDigits_length.
  - intros s emailId parsed now Hsubj Hres Hid Hage Hw Ht.
    destruct (subjectMatch subject) as [m|] eqn:Hsm; [|discriminate Hm].
    injection Hm as Hg.
    destruct (onHeader_subject emailId parsed now s m) as (H1 & H2 & H3 & H4 & _);
      rewrite ?Hsubj; try done.
    rewrite Hg in H1. auto.
Qed.

(** ** The fetch of one tick *)

Lemma newestTen_length l : length (newestTen l) = Nat.min 10 (length l).
Proof.
  unfold newestTen. rewrite length_take.
  by rewrite (Permutation_length (merge_sort_Permutation newerFirst l)).
Qed.

Lemma newestTen_sorted l : StronglySorted newerFirst (newestTen l).
Proof.
  unfold newestTen.
  pose proof (StronglySorted_merge_sort newerFirst l) as Hs.
  rewrite <- (take_drop 10 (merge_sort newerFirst l)) in Hs.
  by apply StronglySorted_app_1_l in Hs.
Qed.

Lemma newestTen_elem_of x l : x ∈ newestTen l -> x ∈ l.
Proof.
  unfold newestTen. intros Hx.
  rewrite <- (merge_sort_Permutation newerFirst l).
  rewrite <- (take_drop 10 (merge_sort newerFirst l)). apply elem_of_app. by left.
Qed.

(** What is left out is no newer than anything taken. *)
Lemma newestTen_newest x y l :
  x ∈ newestTen l -> y ∈ l -> y ∉ newestTen l -> (y <= x)%N.
Proof.
  unfold newestTen. intros Hx Hy Hny.
  pose proof (StronglySorted_merge_sort newerFirst l) as Hs.
  rewrite <- (take_drop 10 (merge_sort newerFirst l)) in Hs.
  rewrite <- (merge_sort_Permutation newerFirst l) in Hy.
  rewrite <- (take_drop 10 (merge_sort newerFirst l)) in Hy.
  apply elem_of_app in Hy as [Hy|Hy]; [done|].
  exact (StronglySorted_app_1_elem_of _ _ _ _ _ Hs Hx Hy).
Qed.

Lemma processSearchResults_cases results s :
  (unseen s results = [] /\ processSearchResults results s = s) \/
  (unseen s results <> [] /\
   let ids := newestTen (unseen s results) in
   let s' := processSearchResults results s in
   sent s' = sent s ++ [CmdFetchHeaders ids] /\
   pending s' = pending s ++ [OnHeaders ids] /\
   settled s' = settled s /\ isResolved s' = isResolved s /\
   processedEmails s' = processedEmails s /\
   checkInterval s' = checkInterval s /\ currentBox s' = currentBox s /\
   junkBoxChecked s' = junkBoxChecked s /\
   logs s' = logs s ++ [LogNewMail (length (unseen s results))]).
Proof.
  unfold processSearchResults. fold (unseen s results).
  destruct (unseen s results) as [|n l] eqn:Hu; [left; auto|right].
  split; [done|]. cbn. auto 10.
Qed.


(** ** The pattern cascade *)


Lemma cascade_Some ps text m :
  cascade ps text = Some m -> exists i, firstMatching ps text i m.
Proof.
  induction ps as [|p ps IH]; simpl; [discriminate|].
  destruct (str_match p text) as [m'|] eqn:Hp.
  - intros [= ->]. exists 0. split; [by exists p|]. intros j q Hj. lia.
  - intros Hc. destruct (IH Hc) as (i & (q & Hq & Hm) & Hbefore).
    exists (S i). split; [by exists q|].
    intros [|j] q' Hj Hq'; simpl in Hq'.
    + by injection Hq' as <-.
    + apply (Hbefore j q'); [lia|done].
Qed.

Lemma cascade_None ps text :
  cascade ps text = None <-> forall p, p ∈ ps -> str_match p text = None.
Proof.
  induction ps as [|p ps IH]; simpl.
  - split; [intros _ p Hp; by apply elem_of_nil in Hp|done].
  - destruct (str_match p text) as [m|] eqn:Hp.
    + split; [discriminate|]. intros H. specialize (H p (list_elem_of_here _ _)). congruence.
    + rewrite IH. split.
      * intros H q Hq. apply elem_of_cons in Hq as [->|Hq]; auto.
      * intros H q Hq. apply H. by apply list_elem_of_further.
Qed.

Lemma patterns_last : patterns !! 9 = Some barePattern.
Proof. reflexivity. Qed.



(** ** The age check *)

Lemma exceeds_old now t limit :
  (limit < now - t)%Z -> exceeds (emailAge now (DateMs t)) limit = true.
Proof. intros H. simpl. by apply Z.ltb_lt. Qed.

(** C7.  A message dated more than two minutes before the callback runs is
    dropped whatever its other fields are: the header callback only marks
    it seen and [processEmail] returns [false]; neither resolves the
    session, sends a command or registers a callback. *)
Theorem stale_message_rejected parsed now t :
  p_date parsed = DateMs t ->
  (2 * 60 * 1000 < now - t)%Z ->
  (forall s emailId,
     isResolved s = false -> noId emailId = false ->
     onHeader false emailId parsed now s = add (default 0%N emailId) s) /\
  (forall s err emailId,
     let s' := onHeader err emailId parsed now s in
     settled s' = settled s /\ isResolved s' = isResolved s /\
     sent s' = sent s /\ pending s' = pending s) /\
  (forall s emailId,
     let r := processEmail parsed emailId now s in
     fst r = false /\
     settled (snd r) = settled s /\ isResolved (snd r) = isResolved s /\
     sent (snd r) = sent s /\ pending (snd r) = pending s).
Proof.
  intros Hdate Hold.
  assert (exceeds (emailAge now (p_date parsed)) (2 * 60 * 1000) = true) as Hx
    by (rewrite Hdate; by apply exceeds_old).
  split; [|split].
  - intros s emailId Hr Hid. unfold onHeader. by rewrite Hr, Hid, Hx.
  - intros s err emailId. unfold onHeader.
    destruct (err || noId emailId || isResolved s); [done|]. by rewrite Hx.
  - intros s emailId. unfold processEmail.
    destruct (isResolved s || has emailId s); [done|].
    unfold maxEmailAge. by rewrite Hx.
Qed.

(** ** Transient failures and the deadline *)

Lemma checkMail_deadline now s :
  isResolved s = false -> (maxWaitTime < now - startTime)%Z ->
  settled (checkMail now s) = settled s ++ [Rejected TimeoutError] /\
  isResolved (checkMail now s) = true /\
  checkInterval (checkMail now s) = false /\
  logs (checkMail now s) = logs s ++ [LogTimeout].
Proof.
  intros Hr Hd. unfold checkMail. rewrite Hr.
  apply Z.ltb_lt in Hd. rewrite Hd. unfold finish, cleanup.
  destruct (checkInterval s) eqn:Hc; cbn; destruct (imapState s); cbn;
    rewrite Hr; cbn; auto.
Qed.

Lemma checkMail_before now s :
  (now - startTime <= maxWaitTime)%Z ->
  settled (checkMail now s) = settled s /\
  isResolved (checkMail now s) = isResolved s /\
  checkInterval (checkMail now s) = checkInterval s.
Proof.
  intros Hd. unfold checkMail.
  destruct (isResolved s) eqn:Hr; [done|].
  apply Z.ltb_ge in Hd. rewrite Hd. by destruct (currentBox s).
Qed.

Lemma transient_keeps e s s' :
  isTransientFailure e = true -> step e s = Some s' ->
  settled s' = settled s /\ isResolved s' = isResolved s /\
  checkInterval s' = checkInterval s.
Proof.
  intros He Hs. destruct e; try discriminate He; simpl in Hs.
  - destruct err as [message|]; [|discriminate He].
    unfold once in Hs. case_bool_decide; [|discriminate]. by injection Hs as <-.
  - destruct err as [message|]; [|discriminate He].
    unfold once in Hs. case_bool_decide; [|discriminate]. injection Hs as <-.
    unfold onFallback, switchToNextBox. cbn.
    repeat case_match; cbn; auto.
  - case_match; [|discriminate]. by injection Hs as <-.
  - case_match; [|discriminate]. by injection Hs as <-.
Qed.


(** ** The seen-set *)

Lemma processEmail_seen parsed id now s :
  id ∈ processedEmails s -> processEmail parsed id now s = (false, s).
Proof.
  intros Hid. unfold processEmail, has.
  rewrite bool_decide_eq_true_2 by done. by rewrite orb_true_r.
Qed.

Lemma processSearchResults_skips_seen id results s :
  id ∈ processedEmails s ->
  exists new, sent (processSearchResults results s) = sent s ++ new /\
              forall c, c ∈ new -> ~ fetches id c.
Proof.
  intros Hid.
  destruct (processSearchResults_cases results s) as [[_ ->]|[_ Hs]];
    [|cbn zeta in Hs].
  - exists []. split; [by rewrite app_nil_r|]. intros c Hc. by apply elem_of_nil in Hc.
  - destruct Hs as (-> & _). eexists. split; [reflexivity|].
    intros c Hc. apply list_elem_of_singleton in Hc as ->. simpl. intros Hin.
    apply newestTen_elem_of in Hin. unfold unseen in Hin.
    apply list_elem_of_filter in Hin as [Hn _]. by apply Hn.
Qed.

Lemma no_fetch_nil id (s : Session) :
  exists new : list Command, sent s = sent s ++ new /\ forall c, c ∈ new -> ~ fetches id c.
Proof. exists []. split; [by rewrite app_nil_r|]. intros c Hc. by apply elem_of_nil in Hc. Qed.

Lemma no_fetch_one id (l : list Command) c0 :
  ~ fetches id c0 ->
  exists new, l ++ [c0] = l ++ new /\ forall c, c ∈ new -> ~ fetches id c.
Proof.
  intros Hc0. exists [c0]. split; [done|].
  intros c Hc. by apply list_elem_of_singleton in Hc as ->.
Qed.

Lemma poll_skips_seen id e s s' :
  id ∈ processedEmails s -> isPoll e = true -> step e s = Some s' ->
  exists new, sent s' = sent s ++ new /\ forall c, c ∈ new -> ~ fetches id c.
Proof.
  intros Hid He Hs. destruct e; try discriminate He; simpl in Hs.
  - case_match; [|discriminate]. injection Hs as <-.
    unfold checkMail, finish, cleanup.
    repeat case_match; cbn; (apply no_fetch_nil || (apply no_fetch_one; by intros [])).
  - unfold once in Hs. case_bool_decide; [|discriminate]. injection Hs as <-.
    unfold onSearch. repeat case_match; cbn;
      try (apply no_fetch_nil || (apply no_fetch_one; by intros [])).
    all: match goal with
         | |- context [processSearchResults ?r ?s0] =>
             apply (processSearchResults_skips_seen id r s0 Hid)
         end.
  - unfold once in Hs. case_bool_decide; [|discriminate]. injection Hs as <-.
    unfold onFallback, switchToNextBox. repeat case_match; cbn;
      try (apply no_fetch_nil || (apply no_fetch_one; by intros [])).
    all: match goal with
         | |- context [processSearchResults ?r ?s0] =>
             apply (processSearchResults_skips_seen id r s0 Hid)
         end.
Qed.


(** ** Provenance *)

(** The two provenance tests differ by one disjunct. *)
Lemma isWindsurfEmail_isWindsurf subject from :
  isWindsurfEmail subject from =
  isWindsurf subject from || includes (toLowerCase subject) (js "verification").
Proof.
  unfold isWindsurfEmail, isWindsurf.
  destruct (includes (toLowerCase subject) (js "windsurf")),
           (includes (toLowerCase subject) (js "verify")),
           (includes (toLowerCase subject) (js "verification")),
           (includes (toLowerCase from) (js "windsurf")),
           (includes (toLowerCase from) (js "codeium")),
           (includes (toLowerCase from) (js "exafunction")); reflexivity.
Qed.

(** The word "verification" does not contain the word "verify". *)
Lemma verification_lacks_verify : includes (js "verification") (js "verify") = false.
Proof. reflexivity. Qed.

(** C4 (the code as it is).  A message whose only provenance signal is the
    word "verification" in its subject passes the test of [processEmail]
    but not the test of the header callback, which runs first: the header
    callback marks the message seen and goes no further, so the message is
    never fetched in full and [processEmail] never sees it. *)
Theorem verification_only_is_dropped parsed emailId now s :
  includes (toLowerCase (orEmpty (p_subject parsed))) (js "verification") = true ->
  isWindsurf (orEmpty (p_subject parsed)) (orEmpty (p_from parsed)) = false ->
  isResolved s = false -> noId emailId = false ->
  exceeds (emailAge now (p_date parsed)) (2 * 60 * 1000) = false ->
  isWindsurfEmail (orEmpty (p_subject parsed)) (orEmpty (p_from parsed)) = true /\
  onHeader false emailId parsed now s = add (default 0%N emailId) s.
Proof.
  intros Hv Hw Hr Hid Hage. split.
  - by rewrite isWindsurfEmail_isWindsurf, Hv, orb_true_r.
  - unfold onHeader. by rewrite Hr, Hid, Hage, Hw.
Qed.

(** ** The switch to the junk mailbox *)

Lemma countIf_app {A} (p : A -> bool) l1 l2 :
  countIf p (l1 ++ l2) = countIf p l1 + countIf p l2.
Proof. unfold countIf. by rewrite List.filter_app, length_app. Qed.

Lemma countIf_single {A} (p : A -> bool) x : countIf p [x] = if p x then 1 else 0.
Proof. unfold countIf. simpl. by destruct (p x). Qed.

Lemma countIf_consume (p : Callback -> bool) c l :
  c ∈ l -> countIf p l = countIf p (consume c l) + (if p c then 1 else 0).
Proof.
  induction l as [|x l IH]; intros Hc; [by apply elem_of_nil in Hc|].
  simpl. destruct (decide (x = c)) as [->|Hne].
  - unfold countIf. simpl. destruct (p c); simpl; lia.
  - apply elem_of_cons in Hc as [->|Hc]; [done|].
    specialize (IH Hc). unfold countIf in *. simpl. destruct (p x); simpl; lia.
Qed.

Lemma junkState_say l s : isSwitched l = false -> junkState (say l s) = junkState s.
Proof.
  intros Hl. unfold junkState, hops, attempts, closes, say, set_logs.
  cbn [logs sent pending junkBoxChecked]. rewrite countIf_app.
  by rewrite countIf_single, Hl, Nat.add_0_r.
Qed.

Lemma junkState_send c s :
  c <> CmdGetBoxes -> c <> CmdCloseBox -> junkState (send c s) = junkState s.
Proof.
  intros H1 H2. unfold junkState, hops, attempts, closes, send, set_sent.
  cbn [logs sent pending junkBoxChecked]. rewrite !count_occ_app. cbn [count_occ].
  destruct (Command_eq_dec c CmdGetBoxes), (Command_eq_dec c CmdCloseBox); try done.
  by rewrite !Nat.add_0_r.
Qed.

Lemma junkState_await c s :
  isSwitchCallback c = false -> junkState (await c s) = junkState s.
Proof.
  intros Hc. unfold junkState, hops, attempts, closes, await, set_pending.
  cbn [logs sent pending junkBoxChecked]. rewrite !countIf_app.
  unfold isSwitchCallback in Hc. apply orb_false_elim in Hc as [Hc H3].
  apply orb_false_elim in Hc as [H1 H2].
  by rewrite !countIf_single, H1, H2, H3, !Nat.add_0_r.
Qed.

Lemma junkState_consume c s :
  isSwitchCallback c = false -> c ∈ pending s ->
  junkState (set_pending (consume c (pending s)) s) = junkState s.
Proof.
  intros Hc Hin. unfold junkState, hops, attempts, closes, set_pending.
  cbn [logs sent pending junkBoxChecked].
  unfold isSwitchCallback in Hc. apply orb_false_elim in Hc as [Hc H3].
  apply orb_false_elim in Hc as [H1 H2].
  rewrite (countIf_consume isOnBoxes c (pending s) Hin),
          (countIf_consume isOnBoxClosed c (pending s) Hin),
          (countIf_consume isOnJunkOpen c (pending s) Hin).
  rewrite H1, H2, H3. by rewrite !Nat.add_0_r.
Qed.

Lemma junkState_add id s : junkState (add id s) = junkState s.
Proof. reflexivity. Qed.
Lemma junkState_set_checkInterval v s : junkState (set_checkInterval v s) = junkState s.
Proof. reflexivity. Qed.
Lemma junkState_set_isResolved v s : junkState (set_isResolved v s) = junkState s.
Proof. reflexivity. Qed.
Lemma junkState_set_currentBox v s : junkState (set_currentBox v s) = junkState s.
Proof. reflexivity. Qed.
Lemma junkState_set_imapState v s : junkState (set_imapState v s) = junkState s.
Proof. reflexivity. Qed.
Lemma junkState_resolve v s : junkState (resolve v s) = junkState s.
Proof. reflexivity. Qed.
Lemma junkState_reject v s : junkState (reject v s) = junkState s.
Proof. reflexivity. Qed.

Lemma junkState_cleanup s : junkState (cleanup s) = junkState s.
Proof.
  unfold cleanup. destruct (checkInterval s); cbn [imapState set_checkInterval];
    destruct (imapState s); rewrite ?junkState_send by done; reflexivity.
Qed.

Lemma junkState_finish l o s :
  match l with Some l' => isSwitched l' = false | None => True end ->
  junkState (finish l o s) = junkState s.
Proof.
  intros Hl. unfold finish. destruct (isResolved (cleanup s)); [apply junkState_cleanup|].
  destruct o, l; rewrite ?junkState_resolve, ?junkState_reject, ?junkState_say,
    ?junkState_set_isResolved, ?junkState_cleanup; done.
Qed.

(** Rewrites [junkState] through the steps of a callback body that leave
    it alone. *)
Ltac junk_neutral :=
  repeat first
    [ rewrite junkState_say by reflexivity
    | rewrite junkState_send by discriminate
    | rewrite junkState_await by reflexivity
    | rewrite junkState_finish by (cbn; done)
    | rewrite junkState_add
    | rewrite junkState_set_checkInterval
    | rewrite junkState_set_currentBox
    | rewrite junkState_set_imapState
    | rewrite junkState_cleanup ];
  try reflexivity.

Lemma junkState_processHtml parsed to s :
  junkState (snd (processHtml parsed to s)) = junkState s.
Proof. unfold processHtml. repeat case_match; cbn [snd]; junk_neutral. Qed.

Lemma junkState_processEmail parsed emailId now s :
  junkState (snd (processEmail parsed emailId now s)) = junkState s.
Proof.
  unfold processEmail.
  repeat case_match; cbn [snd]; rewrite ?junkState_processHtml; junk_neutral.
Qed.

Lemma junkState_checkMail now s : junkState (checkMail now s) = junkState s.
Proof. unfold checkMail. repeat case_match; junk_neutral. Qed.

Lemma junkState_processSearchResults results s :
  junkState (processSearchResults results s) = junkState s.
Proof. unfold processSearchResults. case_match; junk_neutral. Qed.

Lemma junkState_onSearch since err results s :
  junkState (onSearch since err results s) = junkState s.
Proof.
  unfold onSearch.
  repeat case_match; rewrite ?junkState_processSearchResults; junk_neutral.
Qed.

Lemma junkState_onHeader err emailId parsed now s :
  junkState (onHeader err emailId parsed now s) = junkState s.
Proof. unfold onHeader. repeat case_match; junk_neutral. Qed.

Lemma junkState_onFull emailId err parsed now s :
  junkState (onFull emailId err parsed now s) = junkState s.
Proof.
  unfold onFull. repeat case_match; rewrite ?junkState_processEmail; junk_neutral.
Qed.

Lemma junkState_onInboxOpened err now s :
  junkState (onInboxOpened err now s) = junkState s.
Proof.
  unfold onInboxOpened. case_match; junk_neutral.
  rewrite junkState_checkMail. junk_neutral.
Qed.

Lemma switchInv_junkState s s' : junkState s' = junkState s -> switchInv s -> switchInv s'.
Proof.
  unfold junkState, switchInv. intros [= -> -> -> -> -> -> ->]. done.
Qed.

Lemma junkBoxChecked_junkState s s' :
  junkState s' = junkState s -> junkBoxChecked s' = junkBoxChecked s.
Proof. unfold junkState. by intros [= _ _ _ _ _ _ ->]. Qed.

(** Unfolds the counts the invariant speaks of. *)
Ltac junk_counts :=
  unfold switchInv, attempts, closes, hops, say, send, await, add,
    set_logs, set_sent, set_pending, set_junkBoxChecked, set_currentBox,
    set_processedEmails in *;
  cbn [logs sent pending junkBoxChecked isResolved currentBox] in *;
  rewrite ?count_occ_app, ?countIf_app, ?countIf_single in *;
  cbn [count_occ isOnBoxes isOnBoxClosed isOnJunkOpen isSwitched] in *.

Lemma switchInv_switchToNextBox s : switchInv s -> switchInv (switchToNextBox s).
Proof.
  unfold switchToNextBox. intros Hinv.
  destruct (isResolved s); [done|]. destruct (junkBoxChecked s) eqn:Hj; [done|].
  cbn [orb]. junk_counts. rewrite Hj in Hinv.
  destruct (Command_eq_dec CmdGetBoxes CmdGetBoxes); [|done].
  destruct (Command_eq_dec CmdGetBoxes CmdCloseBox); [done|]. lia.
Qed.

Lemma switchInv_onFallback err results now s :
  switchInv s -> switchInv (onFallback err results now s).
Proof.
  intros Hinv. unfold onFallback.
  assert (switchInv (say (LogFallbackCount (resultsLength results)) s)) as Hinv1
    by (eapply switchInv_junkState; [by apply junkState_say|done]).
  repeat case_match; try done.
  - by apply switchInv_switchToNextBox.
  - eapply switchInv_junkState; [|exact Hinv].
    rewrite junkState_processSearchResults. junk_neutral.
Qed.

Lemma switchInv_onBoxes res s :
  switchInv s -> OnBoxes ∈ pending s ->
  switchInv (onBoxes res (set_pending (consume OnBoxes (pending s)) s)).
Proof.
  intros Hinv Hin.
  pose proof (countIf_consume isOnBoxes _ _ Hin) as H1.
  pose proof (countIf_consume isOnBoxClosed _ _ Hin) as H2.
  pose proof (countIf_consume isOnJunkOpen _ _ Hin) as H3.
  unfold onBoxes. repeat case_match; simplify_eq; junk_counts;
    repeat match goal with
           | |- context [Command_eq_dec ?a ?b] => destruct (Command_eq_dec a b); try done
           end; lia.
Qed.

Lemma switchInv_onBoxClosed junkBox err s :
  switchInv s -> OnBoxClosed junkBox ∈ pending s ->
  switchInv (onBoxClosed junkBox err
               (set_pending (consume (OnBoxClosed junkBox) (pending s)) s)).
Proof.
  intros Hinv Hin.
  pose proof (countIf_consume isOnBoxes _ _ Hin) as H1.
  pose proof (countIf_consume isOnBoxClosed _ _ Hin) as H2.
  pose proof (countIf_consume isOnJunkOpen _ _ Hin) as H3.
  unfold onBoxClosed. repeat case_match; junk_counts;
    repeat match goal with
           | |- context [Command_eq_dec ?a ?b] => destruct (Command_eq_dec a b); try done
           end; lia.
Qed.

Lemma switchInv_onJunkOpened junkBox err now s :
  switchInv s -> OnJunkOpen junkBox ∈ pending s ->
  switchInv (onJunkOpened junkBox err now
               (set_pending (consume (OnJunkOpen junkBox) (pending s)) s)).
Proof.
  intros Hinv Hin.
  pose proof (countIf_consume isOnBoxes _ _ Hin) as H1.
  pose proof (countIf_consume isOnBoxClosed _ _ Hin) as H2.
  pose proof (countIf_consume isOnJunkOpen _ _ Hin) as H3.
  unfold onJunkOpened. destruct err as [message|].
  - junk_counts. lia.
  - eapply switchInv_junkState; [apply junkState_checkMail|].
    junk_counts. lia.
Qed.

Lemma switchInv_step e s s' : step e s = Some s' -> switchInv s -> switchInv s'.
Proof.
  intros Hs Hinv. destruct e; simpl in Hs; unfold once in Hs;
    try (case_bool_decide; [|discriminate]);
    try (case_match; [|discriminate]); injection Hs as <-.
  - eapply switchInv_junkState; [|exact Hinv]. unfold onReady. junk_neutral.
    by apply junkState_consume.
  - eapply switchInv_junkState; [|exact Hinv]. rewrite junkState_onInboxOpened.
    by apply junkState_consume.
  - eapply switchInv_junkState; [|exact Hinv]. apply junkState_checkMail.
  - eapply switchInv_junkState; [|exact Hinv]. rewrite junkState_onSearch.
    by apply junkState_consume.
  - apply switchInv_onFallback.
    eapply switchInv_junkState; [|exact Hinv]. by apply junkState_consume.
  - eapply switchInv_junkState; [|exact Hinv]. apply junkState_onHeader.
  - eapply switchInv_junkState; [|exact Hinv]. unfold onFetchError. junk_neutral.
  - eapply switchInv_junkState; [|exact Hinv]. apply junkState_onFull.
  - eapply switchInv_junkState; [|exact Hinv]. unfold onFullError. junk_neutral.
  - by apply switchInv_onBoxes.
  - by apply switchInv_onBoxClosed.
  - by apply switchInv_onJunkOpened.
  - eapply switchInv_junkState; [|exact Hinv]. unfold onError. junk_neutral.
    by apply junkState_consume.
  - eapply switchInv_junkState; [|exact Hinv]. unfold onEnd. junk_neutral.
    by apply junkState_consume.
  - eapply switchInv_junkState; [|exact Hinv]. junk_neutral.
Qed.

Lemma switchInv_run es : forall s s', run es s = Some s' -> switchInv s -> switchInv s'.
Proof.
  induction es as [|e es IH]; simpl; intros s s' Hr Hinv.
  - by injection Hr as <-.
  - destruct (step e s) as [s1|] eqn:Hs; [|discriminate].
    eapply IH; [exact Hr|]. by eapply switchInv_step.
Qed.

Lemma switchInv_initial : switchInv initial.
Proof. unfold switchInv. cbn. lia. Qed.

(** The only callback that sets [junkBoxChecked] is the one of a fallback
    search that found nothing after 30 s in INBOX. *)
Lemma junkBoxChecked_step e s s' :
  step e s = Some s' -> junkBoxChecked s = false ->
  junkBoxChecked s' = false \/
  (junkBoxChecked s' = true /\ sent s' = sent s ++ [CmdGetBoxes] /\
   exists err results now,
     e = EvFallback err results now /\ fallbackEmpty err results = true /\
     currentBox s = Some INBOX /\ isResolved s = false /\
     (30000 < now - startTime)%Z).
Proof.
  intros Hs Hj.
  assert (forall s0, junkState s0 = junkState s -> junkBoxChecked s0 = false) as Hn.
  { intros s0 H0. by rewrite (junkBoxChecked_junkState _ _ H0). }
  destruct e; simpl in Hs; unfold once in Hs;
    try (case_bool_decide; [|discriminate]);
    try (case_match; [|discriminate]); injection Hs as <-.
  - left. apply Hn. unfold onReady. junk_neutral. by apply junkState_consume.
  - left. apply Hn. rewrite junkState_onInboxOpened. by apply junkState_consume.
  - left. apply Hn. apply junkState_checkMail.
  - left. apply Hn. rewrite junkState_onSearch. by apply junkState_consume.
  - unfold onFallback, switchToNextBox. fold (fallbackEmpty err results).
    cbn [currentBox junkBoxChecked isResolved say set_logs set_pending].
    rewrite Hj. cbn [negb].
    destruct (fallbackEmpty err results) eqn:He.
    + destruct (bool_decide (currentBox s = Some INBOX)) eqn:Hb; cbn [andb]; [|by left].
      apply bool_decide_eq_true_1 in Hb.
      destruct (30000 <? now - startTime)%Z eqn:Ht; [|by left].
      apply Z.ltb_lt in Ht.
      destruct (isResolved s) eqn:Hr; cbn [orb]; [by left|].
      right. split; [reflexivity|]. split; [reflexivity|].
      exists err, results, now. auto.
    + left. apply Hn. rewrite junkState_processSearchResults. junk_neutral.
      by apply junkState_consume.
  - left. apply Hn. apply junkState_onHeader.
  - left. apply Hn. unfold onFetchError. junk_neutral.
  - left. apply Hn. apply junkState_onFull.
  - left. apply Hn. unfold onFullError. junk_neutral.
  - left. unfold onBoxes. repeat case_match; simplify_eq; exact Hj.
  - left. unfold onBoxClosed. repeat case_match; exact Hj.
  - left. unfold onJunkOpened. destruct err; [exact Hj|].
    by rewrite (junkBoxChecked_junkState _ _ (junkState_checkMail _ _)).
  - left. apply Hn. unfold onError. junk_neutral. by apply junkState_consume.
  - left. apply Hn. unfold onEnd. junk_neutral. by apply junkState_consume.
  - left. exact Hj.
Qed.

Lemma onFallback_switches err results now s :
  fallbackEmpty err results = true -> currentBox s = Some INBOX ->
  junkBoxChecked s = false -> isResolved s = false ->
  (30000 < now - startTime)%Z ->
  let s' := onFallback err results now s in
  junkBoxChecked s' = true /\ sent s' = sent s ++ [CmdGetBoxes] /\
  pending s' = pending s ++ [OnBoxes].
Proof.
  intros He Hb Hj Hr Ht. unfold onFallback, switchToNextBox.
  fold (fallbackEmpty err results). rewrite He.
  cbn [currentBox junkBoxChecked isResolved say set_logs].
  rewrite Hb, Hj, Hr. apply Z.ltb_lt in Ht. rewrite Ht.
  rewrite bool_decide_eq_true_2 by done. cbn. auto.
Qed.

(** C3 (as amended).  The switch is attempted by one callback only: that of
    a fallback search which failed or came back empty (so the UNSEEN search
    before it came back empty too), when the current mailbox is INBOX, more
    than 30 s have passed since the start, the session is not resolved and
    no switch was attempted before; in that case it is attempted.  Along
    any run it is attempted at most once, and the mailbox is closed and
    the current mailbox replaced at most once. *)
Theorem junk_switch_once es s :
  run es initial = Some s ->
  attempts s <= 1 /\ closes s <= 1 /\ hops s <= 1 /\
  (junkBoxChecked s = true <-> attempts s = 1) /\
  (forall err results now,
     OnFallback ∈ pending s ->
     fallbackEmpty err results = true -> currentBox s = Some INBOX ->
     junkBoxChecked s = false -> isResolved s = false ->
     (30000 < now - startTime)%Z ->
     exists s', step (EvFallback err results now) s = Some s' /\
                junkBoxChecked s' = true /\ sent s' = sent s ++ [CmdGetBoxes]) /\
  (forall e s',
     step e s = Some s' -> junkBoxChecked s = false -> junkBoxChecked s' = true ->
     exists err results now,
       e = EvFallback err results now /\ fallbackEmpty err results = true /\
       currentBox s = Some INBOX /\ isResolved s = false /\
       (30000 < now - startTime)%Z).
Proof.
  intros Hrun.
  pose proof (switchInv_run _ _ _ Hrun switchInv_initial) as (Ha & Hc & Hh).
  assert (attempts s <= 1) as Hle by (rewrite Ha; destruct (junkBoxChecked s); lia).
  split; [exact Hle|]. split; [lia|]. split; [lia|]. split; [|split].
  - rewrite Ha. destruct (junkBoxChecked s); split; done.
  - intros err results now Hin He Hb Hj Hr Ht.
    eexists. split; [simpl; unfold once; by rewrite bool_decide_eq_true_2|].
    destruct (onFallback_switches err results now
                (set_pending (consume OnFallback (pending s)) s)) as (H1 & H2 & _);
      auto.
  - intros e s' Hs Hj Hj'.
    destruct (junkBoxChecked_step _ _ _ Hs Hj) as [Hn|(_ & _ & H)]; [congruence|exact H].
Qed.

(** ** The recipient check *)

Lemma elem_of_consume (c x : Callback) l : x ∈ consume c l -> x ∈ l.
Proof.
  induction l as [|y l IH]; simpl; [done|].
  destruct (decide (y = c)).
  - intros Hx. by apply list_elem_of_further.
  - intros Hx. apply elem_of_cons in Hx as [->|Hx];
      [apply list_elem_of_here|apply list_elem_of_further; auto].
Qed.

Lemma pending_cleanup s : pending (cleanup s) = pending s.
Proof. unfold cleanup. destruct (checkInterval s); cbn; by destruct (imapState s). Qed.

Lemma pending_finish l o s : pending (finish l o s) = pending s.
Proof.
  unfold finish. destruct (isResolved (cleanup s)); [apply pending_cleanup|].
  destruct l, o; cbn; apply pending_cleanup.
Qed.

Lemma pending_processHtml parsed to s : pending (snd (processHtml parsed to s)) = pending s.
Proof. unfold processHtml. repeat case_match; cbn; rewrite ?pending_finish; done. Qed.

Lemma pending_processEmail parsed emailId now s :
  pending (snd (processEmail parsed emailId now s)) = pending s.
Proof.
  unfold processEmail.
  repeat case_match; cbn; rewrite ?pending_finish, ?pending_processHtml; done.
Qed.

Lemma isTargetEmail_false to :
  includes (toLowerCase to) (toLowerCase targetEmail) = false ->
  includes (toLowerCase to) (toLowerCase emailDomain) = false ->
  isTargetEmail to = false.
Proof. unfold isTargetEmail. by intros -> ->. Qed.

(** A header whose recipient field does not name the target only marks the
    message seen (after one or two log lines). *)
Lemma onHeader_other_recipient err emailId parsed now s :
  isTargetEmail (orEmpty (p_to parsed)) = false ->
  let s' := onHeader err emailId parsed now s in
  settled s' = settled s /\ isResolved s' = isResolved s /\
  sent s' = sent s /\ pending s' = pending s /\
  (err = false -> noId emailId = false -> isResolved s = false ->
   default 0%N emailId ∈ processedEmails s').
Proof.
  intros Ht. unfold onHeader. rewrite Ht. cbn [negb].
  destruct (err || noId emailId || isResolved s) eqn:Hg.
  - repeat split; try done. intros -> Hid Hr. by rewrite Hid, Hr in Hg.
  - repeat case_match;
      cbn [settled isResolved sent pending processedEmails add say
           set_processedEmails set_logs];
      repeat split; auto; intros; apply elem_of_union; left; by apply elem_of_singleton.
Qed.

(** No full fetch is pending for a message whose header never passed the
    recipient check. *)
Lemma no_full_fetch_step id e s s' :
  otherRecipient id e -> step e s = Some s' ->
  OnFull id ∉ pending s -> OnFull id ∉ pending s'.
Proof.
  intros He Hs Hno Hin. apply Hno. clear Hno.
  destruct e; simpl in Hs; unfold once in Hs;
    try (case_bool_decide; [|discriminate]);
    try (case_match; [|discriminate]); injection Hs as <-.
  - unfold onReady in Hin. cbn in Hin.
    apply elem_of_app in Hin as [Hin|Hin]; [exact (elem_of_consume _ _ _ Hin)|].
    by apply list_elem_of_singleton in Hin.
  - unfold onInboxOpened, checkMail in Hin.
    repeat case_match; cbn in Hin; rewrite ?pending_finish in Hin; cbn in Hin;
      rewrite ?elem_of_app, ?list_elem_of_singleton in Hin;
      try (exact (elem_of_consume _ _ _ Hin));
      (destruct Hin as [Hin|Hin]; [exact (elem_of_consume _ _ _ Hin)|done]).
  - unfold checkMail in Hin.
    repeat case_match; cbn in Hin; rewrite ?pending_finish in Hin; try done.
    apply elem_of_app in Hin as [Hin|Hin]; [done|].
    by apply list_elem_of_singleton in Hin.
  - unfold onSearch, processSearchResults in Hin.
    repeat case_match; cbn in Hin;
      rewrite ?elem_of_app, ?list_elem_of_singleton in Hin;
      try (exact (elem_of_consume _ _ _ Hin));
      (destruct Hin as [Hin|Hin]; [exact (elem_of_consume _ _ _ Hin)|done]).
  - unfold onFallback, switchToNextBox, processSearchResults in Hin.
    repeat case_match; cbn in Hin;
      rewrite ?elem_of_app, ?list_elem_of_singleton in Hin;
      try (exact (elem_of_consume _ _ _ Hin));
      (destruct Hin as [Hin|Hin]; [exact (elem_of_consume _ _ _ Hin)|done]).
  - unfold onHeader in Hin.
    destruct (err || noId emailId || isResolved s) eqn:Hg; [done|].
    apply orb_false_elim in Hg as [Hg _]. apply orb_false_elim in Hg as [_ Hid].
    destruct emailId as [id'|]; [|discriminate Hid]. cbn [default] in Hin.
    destruct (exceeds _ _); [exact Hin|].
    destruct (negb (isWindsurf _ _)); [exact Hin|].
    destruct (isTargetEmail (orEmpty (p_to parsed))) eqn:Ht; cbn [negb] in Hin;
      [|exact Hin].
    destruct (subjectMatch _); [by rewrite pending_finish in Hin|].
    cbn in Hin. apply elem_of_app in Hin as [Hin|Hin]; [done|].
    apply list_elem_of_singleton in Hin. injection Hin as ->.
    destruct (He eq_refl) as [H1 H2].
    by rewrite (isTargetEmail_false _ H1 H2) in Ht.
  - exact Hin.
  - unfold onFull in Hin. repeat case_match; rewrite ?pending_processEmail in Hin; done.
  - exact Hin.
  - unfold onBoxes in Hin.
    repeat case_match; simplify_eq; cbn in Hin;
      rewrite ?elem_of_app, ?list_elem_of_singleton in Hin;
      try (exact (elem_of_consume _ _ _ Hin));
      (destruct Hin as [Hin|Hin]; [exact (elem_of_consume _ _ _ Hin)|done]).
  - unfold onBoxClosed in Hin.
    repeat case_match; cbn in Hin;
      rewrite ?elem_of_app, ?list_elem_of_singleton in Hin;
      (destruct Hin as [Hin|Hin]; [exact (elem_of_consume _ _ _ Hin)|done]).
  - unfold onJunkOpened, checkMail in Hin.
    repeat case_match; cbn in Hin; rewrite ?pending_finish in Hin; cbn in Hin;
      rewrite ?elem_of_app, ?list_elem_of_singleton in Hin;
      try (exact (elem_of_consume _ _ _ Hin));
      (destruct Hin as [Hin|Hin]; [exact (elem_of_consume _ _ _ Hin)|done]).
  - unfold onError in Hin. rewrite pending_finish in Hin. cbn in Hin.
    exact (elem_of_consume _ _ _ Hin).
  - unfold onEnd in Hin. cbn in Hin. rewrite pending_cleanup in Hin. cbn in Hin.
    exact (elem_of_consume _ _ _ Hin).
  - exact Hin.
Qed.

Lemma no_full_fetch_run id es : forall s s',
  Forall (otherRecipient id) es -> run es s = Some s' ->
  OnFull id ∉ pending s -> OnFull id ∉ pending s'.
Proof.
  induction es as [|e es IH]; simpl; intros s s' Hes Hr Hno.
  - by injection Hr as <-.
  - destruct (step e s) as [s1|] eqn:Hs; [|discriminate].
    apply Forall_cons in Hes as [He Hes].
    eapply IH; [exact Hes|exact Hr|]. by eapply no_full_fetch_step.
Qed.

Lemma settled_cleanup s : settled (cleanup s) = settled s.
Proof. unfold cleanup. destruct (checkInterval s); cbn; by destruct (imapState s). Qed.

Lemma isResolved_cleanup s : isResolved (cleanup s) = isResolved s.
Proof. unfold cleanup. destruct (checkInterval s); cbn; by destruct (imapState s). Qed.

(** [processEmail] with a body: when the subject has no code, the recipient
    field does not contain the target address and the body contains, in
    lower case, neither the address nor its part before the [@], the
    message is given up. *)
Lemma processEmail_other_recipient parsed emailId now s body :
  subjectMatch (orEmpty (p_subject parsed)) = None ->
  (truthy (p_text parsed) = true /\ p_text parsed = Some body \/
   truthy (p_text parsed) = false /\ truthy (p_html parsed) = true /\
   p_html parsed = Some body) ->
  includes (orEmpty (p_to parsed)) targetEmail = false ->
  includes (toLowerCase body) (toLowerCase targetEmail) = false ->
  includes (toLowerCase body) (toLowerCase emailDomain) = false ->
  let r := processEmail parsed emailId now s in
  fst r = false /\ settled (snd r) = settled s /\ isResolved (snd r) = isResolved s /\
  sent (snd r) = sent s.
Proof.
  intros Hsm Hbody H1 H2 H3.
  assert (isTargetEmailBody (orEmpty (p_to parsed)) body = false) as Hb
    by (unfold isTargetEmailBody; by rewrite H1, H2, H3).
  unfold processEmail. rewrite Hsm.
  destruct (isResolved s || has emailId s); [done|].
  destruct (exceeds _ _); [done|].
  destruct (negb (isWindsurfEmail _ _)); [done|].
  destruct Hbody as [[Ht Hp]|(Ht & Hh & Hp)]; rewrite Ht.
  - rewrite Hp. cbn [orEmpty]. by rewrite Hb.
  - unfold processHtml. rewrite Hh, Hp. cbn [orEmpty]. by rewrite Hb.
Qed.

(** C6.  Take a message whose recipient field, compared in lower case,
    contains neither the target address nor its part before the [@].
    Along any run in which the header callbacks of that message carry such
    a field, no full fetch of the message is ever awaited, so its
    full-body callback cannot fire; and its header callback only marks it
    seen: no outcome, no command, no new callback.  [processEmail] applies
    the check to the body too: with no code in the subject, a recipient
    field without the target address and a body without the address and
    its first part, it returns [false] and settles nothing. *)
Theorem other_recipient_never_resolves id es s :
  Forall (otherRecipient id) es ->
  run es initial = Some s ->
  (forall err fullParsed now, step (EvFull id err fullParsed now) s = None) /\
  (forall err parsed now s',
     includes (toLowerCase (orEmpty (p_to parsed))) (toLowerCase targetEmail) = false ->
     includes (toLowerCase (orEmpty (p_to parsed))) (toLowerCase emailDomain) = false ->
     step (EvHeader err (Some id) parsed now) s = Some s' ->
     settled s' = settled s /\ isResolved s' = isResolved s /\
     sent s' = sent s /\ pending s' = pending s /\
     (err = false -> id <> 0%N -> isResolved s = false -> id ∈ processedEmails s')) /\
  (forall parsed emailId now s0 body,
     subjectMatch (orEmpty (p_subject parsed)) = None ->
     (truthy (p_text parsed) = true /\ p_text parsed = Some body \/
      truthy (p_text parsed) = false /\ truthy (p_html parsed) = true /\
      p_html parsed = Some body) ->
     includes (orEmpty (p_to parsed)) targetEmail = false ->
     includes (toLowerCase body) (toLowerCase targetEmail) = false ->
     includes (toLowerCase body) (toLowerCase emailDomain) = false ->
     let r := processEmail parsed emailId now s0 in
     fst r = false /\ settled (snd r) = settled s0 /\
     isResolved (snd r) = isResolved s0 /\ sent (snd r) = sent s0).
Proof.
  intros Hes Hrun. split; [|split].
  - intros err fullParsed now. simpl.
    rewrite bool_decide_eq_false_2; [done|].
    eapply no_full_fetch_run; [exact Hes|exact Hrun|].
    cbn. intros Hin. repeat (apply elem_of_cons in Hin as [Hin|Hin]; [done|]).
    by apply elem_of_nil in Hin.
  - intros err parsed now s' H1 H2 Hs. simpl in Hs.
    case_match; [|discriminate]. injection Hs as <-.
    destruct (onHeader_other_recipient err (Some id) parsed now s
                (isTargetEmail_false _ H1 H2)) as (Ha & Hb & Hc & Hd & He).
    repeat split; try done. intros Herr Hid Hr. apply He; try done.
    cbn. by apply N.eqb_neq.
  - intros parsed emailId now s0 body. apply processEmail_other_recipient.
Qed.

(** * Further properties *)

(** ** The shape of a captured code *)

Lemma mtch_Star ci g a st k :
  mtch ci (Star g a) st k = starLoop ci a g k (S (length (m_rest st))) st.
Proof. reflexivity. Qed.

Lemma advanced_refl st : advanced st st.
Proof. exists []. split; [done|]. simpl. lia. Qed.

Lemma advanced_trans st1 st2 st3 : advanced st1 st2 -> advanced st2 st3 -> advanced st1 st3.
Proof.
  intros (c1 & H1 & P1) (c2 & H2 & P2). exists (c1 ++ c2).
  split; [by rewrite H1, H2, app_assoc|]. rewrite length_app. lia.
Qed.

Lemma advanced_one st c tl : m_rest st = c :: tl -> advanced st (advance st tl).
Proof. intros H. exists [c]. split; [done|]. simpl. lia. Qed.

(** A successful match ran its continuation on a state further on in the
    input; a pattern without a group hands the capture on unchanged. *)
Lemma mtch_inv ci r : forall st k res,
  mtch ci r st k = Some res ->
  exists st', advanced st st' /\ k st' = Some res /\
              (hasGroup r = false -> m_cap st' = m_cap st).
Proof.
  induction r as [|neg items| |a IHa b IHb|a IHa b IHb|g a IHa|a IHa| | |a IHa];
    intros st k res H;
    try match goal with
        | H : mtch _ (Star _ _) _ _ = _ |- _ => idtac
        | _ => cbn [mtch hasGroup] in *
        end.
  - exists st. split; [apply advanced_refl|split; [done|done]].
  - destruct (m_rest st) as [|c tl] eqn:Hr; [discriminate|].
    destruct (xorb neg (in_items ci items c)); [|discriminate].
    exists (advance st tl). split; [by apply (advanced_one st c)|split; [done|done]].
  - destruct (m_rest st) as [|c tl] eqn:Hr; [discriminate|].
    destruct (isLineTerminator c); [discriminate|].
    exists (advance st tl). split; [by apply (advanced_one st c)|split; [done|done]].
  - apply IHa in H as (st1 & A1 & H1 & C1).
    apply IHb in H1 as (st2 & A2 & H2 & C2).
    exists st2. split; [by eapply advanced_trans|]. split; [done|].
    intros Hg. apply orb_false_elim in Hg as [Ga Gb]. by rewrite (C2 Gb), (C1 Ga).
  - destruct (mtch ci a st k) as [res'|] eqn:Ha.
    + injection H as <-. apply IHa in Ha as (st1 & A1 & H1 & C1).
      exists st1. split; [done|]. split; [done|].
      intros Hg. apply orb_false_elim in Hg as [Ga Gb]. auto.
    + apply IHb in H as (st1 & A1 & H1 & C1).
      exists st1. split; [done|]. split; [done|].
      intros Hg. apply orb_false_elim in Hg as [Ga Gb]. auto.
  - rewrite mtch_Star in H. revert H. generalize (S (length (m_rest st))).
    intros fuel. revert st.
    induction fuel as [|fuel IHf]; intros st H; cbn [hasGroup] in *; [|change (starLoop ci a g k (S fuel) st) with
        (let again := mtch ci a st (fun st' =>
            if length (m_rest st') <? length (m_rest st)
            then starLoop ci a g k fuel st' else None) in
         if g then match again with Some res => Some res | None => k st end
         else match k st with Some res => Some res | None => again end) in H;
       cbn zeta in H].
    + exists st. split; [apply advanced_refl|split; [exact H|done]].
    + assert (Hagain :
        mtch ci a st (fun st' =>
          if length (m_rest st') <? length (m_rest st)
          then starLoop ci a g k fuel st' else None) = Some res ->
        exists st', advanced st st' /\ k st' = Some res /\
                    (hasGroup a = false -> m_cap st' = m_cap st)).
      { intros Hm. apply IHa in Hm as (st1 & A1 & H1 & C1).
        destruct (length (m_rest st1) <? length (m_rest st)); [|discriminate].
        apply IHf in H1 as (st2 & A2 & H2 & C2).
        exists st2. split; [by eapply advanced_trans|]. split; [done|].
        intros Hg. by rewrite (C2 Hg), (C1 Hg). }
      destruct g.
      * destruct (mtch ci a st _) as [res'|] eqn:Hm.
        -- injection H as ->. by apply Hagain.
        -- exists st. split; [apply advanced_refl|split; [exact H|done]].
      * destruct (k st) as [res'|] eqn:Hk.
        -- injection H as ->. exists st. split; [apply advanced_refl|split; [exact Hk|done]].
        -- by apply Hagain.
  - apply IHa in H as (st1 & A1 & H1 & C1).
    exists (closeGroup st st1). split; [|split; [done|discriminate]].
    destruct A1 as (c & Hc & Hp). exists c. by split.
  - destruct (m_pos st =? 0); [|discriminate]. exists st. split; [apply advanced_refl|split; [done|done]].
  - destruct (m_rest st); [|discriminate]. exists st. split; [apply advanced_refl|split; [done|done]].
  - destruct (mtch ci a st Some); [discriminate|]. exists st. split; [apply advanced_refl|split; [done|done]].
Qed.

Lemma forallb_xorb_false (p : N -> bool) l :
  forallb (fun c => xorb false (p c)) l = forallb p l.
Proof. induction l as [|c l IH]; [done|]. simpl. simpl in IH. by rewrite IH. Qed.

Lemma mtch_code_group ci cls post st res :
  hasGroup post = false ->
  mtch ci (Seq (Group (Times 6 (Cls false cls))) post) st Some = Some res ->
  exists code after,
    m_rest st = code ++ after /\ length code = 6 /\
    forallb (in_items ci cls) code = true /\ m_cap res = Some code.
Proof.
  intros Hpost H. rewrite mtch_Seq in H. cbn [mtch] in H.
  rewrite mtch_Times_Cls in H.
  destruct (6 <=? length (m_rest st)) eqn:Hlen; [|discriminate].
  rewrite forallb_xorb_false in H.
  destruct (forallb (in_items ci cls) (take 6 (m_rest st))) eqn:Hall; [|discriminate].
  cbn [andb] in H. apply mtch_inv in H as (st' & _ & Hres & Hcap).
  injection Hres as <-. apply Nat.leb_le in Hlen.
  exists (take 6 (m_rest st)), (drop 6 (m_rest st)).
  split; [by rewrite take_drop|]. split; [rewrite length_take; lia|]. split; [done|].
  rewrite (Hcap Hpost). unfold closeGroup. cbn [m_cap m_pos].
  by replace (m_pos st + 6 - m_pos st) with 6 by lia.
Qed.

Lemma mtch_code ci r : forall cls st res,
  codeClass r = Some cls -> mtch ci r st Some = Some res ->
  exists st1 code after,
    advanced st st1 /\ m_rest st1 = code ++ after /\ length code = 6 /\
    forallb (in_items ci cls) code = true /\ m_cap res = Some code.
Proof.
  induction r as [|neg items| |a _ rest IH|a _ b _|g a _|a _| | |a _];
    intros cls st res Hc H; try discriminate Hc.
  assert (Hskip : codeClass rest = Some cls ->
    exists st1 code after,
      advanced st st1 /\ m_rest st1 = code ++ after /\ length code = 6 /\
      forallb (in_items ci cls) code = true /\ m_cap res = Some code).
  { intros Hc'. rewrite mtch_Seq in H. apply mtch_inv in H as (st0 & A0 & H0 & _).
    destruct (IH _ _ _ Hc' H0) as (st1 & code & after & A1 & Hrest).
    exists st1, code, after. split; [by eapply advanced_trans|done]. }
  cbn [codeClass] in Hc.
  destruct a as [|neg items| |a1 a2|a1 a2|g a1|a1| | |a1]; try (by apply Hskip).
  destruct a1 as [|neg items| |b1 b2|b1 b2|g b1|b1| | |b1]; try (by apply Hskip).
  destruct b1 as [|neg items| |c1 c2|c1 c2|g c1|c1| | |c1]; try (by apply Hskip).
  destruct neg; [by apply Hskip|].
  destruct (bool_decide _ && negb (hasGroup rest)) eqn:Hd; [|by apply Hskip].
  apply andb_true_iff in Hd as [Heq Hpost].
  apply bool_decide_eq_true_1 in Heq. apply negb_true_iff in Hpost.
  injection Hc as <-. rewrite Heq in H.
  destruct (mtch_code_group _ _ _ _ _ Hpost H) as (code & after & Hrest).
  exists st, code, after. split; [apply advanced_refl|done].
Qed.

Lemma exec_from_inv ci r rest : forall pos m,
  exec_from ci r pos rest = Some m ->
  exists skipped rest' st,
    rest = skipped ++ rest' /\
    mtch ci r (MState (pos + length skipped) rest' None) Some = Some st /\
    m = MkMatch (pos + length skipped) (m_pos st) (m_cap st).
Proof.
  induction rest as [|c tl IH]; intros pos m H; cbn [exec_from] in H.
  - destruct (mtch ci r _ Some) as [st|] eqn:Hm; [|discriminate].
    injection H as <-. exists [], [], st. cbn [length]. rewrite Nat.add_0_r. auto.
  - destruct (mtch ci r _ Some) as [st|] eqn:Hm.
    + injection H as <-. exists [], (c :: tl), st. cbn [length]. rewrite Nat.add_0_r. auto.
    + apply IH in H as (skipped & rest' & st & -> & Hm' & ->).
      exists (c :: skipped), rest', st. cbn [length].
      replace (pos + S (length skipped)) with (S pos + length skipped) by lia. auto.
Qed.

Lemma str_match_code p text m cls :
  codeClass (p_re p) = Some cls ->
  str_match p text = Some m ->
  exists code before after,
    group1 m = Some code /\ text = before ++ code ++ after /\ length code = 6 /\
    forallb (in_items (p_ci p) cls) code = true.
Proof.
  intros Hc Hm. unfold str_match in Hm.
  apply exec_from_inv in Hm as (skipped & rest' & st & -> & Hm & ->).
  destruct (mtch_code _ _ _ _ _ Hc Hm) as (st1 & code & after & (consumed & Hcons & _) & Hrest & Hlen & Hall & Hcap).
  cbn [m_rest] in Hcons. exists code, (skipped ++ consumed), after.
  split; [exact Hcap|]. split; [|done].
  by rewrite Hcons, Hrest, <- app_assoc.
Qed.

Lemma inRange_spec lo hi c : inRange lo hi c = true <-> (lo <= c <= hi)%N.
Proof. unfold inRange. rewrite andb_true_iff, !N.leb_le. done. Qed.

Lemma upperLatin_range lo hi c :
  (hi < 97)%N -> inRange lo hi (upperLatin c) = true ->
  inRange lo hi c = true \/ inRange 97 122 c = true /\ (lo <= c - 32 <= hi)%N.
Proof.
  unfold upperLatin. destruct (inRange 97 122 c) eqn:Hl; intros Hhi H; [|by left].
  right. split; [done|]. by apply inRange_spec.
Qed.

Lemma lowerLatin_range lo hi c :
  inRange lo hi (lowerLatin c) = true ->
  inRange lo hi c = true \/ inRange 65 90 c = true /\ (lo <= c + 32 <= hi)%N.
Proof.
  unfold lowerLatin. destruct (inRange 65 90 c) eqn:Hl; intros H; [|by left].
  right. split; [done|]. by apply inRange_spec.
Qed.

(** Under the [i] flag or without it, [\d], [[0-9]] and [[A-Z0-9]] accept
    digits and Basic Latin letters only. *)
Lemma class_digit ci c : in_items ci [CDigit] c = true -> isCodeChar c = true.
Proof.
  unfold in_items, isCodeChar. cbn [existsb in_item]. rewrite orb_false_r.
  intros ->. done.
Qed.

Lemma range_digits ci c :
  inRange 48 57 c || ci && (inRange 48 57 (upperLatin c) || inRange 48 57 (lowerLatin c))
  = true -> isDigit c = true.
Proof.
  unfold isDigit. intros H.
  apply orb_true_iff in H as [H|H]; [done|].
  apply andb_true_iff in H as [_ H]. apply orb_true_iff in H as [H|H].
  - apply upperLatin_range in H as [H|[Hl H]]; [done| |lia].
    apply inRange_spec in Hl. lia.
  - apply lowerLatin_range in H as [H|[Hl H]]; [done|].
    apply inRange_spec in Hl. lia.
Qed.

Lemma range_letters ci c :
  inRange 65 90 c || ci && (inRange 65 90 (upperLatin c) || inRange 65 90 (lowerLatin c))
  = true -> inRange 65 90 c || inRange 97 122 c = true.
Proof.
  intros H. apply orb_true_iff in H as [H|H]; [by rewrite H|].
  apply andb_true_iff in H as [_ H]. apply orb_true_iff in H as [H|H].
  - apply upperLatin_range in H as [H|[Hl H]]; [by rewrite H| |lia].
    by rewrite Hl, orb_true_r.
  - apply lowerLatin_range in H as [H|[Hl H]]; [by rewrite H|].
    by rewrite Hl.
Qed.

Lemma class_d09 ci c : in_items ci [CRange 48 57] c = true -> isCodeChar c = true.
Proof.
  unfold in_items, isCodeChar. cbn [existsb in_item]. rewrite orb_false_r.
  intros H. by rewrite (range_digits _ _ H).
Qed.

Lemma class_alnum ci c :
  in_items ci [CRange 65 90; CRange 48 57] c = true -> isCodeChar c = true.
Proof.
  unfold in_items, isCodeChar. cbn [existsb in_item]. rewrite orb_false_r.
  intros H. apply orb_true_iff in H as [H|H].
  - apply range_letters in H. rewrite <- orb_assoc, H. apply orb_true_r.
  - by rewrite (range_digits _ _ H).
Qed.

Lemma forallb_impl (p q : N -> bool) l :
  (forall c, p c = true -> q c = true) -> forallb p l = true -> forallb q l = true.
Proof.
  intros Hpq. induction l as [|c l IH]; [done|]. cbn [forallb].
  intros H. apply andb_true_iff in H as [Hc Hl]. by rewrite (Hpq _ Hc), IH.
Qed.

(** Every pattern of the table captures six characters of one of these
    classes, and nothing after its group captures again. *)
Lemma patterns_codeClass p :
  p ∈ patterns ->
  exists cls, codeClass (p_re p) = Some cls /\
              forall c, in_items (p_ci p) cls c = true -> isCodeChar c = true.
Proof.
  unfold patterns. intros Hp.
  repeat (apply elem_of_cons in Hp as [->|Hp];
          [eexists; split; [vm_compute; reflexivity|];
           first [apply class_digit|apply class_alnum|apply class_d09]|]).
  by apply elem_of_nil in Hp.
Qed.

Lemma subjectPattern_codeClass : codeClass (p_re subjectPattern) = Some [CRange 48 57].
Proof. vm_compute. reflexivity. Qed.

(** A match of the cascade captures six consecutive code characters of
    the text. *)
Lemma cascade_captures text m :
  cascade patterns text = Some m ->
  exists code before after,
    group1 m = Some code /\ text = before ++ code ++ after /\
    length code = 6 /\ forallb isCodeChar code = true.
Proof.
  intros Hc. apply cascade_Some in Hc as (i & (p & Hp & Hm) & _).
  apply list_elem_of_lookup_2 in Hp.
  destruct (patterns_codeClass p Hp) as (cls & Hcls & Hchars).
  destruct (str_match_code p text m cls Hcls Hm)
    as (code & before & after & Hg & Ht & Hlen & Hall).
  exists code, before, after. repeat split; try done.
  by eapply forallb_impl.
Qed.

(** X1.  Whatever the cascade returns has a capture, and the capture is
    six consecutive characters of the text, each a digit or a Basic Latin
    letter.  A text of fewer than six characters therefore has no code. *)
Theorem cascade_code_shape text :
  (forall m, cascade patterns text = Some m ->
     exists code before after,
       group1 m = Some code /\ text = before ++ code ++ after /\
       length code = 6 /\ forallb isCodeChar code = true) /\
  (length text < 6 -> cascade patterns text = None).
Proof.
  split; [apply cascade_captures|].
  intros Hshort. destruct (cascade patterns text) as [m|] eqn:Hc; [|done].
  destruct (cascade_captures _ _ Hc) as (code & before & after & _ & Ht & Hlen & _).
  rewrite Ht, !length_app in Hshort. lia.
Qed.

(** A match of the subject pattern is a flanked run of six digits. *)
Lemma subjectMatch_sound subject m :
  subjectMatch subject = Some m ->
  exists pre d post,
    subject = pre ++ d ++ post /\ group1 m = Some d /\
    sixDigits d = true /\ leftOk pre = true /\ rightOk post = true.
Proof.
  intros Hm. pose proof (subjectMatch_least subject) as Hl. unfold leastRun in Hl.
  rewrite Hm in Hl.
  destruct (leastFrom (runAt subject) 0 (S (length subject))) as [k|] eqn:Hk;
    [|discriminate Hl].
  injection Hl as Hg. apply leastFrom_Some in Hk as (_ & Hrun & _).
  destruct (runAt_split _ _ Hrun) as (Hs & _ & Hd & Hlo & Hro). eauto 10.
Qed.

Lemma sixDigits_code d :
  sixDigits d = true -> length d = 6 /\ forallb isCodeChar d = true.
Proof.
  intros Hd. split; [by apply sixDigits_length|].
  unfold sixDigits in Hd. apply andb_true_iff in Hd as [_ Hd].
  eapply forallb_impl; [|exact Hd]. intros c Hc. unfold isCodeChar. by rewrite Hc.
Qed.

(** X2.  The subject fast path is sound and complete: a match is a run of
    six digits of the subject that follows white space, a hyphen, a colon
    or the start and is followed by white space, a hyphen or the end; and
    there is no match exactly when the subject has no such run. *)
Theorem subjectMatch_flanked subject :
  (forall m, subjectMatch subject = Some m ->
     exists pre d post,
       subject = pre ++ d ++ post /\ group1 m = Some d /\
       sixDigits d = true /\ leftOk pre = true /\ rightOk post = true) /\
  (subjectMatch subject = None <->
   forall pre d post,
     subject = pre ++ d ++ post -> sixDigits d = true -> leftOk pre = true ->
     rightOk post = false).
Proof.
  pose proof (subjectMatch_least subject) as Hl. unfold leastRun in Hl.
  destruct (leastFrom (runAt subject) 0 (S (length subject))) as [k|] eqn:Hk.
  - apply leastFrom_Some in Hk as (_ & Hrun & _).
    destruct (runAt_split _ _ Hrun) as (Hs & _ & Hd & Hlo & Hro).
    destruct (subjectMatch subject) as [m|]; [|discriminate Hl].
    injection Hl as Hg. split.
    + intros m' [= <-]. eauto 10.
    + split; [discriminate|]. intros Hno.
      rewrite (Hno _ _ _ Hs Hd Hlo) in Hro. discriminate.
  - destruct (subjectMatch subject) as [m|]; [discriminate Hl|].
    split; [discriminate|]. split; [|done].
    intros _ pre d post Hs Hd Hlo.
    pose proof (leastFrom_None _ _ _ Hk (length pre)) as Hf.
    rewrite Hs, runAt_app, Hd, Hlo in Hf by (by apply sixDigits_length).
    cbn [andb] in Hf. apply Hf. rewrite length_app. lia.
Qed.

(** ** Where an outcome comes from *)

(** Reduces the fields of a session that was built by the setters. *)
Ltac fields :=
  cbn [isResolved settled sent pending logs checkInterval currentBox
       junkBoxChecked processedEmails imapState say send await add resolve reject
       set_isResolved set_logs set_settled set_sent set_pending
       set_processedEmails set_checkInterval set_currentBox set_junkBoxChecked
       set_imapState fst snd].

Ltac fields_in H :=
  cbn [isResolved settled sent pending logs checkInterval currentBox
       junkBoxChecked processedEmails imapState say send await add resolve reject
       set_isResolved set_logs set_settled set_sent set_pending
       set_processedEmails set_checkInterval set_currentBox set_junkBoxChecked
       set_imapState fst snd] in H.

Lemma settles_refl P s : settles P s s.
Proof. by left. Qed.

Lemma settles_same P s0 s : settled s = settled s0 -> settles P s0 s.
Proof. by left. Qed.

Lemma settles_after P s0 s1 s :
  settled s1 = settled s0 -> settles P s1 s -> settles P s0 s.
Proof. unfold settles. by intros ->. Qed.

Lemma settles_finish (P : Outcome -> Prop) l o s :
  P o -> settles P s (finish l o s).
Proof.
  intros Ho. unfold finish. rewrite isResolved_cleanup.
  destruct (isResolved s); [left; apply settled_cleanup|].
  right. exists o. split; [|exact Ho].
  destruct l, o; cbn; by rewrite settled_cleanup.
Qed.

Lemma truthy_Some o : truthy o = true -> o = Some (orEmpty o).
Proof. by destruct o as [[|]|]. Qed.

(** What [processEmail] returns tells whether it resolved the session. *)
Lemma processHtml_outcome parsed s :
  isResolved s = false ->
  let r := processHtml parsed (orEmpty (p_to parsed)) s in
  (fst r = false /\ settled (snd r) = settled s /\ isResolved (snd r) = false) \/
  (fst r = true /\ isResolved (snd r) = true /\
   exists m body,
     isTargetEmailBody (orEmpty (p_to parsed)) body = true /\
     p_html parsed = Some body /\
     (cascade patterns body = Some m \/ cascade patterns (cleanHtml body) = Some m) /\
     settled (snd r) = settled s ++ [Resolved (group1 m)]).
Proof.
  intros Hr. unfold processHtml.
  destruct (truthy (p_html parsed)) eqn:Hh; [|left; by fields].
  apply truthy_Some in Hh.
  destruct (isTargetEmailBody _ _) eqn:Ht; cbn [negb]; [|left; by fields].
  destruct (cascade patterns (orEmpty (p_html parsed))) as [m|] eqn:Hc.
  - right. cbn [fst snd]. unfold finish. rewrite isResolved_cleanup. fields. rewrite Hr.
    split; [done|]. split; [done|]. exists m, (orEmpty (p_html parsed)).
    fields. rewrite settled_cleanup. fields. auto 10.
  - destruct (cascade patterns (cleanHtml _)) as [m|] eqn:Hc'; [|left; by fields].
    right. cbn [fst snd]. unfold finish. rewrite isResolved_cleanup. fields. rewrite Hr.
    split; [done|]. split; [done|]. exists m, (orEmpty (p_html parsed)).
    fields. rewrite settled_cleanup. fields. auto 10.
Qed.

Lemma processEmail_outcome parsed emailId now s :
  isResolved s = false ->
  let r := processEmail parsed emailId now s in
  (fst r = false /\ settled (snd r) = settled s /\ isResolved (snd r) = false) \/
  (fst r = true /\ isResolved (snd r) = true /\ has emailId s = false /\
   exceeds (emailAge now (p_date parsed)) maxEmailAge = false /\
   isWindsurfEmail (orEmpty (p_subject parsed)) (orEmpty (p_from parsed)) = true /\
   exists m, extracted parsed m /\
             settled (snd r) = settled s ++ [Resolved (group1 m)]).
Proof.
  intros Hr. unfold processEmail. rewrite Hr. cbn [orb].
  destruct (has emailId s) eqn:Hh; [left; by fields|].
  destruct (exceeds _ _) eqn:Hage; [left; by fields|].
  destruct (isWindsurfEmail _ _) eqn:Hw; cbn [negb]; [|left; by fields].
  destruct (subjectMatch _) as [m|] eqn:Hsm.
  - right. cbn [fst snd]. unfold finish. rewrite isResolved_cleanup. fields. rewrite Hr.
    do 5 (split; [done|]). exists m. split; [by left|].
    fields. by rewrite settled_cleanup.
  - set (s1 := say LogSubjectNoCode _).
    assert (isResolved s1 = false) as Hr1 by done.
    assert (settled s1 = settled s) as Hs1 by done.
    assert (forall s2, isResolved s2 = false -> settled s2 = settled s ->
      let r := processHtml parsed (orEmpty (p_to parsed)) s2 in
      (fst r = false /\ settled (snd r) = settled s /\ isResolved (snd r) = false) \/
      (fst r = true /\ isResolved (snd r) = true /\ false = false /\
       false = false /\ true = true /\
       exists m, extracted parsed m /\
                 settled (snd r) = settled s ++ [Resolved (group1 m)])) as Hhtml.
    { intros s2 Hr2 Hs2. cbn zeta.
      destruct (processHtml_outcome parsed s2 Hr2) as [(H1 & H2 & H3)|(H1 & H2 & m & body & Hb & Hp & Hc & Hs)].
      - left. by rewrite <- Hs2.
      - right. do 5 (split; [done|]). exists m. rewrite <- Hs2. split; [|done].
        right. split; [done|]. exists body. split; [done|]. by right. }
    destruct (truthy (p_text parsed)) eqn:Ht; [|by apply Hhtml].
    apply truthy_Some in Ht.
    destruct (isTargetEmailBody _ _) eqn:Hb; cbn [negb]; [|left; by fields].
    destruct (cascade patterns (orEmpty (p_text parsed))) as [m|] eqn:Hc;
      [|by apply Hhtml].
    right. cbn [fst snd]. unfold finish. rewrite isResolved_cleanup. fields. rewrite Hr1.
    do 5 (split; [done|]). exists m. split.
    + right. split; [done|]. exists (orEmpty (p_text parsed)). split; [done|]. by left.
    + fields. rewrite settled_cleanup. fields. by rewrite Hs1.
Qed.

Lemma settles_checkMail now s :
  settles (fun o => o = Rejected TimeoutError /\ (maxWaitTime < now - startTime)%Z)
          s (checkMail now s).
Proof.
  unfold checkMail. destruct (isResolved s); [apply settles_refl|].
  destruct (maxWaitTime <? now - startTime)%Z eqn:Hd.
  - apply settles_finish. split; [done|]. by apply Z.ltb_lt.
  - destruct (currentBox s); by left.
Qed.

Lemma settled_processSearchResults results s :
  settled (processSearchResults results s) = settled s.
Proof. unfold processSearchResults. by case_match. Qed.

Lemma settled_switchToNextBox s : settled (switchToNextBox s) = settled s.
Proof. unfold switchToNextBox. by case_match. Qed.

(** Each turn of the event loop leaves the outcome alone or adds one that
    its event accounts for. *)
Lemma step_cause e s s' : step e s = Some s' -> settles (cause e) s s'.
Proof.
  intros Hs. destruct e; simpl in Hs; unfold once in Hs;
    try (case_bool_decide; [|discriminate]);
    try (case_match; [|discriminate]); injection Hs as <-.
  - by left.
  - unfold onInboxOpened. destruct err as [message|].
    + eapply settles_after; [|by apply settles_finish]. done.
    + cbn [cause]. set (s1 := say LogJunkHint _).
      destruct (settles_checkMail now s1) as [Hcm|(o & Hcm & Ho)]; [by left|].
      right. exists o. by split.
  - apply settles_checkMail.
  - left. unfold onSearch. repeat case_match; rewrite ?settled_processSearchResults; done.
  - left. unfold onFallback.
    repeat case_match;
      rewrite ?settled_processSearchResults, ?settled_switchToNextBox; done.
  - unfold onHeader. destruct err; [by left|].
    destruct (noId emailId) eqn:Hid; [by left|].
    destruct (false || false || isResolved s); [by left|].
    destruct (exceeds _ _) eqn:Hage; [by left|].
    destruct (isWindsurf _ _) eqn:Hw; cbn [negb]; [|by left].
    destruct (isTargetEmail _) eqn:Ht; cbn [negb]; [|by left].
    destruct (subjectMatch _) as [m|] eqn:Hsm; [|by left].
    eapply settles_after; [|apply settles_finish]; [done|].
    cbn [cause]. eauto 10.
  - by left.
  - unfold onFull. destruct err; [by left|]. cbn [orb].
    destruct (isResolved s) eqn:Hr; [by left|].
    set (s1 := if truthy (p_html fullParsed) && isGarbledText (p_html fullParsed)
               then say LogGarbled s else s).
    assert (isResolved s1 = false) as Hr1 by (unfold s1; by case_match).
    assert (settled s1 = settled s) as Hs1 by (unfold s1; by case_match).
    destruct (processEmail_outcome fullParsed emailId now s1 Hr1)
      as [(_ & Hpe & _)|(_ & _ & _ & Hage & Hw & m & Hm & Hpe)].
    + left. by rewrite Hpe.
    + right. exists (Resolved (group1 m)). rewrite Hpe, Hs1. split; [done|].
      cbn [cause]. eauto 10.
  - by left.
  - left. unfold onBoxes. repeat case_match; simplify_eq; done.
  - left. unfold onBoxClosed. by case_match.
  - unfold onJunkOpened. destruct err as [message|]; [by left|].
    cbn [cause]. set (s1 := say _ _).
    destruct (settles_checkMail now s1) as [Hcm|(o & Hcm & Ho)]; [by left|].
    right. exists o. by split.
  - eapply settles_after; [|by apply settles_finish]. done.
  - left. unfold onEnd. fields. by rewrite settled_cleanup.
  - by left.
Qed.

(** Along a run every outcome is accounted for by one of its events. *)
Lemma run_cause es : forall s s' o,
  run es s = Some s' -> o ∈ settled s' ->
  o ∈ settled s \/ exists e, e ∈ es /\ cause e o.
Proof.
  induction es as [|e es IH]; simpl; intros s s' o Hr Ho.
  - injection Hr as <-. by left.
  - destruct (step e s) as [s1|] eqn:Hs; [|discriminate].
    destruct (IH _ _ _ Hr Ho) as [H1|(e' & He' & Hc)].
    + destruct (step_cause _ _ _ Hs) as [Hsame|(o' & Hadd & Hc)].
      * left. by rewrite <- Hsame.
      * rewrite Hadd in H1. apply elem_of_app in H1 as [H1|H1]; [by left|].
        apply list_elem_of_singleton in H1 as ->.
        right. exists e. split; [apply list_elem_of_here|done].
    + right. exists e'. split; [by apply list_elem_of_further|done].
Qed.

Lemma initial_cause es s o :
  run es initial = Some s -> o ∈ settled s -> exists e, e ∈ es /\ cause e o.
Proof.
  intros Hr Ho. destruct (run_cause _ _ _ _ Hr Ho) as [H|H]; [|done].
  by apply elem_of_nil in H.
Qed.

(** The turn of the event loop at which an outcome is settled. *)
Lemma run_cause_at es : forall s s' o,
  run es s = Some s' -> o ∈ settled s' ->
  o ∈ settled s \/
  exists es1 e es2 s1 s2,
    es = es1 ++ e :: es2 /\ run es1 s = Some s1 /\ step e s1 = Some s2 /\
    settled s2 = settled s1 ++ [o] /\ cause e o.
Proof.
  induction es as [|e es IH]; simpl; intros s s' o Hr Ho.
  - injection Hr as <-. by left.
  - destruct (step e s) as [s1|] eqn:Hs; [|discriminate].
    destruct (IH _ _ _ Hr Ho) as [H1|(es1 & e' & es2 & t1 & t2 & -> & Hr1 & Hs' & Hadd & Hc)].
    + destruct (step_cause _ _ _ Hs) as [Hsame|(o' & Hadd & Hc)].
      * left. by rewrite <- Hsame.
      * rewrite Hadd in H1. apply elem_of_app in H1 as [H1|H1]; [by left|].
        apply list_elem_of_singleton in H1 as ->.
        right. exists [], e, es, s, s1. done.
    + right. exists (e :: es1), e', es2, t1, t2.
      split; [done|]. split; [by simpl; rewrite Hs|]. done.
Qed.

Lemma initial_cause_at es s o :
  run es initial = Some s -> o ∈ settled s ->
  exists es1 e es2 s1 s2,
    es = es1 ++ e :: es2 /\ run es1 initial = Some s1 /\ step e s1 = Some s2 /\
    settled s1 = [] /\ settled s2 = [o] /\ cause e o.
Proof.
  intros Hr Ho.
  destruct (run_cause_at _ _ _ _ Hr Ho)
    as [H|(es1 & e & es2 & s1 & s2 & -> & Hr1 & Hs & Hadd & Hc)].
  { by apply elem_of_nil in H. }
  exists es1, e, es2, s1, s2.
  assert (settled s1 = []) as Hnil.
  { assert (settledOnce s2) as [[_ H2]|(_ & o' & H2)].
    - apply settledOnce_reachable. exists (es1 ++ [e]).
      clear Hr Ho. revert Hr1. generalize initial.
      induction es1 as [|e1 es1 IH]; simpl; intros s0 Hr1.
      + injection Hr1 as ->. by rewrite Hs.
      + destruct (step e1 s0); [by apply IH|discriminate].
    - rewrite H2 in Hadd. by destruct (settled s1).
    - rewrite H2 in Hadd. destruct (settled s1) as [|x [|y l]]; [done| |]; discriminate Hadd. }
  rewrite Hnil in Hadd. done.
Qed.

(** An outcome that is a code is six code characters. *)
Lemma cause_code e c :
  cause e (Resolved c) ->
  exists code, c = Some code /\ length code = 6 /\ forallb isCodeChar code = true.
Proof.
  assert (Hsub : forall subject m, subjectMatch subject = Some m ->
            exists code, group1 m = Some code /\ length code = 6 /\
                         forallb isCodeChar code = true).
  { intros subject m Hm.
    apply subjectMatch_sound in Hm as (pre & d & post & _ & -> & Hd & _).
    exists d. split; [done|]. by apply sixDigits_code. }
  assert (Hcas : forall text m, cascade patterns text = Some m ->
            exists code, group1 m = Some code /\ length code = 6 /\
                         forallb isCodeChar code = true).
  { intros text m Hm.
    apply cascade_captures in Hm as (code & _ & _ & -> & _ & Hl & Hc). eauto. }
  destruct e as [|[message|] now|now| | |err emailId parsed now| |
                  emailId err fullParsed now| | | |junkBox [message|] now|message| |];
    cbn [cause]; try done; try (by intros [? _]).
  - intros (_ & _ & _ & _ & _ & m & Hm & [= ->]). eauto.
  - intros (_ & _ & _ & m & Hm & [= ->]).
    destruct Hm as [Hm|(_ & body & _ & [(_ & Hm)|(_ & [Hm|Hm])])]; eauto.
Qed.

(** X3.  In every run, what the promise is resolved with is a string of
    six characters, each a digit or a Basic Latin letter: never
    [undefined], never a shorter or longer text. *)
Theorem resolved_code_shape es s c :
  run es initial = Some s ->
  Resolved c ∈ settled s ->
  exists code, c = Some code /\ length code = 6 /\ forallb isCodeChar code = true.
Proof.
  intros Hrun Hc. destruct (initial_cause _ _ _ Hrun Hc) as (e & _ & He).
  by eapply cause_code.
Qed.

(** X4.  The call is rejected with the timeout error only by a callback
    that read the clock past the deadline: a tick, or the callback that
    opened INBOX or the junk mailbox.  A run whose ticks and mailbox
    openings all happen within [maxWaitTime] of the start never times
    out. *)
Theorem timeout_only_after_deadline es s :
  run es initial = Some s ->
  Rejected TimeoutError ∈ settled s ->
  exists now,
    (maxWaitTime < now - startTime)%Z /\
    (EvTick now ∈ es \/ EvInboxOpened None now ∈ es \/
     exists junkBox, EvJunkOpened junkBox None now ∈ es).
Proof.
  intros Hrun Ho. destruct (initial_cause _ _ _ Hrun Ho) as (e & He & Hc).
  destruct e; cbn [cause] in Hc; try done.
  - destruct err; [discriminate Hc|]. destruct Hc as [_ Hd]. eauto.
  - destruct Hc as [_ Hd]. eauto.
  - by destruct Hc as (_ & _ & _ & _ & _ & m & _ & ?).
  - by destruct Hc as (_ & _ & _ & m & _ & ?).
  - destruct err; [done|]. destruct Hc as [_ Hd]. eauto 6.
Qed.

(** X5.  The errors the call is rejected with are errors the connection
    raised: a connection error carries the message of an [error] event of
    the run, a mailbox error the message of a failed [openBox('INBOX')]. *)
Theorem reported_errors_were_raised es s message :
  run es initial = Some s ->
  (Rejected (ConnectionError message) ∈ settled s -> EvError message ∈ es) /\
  (Rejected (OpenBoxError message) ∈ settled s ->
   exists now, EvInboxOpened (Some message) now ∈ es).
Proof.
  intros Hrun. split; intros Ho;
    destruct (initial_cause _ _ _ Hrun Ho) as (e & He & Hc);
    destruct e as [|[failure|] now|now| | |err emailId parsed now| |
                   emailId err fullParsed now| | | |junkBox [failure|] now|failure| |];
    cbn [cause] in Hc; try done.
  all: try discriminate Hc.
  all: try (match type of Hc with _ /\ _ => destruct Hc as [Hc Hrest] end;
            first [discriminate Hc
                  |by destruct Hrest as (_ & _ & _ & _ & m & _ & ?)
                  |by destruct Hrest as (_ & _ & m & _ & ?)]).
  - by injection Hc as <-.
  - injection Hc as <-. eauto.
Qed.

(** X6.  [processEmail] returns [true] exactly when that very call resolved
    the session, and then the outcome is a code taken from the message;
    when it returns [false] the outcome is as it was. *)
Theorem processEmail_returns_resolution parsed emailId now s :
  let r := processEmail parsed emailId now s in
  (fst r = true <-> isResolved s = false /\ isResolved (snd r) = true) /\
  (fst r = true ->
   exists m, extracted parsed m /\
             settled (snd r) = settled s ++ [Resolved (group1 m)]) /\
  (fst r = false -> settled (snd r) = settled s).
Proof.
  cbn zeta. destruct (isResolved s) eqn:Hr.
  - unfold processEmail. rewrite Hr. cbn [orb fst snd].
    repeat split; try done. by intros [? _].
  - destruct (processEmail_outcome parsed emailId now s Hr)
      as [(H1 & H2 & H3)|(H1 & H2 & _ & _ & _ & m & Hm & H3)];
      rewrite H1; repeat split; try done; try congruence; eauto.
    by intros [_ ?]; congruence.
Qed.

(** X7.  A code is only ever taken from a message that, when its callback
    ran, was not older than two minutes and passed the provenance test of
    [processEmail].  The turn of the event loop that settles the code [c]
    is the header callback or the full-message callback, without error, of
    such a message, and [c] is group 1 of a match taken from that very
    message: from its subject, or from a body that passes the recipient
    check. *)
Theorem code_from_fresh_vendor_mail es s c :
  run es initial = Some s ->
  Resolved c ∈ settled s ->
  exists es1 e es2 s1 s2 parsed now m,
    es = es1 ++ e :: es2 /\
    run es1 initial = Some s1 /\ step e s1 = Some s2 /\
    settled s1 = [] /\ settled s2 = [Resolved c] /\
    ((exists emailId, e = EvHeader false emailId parsed now) \/
     (exists emailId, e = EvFull emailId false parsed now)) /\
    exceeds (emailAge now (p_date parsed)) maxEmailAge = false /\
    isWindsurfEmail (orEmpty (p_subject parsed)) (orEmpty (p_from parsed)) = true /\
    extracted parsed m /\ c = group1 m.
Proof.
  intros Hrun Hc.
  destruct (initial_cause_at _ _ _ Hrun Hc)
    as (es1 & e & es2 & s1 & s2 & Hes & Hr1 & Hs & Hnil & Hone & Hcause).
  exists es1, e, es2, s1, s2.
  destruct e as [|[message|] now|now| | |err emailId parsed now| |
                 emailId err fullParsed now| | | |junkBox [message|] now|message| |];
    cbn [cause] in Hcause; try done; try (by destruct Hcause).
  - destruct Hcause as (-> & _ & Hage & Hw & _ & m & Hm & [= ->]).
    exists parsed, now, m. do 5 (split; [done|]).
    split; [left; eauto|]. split; [exact Hage|].
    split; [by rewrite isWindsurfEmail_isWindsurf, Hw|]. split; [by left|done].
  - destruct Hcause as (-> & Hage & Hw & m & Hm & [= ->]).
    exists fullParsed, now, m. do 5 (split; [done|]).
    split; [right; eauto|]. done.
Qed.

(** ** Calls and callbacks *)

Create HintDb effects.

Lemma effect_refl R s : effect R s s.
Proof. exists []. cbn. by rewrite !app_nil_r. Qed.

Lemma effect_trans R s1 s2 s3 : effect R s1 s2 -> effect R s2 s3 -> effect R s1 s3.
Proof.
  intros (r1 & Hc1 & Hb1 & H1) (r2 & Hc2 & Hb2 & H2). exists (r1 ++ r2).
  rewrite Hc2, Hc1, Hb2, Hb1, map_app, omap_app, !app_assoc.
  repeat split; try done. by apply Forall_app.
Qed.

Lemma effect_frame R s s' :
  sent s' = sent s -> pending s' = pending s -> effect R s s'.
Proof. intros Hs Hp. exists []. cbn. by rewrite !app_nil_r. Qed.

Lemma effect_say R l s : effect R s (say l s).
Proof. by apply effect_frame. Qed.

Lemma effect_add R id s : effect R s (add id s).
Proof. by apply effect_frame. Qed.

Lemma effect_set_checkInterval R v s : effect R s (set_checkInterval v s).
Proof. by apply effect_frame. Qed.

Lemma effect_set_currentBox R v s : effect R s (set_currentBox v s).
Proof. by apply effect_frame. Qed.

Lemma effect_set_junkBoxChecked R v s : effect R s (set_junkBoxChecked v s).
Proof. by apply effect_frame. Qed.

Lemma effect_set_imapState R v s : effect R s (set_imapState v s).
Proof. by apply effect_frame. Qed.

Lemma effect_send (R : Command -> option Callback -> Prop) c s :
  R c None -> effect R s (send c s).
Proof. intros Hc. exists [(c, None)]. fields. rewrite app_nil_r. by repeat constructor. Qed.

Lemma effect_request (R : Command -> option Callback -> Prop) c cb s :
  R c (Some cb) -> effect R s (await cb (send c s)).
Proof. intros Hc. exists [(c, Some cb)]. fields. by repeat constructor. Qed.

Lemma effect_cleanup (R : Command -> option Callback -> Prop) s :
  R CmdEnd None -> effect R s (cleanup s).
Proof.
  intros Hc. unfold cleanup.
  destruct (checkInterval s); destruct (imapState s) eqn:Hi; fields; rewrite ?Hi;
    first [by apply effect_frame
          |eapply effect_trans; [apply effect_set_checkInterval|by apply effect_send]
          |by apply effect_send].
Qed.

Lemma sent_finish l o s : sent (finish l o s) = sent (cleanup s).
Proof. unfold finish. destruct (isResolved (cleanup s)); [done|]. by destruct l, o. Qed.

Lemma effect_finish (R : Command -> option Callback -> Prop) l o s :
  R CmdEnd None -> effect R s (finish l o s).
Proof.
  intros Hc. destruct (effect_cleanup R s Hc) as (reqs & H1 & H2 & H3).
  exists reqs. by rewrite sent_finish, pending_finish, pending_cleanup in *.
Qed.

#[local] Hint Resolve effect_say effect_add effect_set_checkInterval
  effect_set_currentBox effect_set_junkBoxChecked effect_set_imapState
  effect_request effect_cleanup effect_finish : effects.

Ltac effects :=
  repeat first
    [ apply effect_refl
    | (eapply effect_trans; [|solve [eauto with effects]])
    | solve [eauto with effects] ].

Section Effects.
Variable R : Command -> option Callback -> Prop.

Lemma effect_processHtml parsed to s :
  R CmdEnd None -> effect R s (snd (processHtml parsed to s)).
Proof. intros Hc. unfold processHtml. repeat case_match; cbn [fst snd]; effects. Qed.

Lemma effect_processEmail parsed emailId now s :
  R CmdEnd None -> effect R s (snd (processEmail parsed emailId now s)).
Proof.
  intros Hc. pose proof (effect_processHtml parsed) as Hh.
  unfold processEmail. repeat case_match; cbn [fst snd]; effects.
Qed.

Lemma effect_onFull emailId err parsed now s :
  R CmdEnd None -> effect R s (onFull emailId err parsed now s).
Proof.
  intros Hc. pose proof (effect_processEmail parsed emailId now) as Hp.
  unfold onFull. repeat case_match; effects.
Qed.

Lemma effect_onHeader err emailId parsed now s :
  R CmdEnd None ->
  (err = false -> noId emailId = false ->
   exceeds (emailAge now (p_date parsed)) (2 * 60 * 1000) = false ->
   isWindsurf (orEmpty (p_subject parsed)) (orEmpty (p_from parsed)) = true ->
   isTargetEmail (orEmpty (p_to parsed)) = true ->
   subjectMatch (orEmpty (p_subject parsed)) = None ->
   R (CmdFetchFull (default 0%N emailId)) (Some (OnFull (default 0%N emailId)))) ->
  effect R s (onHeader err emailId parsed now s).
Proof.
  intros Hc Hf. unfold onHeader.
  destruct err; [apply effect_refl|]. destruct (noId emailId) eqn:Hid; [apply effect_refl|].
  destruct (isResolved s) eqn:Hr; [apply effect_refl|]. cbn [orb].
  destruct (exceeds _ _) eqn:Hx; [effects|].
  destruct (isWindsurf _ _) eqn:Hw; cbn [negb]; [|effects].
  destruct (isTargetEmail _) eqn:Ht; cbn [negb]; [|effects].
  destruct (subjectMatch _) eqn:Hm; [effects|].
  specialize (Hf eq_refl eq_refl eq_refl eq_refl eq_refl eq_refl). effects.
Qed.

Lemma effect_checkMail now s :
  R CmdEnd None ->
  R (CmdSearch true (now - 5 * 60 * 1000)) (Some (OnSearch (now - 5 * 60 * 1000))) ->
  effect R s (checkMail now s).
Proof. intros Hc Hs. unfold checkMail. repeat case_match; effects. Qed.

Lemma effect_processSearchResults results s :
  (forall ids, R (CmdFetchHeaders ids) (Some (OnHeaders ids))) ->
  effect R s (processSearchResults results s).
Proof.
  intros Hf. unfold processSearchResults. case_match; [apply effect_refl|]. effects.
Qed.

Lemma effect_switchToNextBox s :
  R CmdGetBoxes (Some OnBoxes) -> effect R s (switchToNextBox s).
Proof.
  intros Hs. unfold switchToNextBox. case_match; [apply effect_refl|].
  eapply effect_trans; [|by apply effect_request]. effects.
Qed.

Lemma effect_onSearch since err results s :
  R (CmdSearch false since) (Some OnFallback) ->
  (forall ids, R (CmdFetchHeaders ids) (Some (OnHeaders ids))) ->
  effect R s (onSearch since err results s).
Proof.
  intros Hs Hf. pose proof (effect_processSearchResults) as Hp.
  unfold onSearch. repeat case_match; effects.
Qed.

Lemma effect_onFallback err results now s :
  R CmdGetBoxes (Some OnBoxes) ->
  (forall ids, R (CmdFetchHeaders ids) (Some (OnHeaders ids))) ->
  effect R s (onFallback err results now s).
Proof.
  intros Hs Hf. pose proof (effect_processSearchResults) as Hp.
  pose proof (effect_switchToNextBox) as Hsw.
  unfold onFallback. repeat case_match; effects.
Qed.

Lemma effect_onBoxes res s :
  (forall junkBox, R CmdCloseBox (Some (OnBoxClosed junkBox))) ->
  effect R s (onBoxes res s).
Proof.
  intros Hc. unfold onBoxes.
  destruct res; cbv beta iota zeta; case_match; effects.
Qed.

Lemma effect_onBoxClosed junkBox err s :
  R (CmdOpenBox junkBox) (Some (OnJunkOpen junkBox)) ->
  effect R s (onBoxClosed junkBox err s).
Proof. intros Hc. unfold onBoxClosed. repeat case_match; effects. Qed.

Lemma effect_onJunkOpened junkBox err now s :
  R CmdEnd None ->
  (err = None ->
   R (CmdSearch true (now - 5 * 60 * 1000)) (Some (OnSearch (now - 5 * 60 * 1000)))) ->
  effect R s (onJunkOpened junkBox err now s).
Proof.
  intros Hc Hs. pose proof (effect_checkMail now) as Hcm.
  unfold onJunkOpened. destruct err; [effects|]. specialize (Hs eq_refl). effects.
Qed.

Lemma effect_onInboxOpened err now s :
  R CmdEnd None ->
  (err = None ->
   R (CmdSearch true (now - 5 * 60 * 1000)) (Some (OnSearch (now - 5 * 60 * 1000)))) ->
  effect R s (onInboxOpened err now s).
Proof.
  intros Hc Hs. pose proof (effect_checkMail now) as Hcm.
  unfold onInboxOpened. destruct err; [effects|]. specialize (Hs eq_refl). effects.
Qed.

Lemma effect_onReady s :
  R (CmdOpenBox INBOX) (Some OnInboxOpen) -> effect R s (onReady s).
Proof. intros Hc. unfold onReady. effects. Qed.

Lemma effect_onError message s : R CmdEnd None -> effect R s (onError message s).
Proof. intros Hc. unfold onError. effects. Qed.

Lemma effect_onEnd s : R CmdEnd None -> effect R s (onEnd s).
Proof. intros Hc. unfold onEnd. effects. Qed.

(** One turn of the event loop asks of the connection what its callback
    asks. *)
Lemma step_effect e s s' :
  step e s = Some s' -> asks R e -> effect R (before e s) s'.
Proof.
  intros Hs Ha. destruct e; cbn [step] in Hs; unfold once in Hs;
    try (case_bool_decide; [|discriminate]);
    try (case_match; [|discriminate]); injection Hs as <-;
    unfold before; cbn [fired asks] in *.
  - by apply effect_onReady.
  - destruct Ha. by apply effect_onInboxOpened.
  - destruct Ha. by apply effect_checkMail.
  - destruct Ha. by apply effect_onSearch.
  - destruct Ha. by apply effect_onFallback.
  - destruct Ha as [Hc Hf]. by apply effect_onHeader.
  - apply effect_say.
  - by apply effect_onFull.
  - unfold onFullError. effects.
  - by apply effect_onBoxes.
  - by apply effect_onBoxClosed.
  - destruct Ha. by apply effect_onJunkOpened.
  - by apply effect_onError.
  - by apply effect_onEnd.
  - apply effect_set_imapState.
Qed.

Lemma step_fired e s s' c : step e s = Some s' -> fired e = Some c -> c ∈ pending s.
Proof.
  intros Hs Hf. destruct e; cbn [step fired] in *; try discriminate Hf;
    injection Hf as <-; unfold once in Hs; by case_bool_decide.
Qed.

Lemma pending_before e s c : c ∈ pending (before e s) -> c ∈ pending s.
Proof.
  unfold before. destruct (fired e); [|done]. cbn [pending set_pending].
  apply elem_of_consume.
Qed.

Lemma sent_before e s : sent (before e s) = sent s.
Proof. unfold before. by destruct (fired e). Qed.

(** What is sent and awaited after a turn was so before, or the callback of
    the turn asked for it; a callback is handed over with a call. *)
Lemma step_asks e s s' :
  step e s = Some s' -> asks R e ->
  (forall c, c ∈ sent s -> c ∈ sent s') /\
  (forall c, c ∈ sent s' -> c ∈ sent s \/ exists cb, R c cb) /\
  (forall cb, cb ∈ pending s' ->
     cb ∈ pending s \/ exists c, c ∈ sent s' /\ R c (Some cb)).
Proof.
  intros Hs Ha.
  destruct (step_effect e s s' Hs Ha) as (reqs & Hc & Hb & HR).
  rewrite Forall_forall in HR. rewrite sent_before in Hc.
  split; [|split].
  - intros c Hin. rewrite Hc. apply elem_of_app. by left.
  - intros c Hin. rewrite Hc in Hin.
    apply elem_of_app in Hin as [Hin|Hin]; [by left|]. right.
    apply list_elem_of_fmap in Hin as ([c' cb] & -> & Hin). exists cb. by apply (HR _ Hin).
  - intros cb Hin. rewrite Hb in Hin.
    apply elem_of_app in Hin as [Hin|Hin]; [left; by eapply pending_before|]. right.
    apply list_elem_of_omap in Hin as ([c cb'] & Hin & Heq). cbn in Heq. subst cb'.
    exists c. split; [|by apply (HR _ Hin)].
    rewrite Hc. apply elem_of_app. right. apply list_elem_of_fmap. by exists (c, Some cb).
Qed.

End Effects.

(** A property of the events so far and the session that every turn
    maintains holds along a run. *)
Lemma run_invariant (I : list Event -> Session -> Prop) :
  (forall pre e s s', I pre s -> step e s = Some s' -> I (pre ++ [e]) s') ->
  forall es pre s s', I pre s -> run es s = Some s' -> I (pre ++ es) s'.
Proof.
  intros Hstep es. induction es as [|e es IH]; intros pre s s' HI Hr; cbn [run] in Hr.
  - injection Hr as <-. by rewrite app_nil_r.
  - destruct (step e s) as [s1|] eqn:Hs; [|discriminate].
    replace (pre ++ e :: es) with ((pre ++ [e]) ++ es) by by rewrite <- app_assoc.
    eapply IH; [|exact Hr]. by eapply Hstep.
Qed.

Lemma polledAt_app pre es since : polledAt pre since -> polledAt (pre ++ es) since.
Proof.
  intros (now & -> & H). exists now. split; [done|].
  rewrite !elem_of_app. destruct H as [H|[H|(j & H)]]; eauto.
  right; right. exists j. rewrite elem_of_app. eauto.
Qed.

Lemma polledAt_here pre e now :
  (e = EvTick now \/ e = EvInboxOpened None now \/
   exists junkBox, e = EvJunkOpened junkBox None now) ->
  polledAt (pre ++ [e]) (now - 5 * 60 * 1000).
Proof.
  intros H. exists now. split; [done|].
  destruct H as [->|[->|(j & ->)]].
  - left. apply elem_of_app. right. by apply list_elem_of_singleton.
  - right; left. apply elem_of_app. right. by apply list_elem_of_singleton.
  - right; right. exists j. apply elem_of_app. right. by apply list_elem_of_singleton.
Qed.

(** [H] says that a constructor is in a list of other constructors. *)
Ltac not_listed H :=
  repeat (apply elem_of_cons in H as [H|H]; [discriminate H|]);
  by apply elem_of_nil in H.

(** Equations between constructors in the context: refute or split them. *)
Ltac eqs :=
  repeat match goal with
  | H : ?x = ?x |- _ => clear H
  | H : _ = _ |- _ => first [discriminate H | injection H; intros; subst]
  end.

(** X8.  Every search of a run, UNSEEN or fallback, asks for the messages
    since five minutes before the clock reading of a tick or of a
    mailbox-open callback of that run; a fallback search repeats the date
    of an UNSEEN search sent before it. *)
Theorem searches_look_back_five_minutes es s unseen sinceDate :
  run es initial = Some s ->
  CmdSearch unseen sinceDate ∈ sent s ->
  polledAt es sinceDate /\ CmdSearch true sinceDate ∈ sent s.
Proof.
  intros Hrun Hin.
  set (I := fun (pre : list Event) (s : Session) =>
    (forall u since, CmdSearch u since ∈ sent s ->
       polledAt pre since /\ CmdSearch true since ∈ sent s) /\
    (forall since, OnSearch since ∈ pending s ->
       polledAt pre since /\ CmdSearch true since ∈ sent s)).
  assert (I ([] ++ es) s) as [HI _]; [|by eapply HI].
  eapply (run_invariant I); [| |exact Hrun].
  - clear. intros pre e s s' [Hsent Hpend] Hs.
    set (R := fun (c : Command) (cb : option Callback) =>
      (forall u since, c = CmdSearch u since ->
         polledAt (pre ++ [e]) since /\ (u = true \/ CmdSearch true since ∈ sent s)) /\
      (forall since, cb = Some (OnSearch since) -> c = CmdSearch true since)).
    assert (asks R e) as Ha.
    { destruct e as [|err now|now|since err results| | | | | | | |junkBox err now| | |];
        cbn [asks]; unfold R; repeat split; intros; eqs; try done;
        try (by left); try (apply polledAt_here; by eauto).
      - assert (OnSearch since0 ∈ pending s) as Hp by by eapply step_fired.
        destruct (Hpend _ Hp). by apply polledAt_app.
      - assert (OnSearch since0 ∈ pending s) as Hp by by eapply step_fired.
        destruct (Hpend _ Hp). by right. }
    destruct (step_asks R e s s' Hs Ha) as (Hmono & Hs1 & Hp1). split.
    + intros u since H. destruct (Hs1 _ H) as [H0|(cb & HR & _)].
      * destruct (Hsent _ _ H0). split; [by apply polledAt_app|by apply Hmono].
      * destruct (HR _ _ eq_refl) as [Hat [->|Hu]]; [done|]. split; [done|by apply Hmono].
    + intros since H. destruct (Hp1 _ H) as [H0|(c & Hc & HR1 & HR2)].
      * destruct (Hpend _ H0). split; [by apply polledAt_app|by apply Hmono].
      * rewrite (HR2 _ eq_refl) in *. split; [|done]. by destruct (HR1 _ _ eq_refl).
  - split.
    + intros u since H. cbn in H. not_listed H.
    + intros since H. cbn in H. not_listed H.
Qed.

Lemma headerPassed_app pre es id : headerPassed pre id -> headerPassed (pre ++ es) id.
Proof.
  intros (emailId & parsed & now & Hin & H). exists emailId, parsed, now.
  split; [|exact H]. apply elem_of_app. by left.
Qed.

(** What is fetched in full, what is awaited from a full fetch and what
    comes back from one had its header pass. *)
Lemma full_after_header es s :
  run es initial = Some s ->
  (forall id, CmdFetchFull id ∈ sent s -> headerPassed es id) /\
  (forall id, OnFull id ∈ pending s -> headerPassed es id) /\
  (forall id err parsed now, EvFull id err parsed now ∈ es -> headerPassed es id).
Proof.
  intros Hrun.
  set (I := fun (pre : list Event) (s : Session) =>
    (forall id, CmdFetchFull id ∈ sent s -> headerPassed pre id) /\
    (forall id, OnFull id ∈ pending s -> headerPassed pre id) /\
    (forall id err parsed now, EvFull id err parsed now ∈ pre -> headerPassed pre id)).
  assert (I ([] ++ es) s) as HI; [|exact HI].
  eapply (run_invariant I); [| |exact Hrun].
  - clear. intros pre e s s' (Hsent & Hpend & Hfull) Hs.
    set (R := fun (c : Command) (cb : option Callback) =>
      (forall id, c = CmdFetchFull id -> headerPassed (pre ++ [e]) id) /\
      (forall id, cb = Some (OnFull id) -> headerPassed (pre ++ [e]) id)).
    assert (asks R e) as Ha.
    { destruct e; cbn [asks]; unfold R; repeat split; intros; eqs; try done;
        eexists _, _, _; (split; [apply elem_of_app; right; by apply list_elem_of_singleton|]);
        done. }
    destruct (step_asks R e s s' Hs Ha) as (Hmono & Hs1 & Hp1). split; [|split].
    + intros id H. destruct (Hs1 _ H) as [H0|(cb & HR & _)]; [|by apply HR].
      apply headerPassed_app. by apply Hsent.
    + intros id H. destruct (Hp1 _ H) as [H0|(c & _ & _ & HR)]; [|by apply HR].
      apply headerPassed_app. by apply Hpend.
    + intros id err parsed now H. apply elem_of_app in H as [H|H].
      * apply headerPassed_app. by eapply Hfull.
      * apply list_elem_of_singleton in H. subst e. apply headerPassed_app, Hpend.
        cbn [step] in Hs. by case_bool_decide.
  - split; [|split].
    + intros id H. cbn in H. not_listed H.
    + intros id H. cbn in H. not_listed H.
    + intros id err parsed now H. by apply elem_of_nil in H.
Qed.

(** X9.  The body of a message is fetched, and a fetched body parsed, only
    after the header of that message went through the header callback
    without error and passed all its checks: not older than two minutes,
    from the vendor, addressed to the target, no code in the subject. *)
Theorem body_only_after_header es s id :
  run es initial = Some s ->
  (CmdFetchFull id ∈ sent s -> headerPassed es id) /\
  (forall err parsed now, EvFull id err parsed now ∈ es -> headerPassed es id).
Proof.
  intros Hrun. destruct (full_after_header es s Hrun) as (Hsent & _ & Hfull).
  split; [apply Hsent|]. intros err parsed now. apply Hfull.
Qed.

(** X10.  A code is handed out only for a message whose header named the
    target.  The turn of the event loop that settles the code [c] belongs
    to a message whose header callback ran without error, on a header not
    older than two minutes, from the vendor, whose recipient field passed
    [isTargetEmail]: either that turn is this header callback and [c] is
    group 1 of the match of its subject, or the subject held no code, the
    header callback ran earlier in the run, and that turn is the
    full-message callback of the same identifier, [c] being group 1 of a
    match taken from the full message. *)
Theorem code_only_for_target es s c :
  run es initial = Some s ->
  Resolved c ∈ settled s ->
  exists es1 e es2 s1 s2 emailId header now m,
    es = es1 ++ e :: es2 /\
    run es1 initial = Some s1 /\ step e s1 = Some s2 /\
    settled s1 = [] /\ settled s2 = [Resolved c] /\ c = group1 m /\
    noId emailId = false /\
    exceeds (emailAge now (p_date header)) (2 * 60 * 1000) = false /\
    isWindsurf (orEmpty (p_subject header)) (orEmpty (p_from header)) = true /\
    isTargetEmail (orEmpty (p_to header)) = true /\
    ((e = EvHeader false emailId header now /\
      subjectMatch (orEmpty (p_subject header)) = Some m) \/
     (EvHeader false emailId header now ∈ es1 /\
      subjectMatch (orEmpty (p_subject header)) = None /\
      exists fullParsed now',
        e = EvFull (default 0%N emailId) false fullParsed now' /\
        extracted fullParsed m)).
Proof.
  intros Hrun Hc.
  destruct (initial_cause_at _ _ _ Hrun Hc)
    as (es1 & e & es2 & s1 & s2 & Hes & Hr1 & Hs & Hnil & Hone & Hcause).
  exists es1, e, es2, s1, s2.
  destruct e as [|[message|] now|now| | |err emailId parsed now| |
                 emailId err fullParsed now| | | |junkBox [message|] now|message| |];
    cbn [cause] in Hcause; try done; try (by destruct Hcause).
  - destruct Hcause as (-> & Hid & Hage & Hw & Ht & m & Hm & [= ->]).
    exists emailId, parsed, now, m. do 10 (split; [done|]). by left.
  - destruct Hcause as (-> & _ & _ & m & Hm & [= ->]).
    destruct (full_after_header _ _ Hr1) as (_ & Hpend & _).
    destruct (Hpend emailId)
      as (emailId' & header & now' & Hin & Hid & <- & Hage & Hw & Ht & Hnone).
    { cbn [step] in Hs. by case_bool_decide. }
    exists emailId', header, now', m. do 10 (split; [done|]).
    right. split; [exact Hin|]. split; [exact Hnone|]. eauto.
Qed.

(** ** The timer and the current mailbox *)

Create HintDb calm.

Lemma calm_refl s : calm s s.
Proof. by split. Qed.

Lemma calm_trans s1 s2 s3 : calm s1 s2 -> calm s2 s3 -> calm s1 s3.
Proof. intros [T1 B1] [T2 B2]. split; [auto|congruence]. Qed.

Lemma calm_frame s s' :
  checkInterval s' = checkInterval s -> currentBox s' = currentBox s -> calm s s'.
Proof. intros Ht Hb. split; [congruence|done]. Qed.

Lemma calm_say l s : calm s (say l s).
Proof. by apply calm_frame. Qed.

Lemma calm_send c s : calm s (send c s).
Proof. by apply calm_frame. Qed.

Lemma calm_await c s : calm s (await c s).
Proof. by apply calm_frame. Qed.

Lemma calm_add id s : calm s (add id s).
Proof. by apply calm_frame. Qed.

Lemma calm_set_junkBoxChecked v s : calm s (set_junkBoxChecked v s).
Proof. by apply calm_frame. Qed.

Lemma calm_set_imapState v s : calm s (set_imapState v s).
Proof. by apply calm_frame. Qed.

Lemma calm_set_pending v s : calm s (set_pending v s).
Proof. by apply calm_frame. Qed.

Lemma currentBox_cleanup s : currentBox (cleanup s) = currentBox s.
Proof. unfold cleanup. destruct (checkInterval s); cbn; by destruct (imapState s). Qed.

Lemma calm_cleanup s : calm s (cleanup s).
Proof. split; [by rewrite checkInterval_cleanup|apply currentBox_cleanup]. Qed.

Lemma checkInterval_finish l o s : checkInterval (finish l o s) = false.
Proof.
  unfold finish. destruct (isResolved (cleanup s)); [apply checkInterval_cleanup|].
  destruct l, o; cbn; apply checkInterval_cleanup.
Qed.

Lemma currentBox_finish l o s : currentBox (finish l o s) = currentBox s.
Proof.
  unfold finish. destruct (isResolved (cleanup s)); [apply currentBox_cleanup|].
  destruct l, o; cbn; apply currentBox_cleanup.
Qed.

Lemma calm_finish l o s : calm s (finish l o s).
Proof. split; [by rewrite checkInterval_finish|apply currentBox_finish]. Qed.

#[local] Hint Resolve calm_say calm_send calm_await calm_add calm_set_junkBoxChecked
  calm_set_imapState calm_set_pending calm_cleanup calm_finish : calm.

Ltac calm :=
  repeat first
    [ apply calm_refl
    | (eapply calm_trans; [|solve [eauto with calm]])
    | solve [eauto with calm] ].

Lemma calm_processHtml parsed to s : calm s (snd (processHtml parsed to s)).
Proof. unfold processHtml. repeat case_match; cbn [fst snd]; calm. Qed.

#[local] Hint Resolve calm_processHtml : calm.

Lemma calm_processEmail parsed emailId now s :
  calm s (snd (processEmail parsed emailId now s)).
Proof. unfold processEmail. repeat case_match; cbn [fst snd]; calm. Qed.

#[local] Hint Resolve calm_processEmail : calm.

Lemma calm_onFull emailId err parsed now s : calm s (onFull emailId err parsed now s).
Proof. unfold onFull. repeat case_match; calm. Qed.

Lemma calm_onHeader err emailId parsed now s :
  calm s (onHeader err emailId parsed now s).
Proof. unfold onHeader. repeat case_match; calm. Qed.

Lemma calm_checkMail now s : calm s (checkMail now s).
Proof. unfold checkMail. repeat case_match; calm. Qed.

Lemma calm_processSearchResults results s : calm s (processSearchResults results s).
Proof. unfold processSearchResults. case_match; calm. Qed.

Lemma calm_switchToNextBox s : calm s (switchToNextBox s).
Proof. unfold switchToNextBox. case_match; calm. Qed.

#[local] Hint Resolve calm_checkMail calm_processSearchResults calm_switchToNextBox : calm.

Lemma calm_onSearch since err results s : calm s (onSearch since err results s).
Proof. unfold onSearch. repeat case_match; calm. Qed.

Lemma calm_onFallback err results now s : calm s (onFallback err results now s).
Proof. unfold onFallback. repeat case_match; calm. Qed.

Lemma calm_onBoxes res s : calm s (onBoxes res s).
Proof. unfold onBoxes. destruct res; cbv beta iota zeta; case_match; calm. Qed.

Lemma calm_onBoxClosed junkBox err s : calm s (onBoxClosed junkBox err s).
Proof. unfold onBoxClosed. case_match; calm. Qed.

(** Every turn but the opening of INBOX leaves the timer as it is or
    clears it; every turn but the opening of a mailbox leaves the current
    mailbox. *)
Lemma step_calm e s s' :
  step e s = Some s' ->
  ((checkInterval s' = true -> checkInterval s = true) \/
   exists now, e = EvInboxOpened None now /\ currentBox s' = Some INBOX) /\
  (currentBox s' = currentBox s \/
   (exists now, e = EvInboxOpened None now /\ currentBox s' = Some INBOX) \/
   (exists junkBox now, e = EvJunkOpened junkBox None now /\
                        currentBox s' = Some junkBox)).
Proof.
  intros Hs.
  assert (forall h c, calm (set_pending (consume c (pending s)) s) (h (set_pending (consume c (pending s)) s)) -> calm s (h (set_pending (consume c (pending s)) s))) as Honce.
  { intros h c Hc. eapply calm_trans; [apply calm_set_pending|exact Hc]. }
  assert (calm s s' ->
    ((checkInterval s' = true -> checkInterval s = true) \/
     exists now, e = EvInboxOpened None now /\ currentBox s' = Some INBOX) /\
    (currentBox s' = currentBox s \/
     (exists now, e = EvInboxOpened None now /\ currentBox s' = Some INBOX) \/
     (exists junkBox now, e = EvJunkOpened junkBox None now /\
                          currentBox s' = Some junkBox))) as Hcalm.
  { intros [Ht Hb]. split; by left. }
  destruct e as [|err now| | | | | | | | | |junkBox err now| | |];
    cbn [step] in Hs; unfold once in Hs;
    try (case_bool_decide; [|discriminate]);
    try (case_match; [|discriminate]); injection Hs as <-.
  - apply Hcalm, Honce. unfold onReady. calm.
  - destruct err as [message|].
    + apply Hcalm, Honce. unfold onInboxOpened. calm.
    + assert (currentBox (onInboxOpened None now (set_pending (consume OnInboxOpen (pending s)) s)) = Some INBOX) as Hb.
      { unfold onInboxOpened. cbn [currentBox set_checkInterval].
        destruct (calm_checkMail now (say LogJunkHint (say (LogMaxWait maxWaitTime)
          (say (LogTarget targetEmail) (say LogInboxOpened
             (set_currentBox (Some INBOX)
                (set_pending (consume OnInboxOpen (pending s)) s))))))) as [_ ->].
        done. }
      split; [right; eauto|right; left; eauto].
  - apply Hcalm, calm_checkMail.
  - apply Hcalm, Honce, calm_onSearch.
  - apply Hcalm, Honce, calm_onFallback.
  - apply Hcalm, calm_onHeader.
  - apply Hcalm. unfold onFetchError. calm.
  - apply Hcalm, calm_onFull.
  - apply Hcalm. unfold onFullError. calm.
  - apply Hcalm, Honce, calm_onBoxes.
  - apply Hcalm, Honce, calm_onBoxClosed.
  - destruct err as [message|].
    + apply Hcalm, Honce. unfold onJunkOpened. calm.
    + unfold onJunkOpened.
      destruct (calm_checkMail now (say (LogSwitched junkBox)
        (set_currentBox (Some junkBox)
           (set_pending (consume (OnJunkOpen junkBox) (pending s)) s)))) as [Ht Hb].
      split; [left; exact Ht|right; right; eauto].
  - apply Hcalm, Honce. unfold onError. calm.
  - apply Hcalm, Honce. unfold onEnd. calm.
  - apply Hcalm. calm.
Qed.

Lemma countIf_omap_none (p : Callback -> bool) (reqs : list (Command * option Callback)) :
  Forall (fun r => forall x, snd r = Some x -> p x = false) reqs ->
  countIf p (omap snd reqs) = 0.
Proof.
  induction 1 as [|[c [cb|]] reqs Hr _ IH]; [done| |done].
  cbn in *. unfold countIf in *. cbn. by rewrite (Hr cb eq_refl).
Qed.

Lemma countIf_none {A} (p : A -> bool) l x : countIf p l = 0 -> x ∈ l -> p x = false.
Proof.
  unfold countIf. induction l as [|y l IH]; intros Hc Hin; [by apply elem_of_nil in Hin|].
  cbn in Hc. apply elem_of_cons in Hin as [->|Hin].
  - by destruct (p y).
  - destruct (p y); [discriminate Hc|by apply IH].
Qed.

(** The callbacks of one kind: a turn takes away the one it fires and adds
    none, if its callback hands over none of that kind. *)
Lemma step_count (p : Callback -> bool) e s s' :
  step e s = Some s' ->
  asks (fun _ cb => forall x, cb = Some x -> p x = false) e ->
  countIf p (pending s') +
    match fired e with Some c => if p c then 1 else 0 | None => 0 end =
  countIf p (pending s).
Proof.
  intros Hs Ha. destruct (step_effect _ e s s' Hs Ha) as (reqs & _ & Hb & HR).
  rewrite Hb, countIf_app, (countIf_omap_none p reqs) by exact HR.
  unfold before. destruct (fired e) as [c|] eqn:Hf; [|lia].
  cbn [pending set_pending].
  rewrite (countIf_consume p c (pending s)) by by eapply step_fired. lia.
Qed.

(** Only the [ready] callback hands over a callback that opens INBOX. *)
Lemma asks_no_opening e :
  e <> EvReady -> asks (fun _ cb => forall x, cb = Some x -> isOpening x = false) e.
Proof. intros Hne. destruct e; cbn [asks]; repeat split; intros; eqs; done. Qed.

Lemma phase_initial : phase initial.
Proof.
  left. repeat split; try done. intros c Hc. cbn in Hc.
  apply elem_of_cons in Hc as [->|Hc]; [apply list_elem_of_here|].
  by do 2 apply list_elem_of_further.
Qed.

Lemma phase_step e s s' : step e s = Some s' -> phase s -> phase s'.
Proof.
  intros Hs Hph. destruct (step_calm e s s' Hs) as [Ht Hb].
  assert (e = EvReady \/ e <> EvReady) as [->|Hne]
    by (destruct e; (by left) || (by right)).
  - (* the [ready] callback hands over the one for INBOX *)
    cbn [step] in Hs. unfold once in Hs. case_bool_decide as Hin; [|discriminate].
    injection Hs as <-. unfold onReady in *. fields. fields_in Ht. fields_in Hb.
    pose proof (countIf_consume isOpening OnReady (pending s) Hin) as Hc. cbn in Hc.
    destruct Hph as [(Hn & Hci & Hbox & Hp)|[Hn _]]; [|lia]. left. fields.
    rewrite countIf_app, countIf_single. cbn. repeat split; [lia|done|done|].
    intros c Hc'. apply elem_of_app in Hc' as [Hc'|Hc'].
    + apply Hp. by eapply elem_of_consume.
    + apply list_elem_of_singleton in Hc' as ->. rewrite !elem_of_cons. auto.
  - pose proof (asks_no_opening e Hne) as Ha.
    pose proof (step_count isOpening e s s' Hs Ha) as Hcount.
    destruct Hph as [(Hn & Hci & Hbox & Hp)|[Hn Hcur]].
    + (* INBOX not open yet *)
      assert (forall c, fired e = Some c -> c ∈ pending s) as Hf
        by (intros c Hc; eapply step_fired; eauto).
      assert (asks (fun _ cb => cb = None) e ->
              (forall c, fired e = Some c -> isOpening c = false) -> phase s') as Hquiet.
      { intros Hq Hoc. destruct (step_asks _ e s s' Hs Hq) as (_ & _ & Hp').
        left. split; [|split; [|split]].
        - destruct (fired e) as [c|] eqn:Hfe; [|lia].
          rewrite (Hoc c eq_refl) in Hcount. lia.
        - destruct (checkInterval s') eqn:Hc'; [|done].
          destruct Ht as [Ht|(now' & -> & _)]; [by rewrite <- Ht|].
          cbn [asks] in Hq. destruct Hq as [_ Hq]. by specialize (Hq eq_refl).
        - destruct Hb as [->|[(now' & -> & _)|(j & now' & -> & _)]]; [done| |];
            cbn [asks] in Hq; destruct Hq as [_ Hq]; by specialize (Hq eq_refl).
        - intros c Hc. destruct (Hp' _ Hc) as [Hc'|(c' & _ & Hc')]; [by apply Hp|done]. }
      destruct e as [|err now|now|since err results|err results now0|
                     err emailId parsed now| |emailId err parsed now|emailId message|
                     res|junkBox err|junkBox err now|message| |st];
        cbn [fired] in *; try done;
        try (specialize (Hf _ eq_refl); apply Hp in Hf; not_listed Hf).
      * right. cbn in Hcount. split; [lia|]. intros Hc.
        destruct Ht as [Ht|(now' & _ & ->)]; [|by eexists]. specialize (Ht Hc). congruence.
      * cbn [step] in Hs. by rewrite Hci in Hs.
      * exfalso. cbn [step] in Hs. destruct (headerAwaited _ _) eqn:Hh; [|discriminate].
        unfold headerAwaited in Hh. apply existsb_exists in Hh as (c & Hc & Hm).
        apply list_elem_of_In, Hp in Hc.
        rewrite !elem_of_cons in Hc. destruct Hc as [->|[->|[->|[->|Hc]]]]; try done.
        by apply elem_of_nil in Hc.
      * exfalso. cbn [step] in Hs. destruct (fetchAwaited _) eqn:Hh; [|discriminate].
        unfold fetchAwaited in Hh. apply existsb_exists in Hh as (c & Hc & Hm).
        apply list_elem_of_In, Hp in Hc.
        rewrite !elem_of_cons in Hc. destruct Hc as [->|[->|[->|[->|Hc]]]]; try done.
        by apply elem_of_nil in Hc.
      * exfalso. cbn [step] in Hs. case_bool_decide as Hin; [|discriminate].
        apply Hp in Hin. not_listed Hin.
      * exfalso. cbn [step] in Hs. case_bool_decide as Hin; [|discriminate].
        apply Hp in Hin. not_listed Hin.
      * apply Hquiet; [done|]. by intros c [= <-].
      * apply Hquiet; [done|]. by intros c [= <-].
      * apply Hquiet; [done|]. by intros c [=].
    + (* INBOX open *)
      right. split.
      * destruct (fired e) as [c|]; [destruct (isOpening c)|]; lia.
      * intros Hc. destruct Ht as [Ht|(now' & _ & ->)]; [|by eexists].
        specialize (Hcur (Ht Hc)).
        destruct Hb as [->|[(now' & _ & ->)|(j & now' & _ & ->)]]; done || by eexists.
Qed.

Lemma phase_run es : forall s s', run es s = Some s' -> phase s -> phase s'.
Proof.
  induction es as [|e es IH]; cbn [run]; intros s s' Hr Hph.
  - by injection Hr as <-.
  - destruct (step e s) as [s1|] eqn:Hs; [|discriminate].
    eapply IH; [exact Hr|]. by eapply phase_step.
Qed.

(** X11.  The branch of [checkMail] that waits for a mailbox is never
    taken: whenever the timer fires in a session that is not resolved and
    not past its deadline, a mailbox is current and the tick sends the
    UNSEEN search of that mailbox, five minutes back. *)
Theorem every_tick_searches es s now s' :
  run es initial = Some s ->
  step (EvTick now) s = Some s' ->
  isResolved s = false ->
  (now - startTime <= maxWaitTime)%Z ->
  exists box,
    currentBox s = Some box /\
    s' = await (OnSearch (now - 5 * 60 * 1000))
           (send (CmdSearch true (now - 5 * 60 * 1000))
              (say (LogCurrentBox box) (say (LogCriteria (now - 5 * 60 * 1000)) s))).
Proof.
  intros Hrun Hs Hr Hd. pose proof (phase_run _ _ _ Hrun phase_initial) as Hph.
  cbn [step] in Hs. destruct (checkInterval s) eqn:Hci; [|discriminate].
  injection Hs as <-.
  destruct Hph as [(_ & Hci' & _)|[_ Hbox]]; [congruence|].
  destruct (Hbox Hci) as [box Hb]. exists box. split; [done|].
  unfold checkMail. rewrite Hr, Hb.
  by destruct (Z.ltb_spec maxWaitTime (now - startTime)); [lia|].
Qed.

(** Once the callback of [openBox('INBOX')] has run, neither it nor the
    [ready] callback is pending. *)
Lemma opened_after es s :
  run es initial = Some s ->
  (exists err now, EvInboxOpened err now ∈ es) ->
  countIf isOpening (pending s) = 0.
Proof.
  intros Hrun.
  set (I := fun (pre : list Event) (s : Session) =>
    phase s /\
    ((exists err now, EvInboxOpened err now ∈ pre) -> countIf isOpening (pending s) = 0)).
  assert (I ([] ++ es) s) as [_ HI]; [|exact HI].
  eapply (run_invariant I); [| |exact Hrun].
  - clear. intros pre e s s' [Hph Hop] Hs. split; [by eapply phase_step|].
    intros (err & now & Hin).
    assert (countIf isOpening (pending s) <= 1) as Hle
      by (destruct Hph as [[-> _]|[-> _]]; lia).
    assert (e = EvReady \/ e <> EvReady) as [->|Hne]
      by (destruct e; (by left) || (by right)).
    + apply elem_of_app in Hin as [Hin|Hin]; [|by apply list_elem_of_singleton in Hin].
      assert (countIf isOpening (pending s) = 0) as H0 by eauto.
      assert (OnReady ∈ pending s) as Hp by by eapply step_fired.
      by pose proof (countIf_none _ _ _ H0 Hp).
    + pose proof (asks_no_opening e Hne) as Ha.
      pose proof (step_count isOpening e s s' Hs Ha) as Hcount.
      apply elem_of_app in Hin as [Hin|Hin].
      * assert (countIf isOpening (pending s) = 0) as H0 by eauto. lia.
      * apply list_elem_of_singleton in Hin. subst e. cbn in Hcount. lia.
  - split; [apply phase_initial|]. intros (err & now & Hin). by apply elem_of_nil in Hin.
Qed.

(** With INBOX opened and the timer cleared, the timer stays cleared: no
    tick fires, and INBOX is not opened again. *)
Lemma timer_stays_off es : forall s s',
  countIf isOpening (pending s) = 0 -> checkInterval s = false ->
  run es s = Some s' ->
  countIf isOpening (pending s') = 0 /\ checkInterval s' = false /\
  (forall now, EvTick now ∉ es) /\
  (forall err now, EvInboxOpened err now ∉ es).
Proof.
  induction es as [|e es IH]; cbn [run]; intros s s' H0 Hci Hr.
  - injection Hr as <-. repeat split; try done; intros; apply not_elem_of_nil.
  - destruct (step e s) as [s1|] eqn:Hs; [|discriminate].
    assert (forall c, fired e = Some c -> isOpening c = false) as Hf.
    { intros c Hc. eapply countIf_none; [exact H0|]. by eapply step_fired. }
    assert (asks (fun _ cb => forall x, cb = Some x -> isOpening x = false) e) as Ha.
    { apply asks_no_opening. intros ->. by specialize (Hf _ eq_refl). }
    pose proof (step_count isOpening e s s1 Hs Ha) as Hcount.
    destruct (step_calm e s s1 Hs) as [Ht _].
    assert (checkInterval s1 = false) as Hci1.
    { destruct (checkInterval s1) eqn:Hc1; [|done].
      destruct Ht as [Ht|(now & -> & _)]; [by rewrite <- Ht|].
      by specialize (Hf _ eq_refl). }
    assert (countIf isOpening (pending s1) = 0) as H1 by lia.
    destruct (IH _ _ H1 Hci1 Hr) as (Hc' & Hi' & Hticks & Hopens).
    repeat split; try done.
    + intros now Hin. apply elem_of_cons in Hin as [<-|Hin]; [|by eapply Hticks].
      cbn [step] in Hs. by rewrite Hci in Hs.
    + intros err now Hin. apply elem_of_cons in Hin as [<-|Hin]; [|by eapply Hopens].
      by specialize (Hf _ eq_refl).
Qed.

(** X12.  Polling stops for good: once INBOX has been opened, a session
    whose timer is cleared (every way of settling the call but the
    deadline check made on opening INBOX clears it) never runs another
    tick. *)
Theorem polling_stops es s es' s' :
  run es initial = Some s ->
  (exists err now, EvInboxOpened err now ∈ es) ->
  checkInterval s = false ->
  run es' s = Some s' ->
  checkInterval s' = false /\ forall now, EvTick now ∉ es'.
Proof.
  intros Hrun Hop Hci Hrun'.
  pose proof (opened_after _ _ Hrun Hop) as H0.
  by destruct (timer_stays_off _ _ _ H0 Hci Hrun') as (_ & ? & ? & _).
Qed.

(** X13.  The connection's [end] event settles nothing and clears the
    timer.  If it comes, INBOX being open, while the call is unresolved,
    no tick checks the deadline any more: the call can still time out only
    through the callback of a junk mailbox being opened. *)
Theorem end_event_stops_the_clock es s0 s1 es' s :
  run es initial = Some s0 ->
  (exists err now, EvInboxOpened err now ∈ es) ->
  step EvEnd s0 = Some s1 ->
  run es' s1 = Some s ->
  settled s1 = settled s0 /\ isResolved s1 = isResolved s0 /\
  (forall now, EvTick now ∉ es') /\
  (Rejected TimeoutError ∈ settled s ->
   Rejected TimeoutError ∈ settled s0 \/
   exists junkBox now, EvJunkOpened junkBox None now ∈ es' /\
                       (maxWaitTime < now - startTime)%Z).
Proof.
  intros Hrun Hop Hs Hrun'.
  assert (run (es ++ [EvEnd]) initial = Some s1) as Hrun1.
  { clear Hrun' Hop. revert Hrun. generalize initial.
    induction es as [|e es IH]; cbn [run app]; intros s2 Hr.
    - injection Hr as ->. by rewrite Hs.
    - destruct (step e s2); [by apply IH|discriminate]. }
  assert (exists err now, EvInboxOpened err now ∈ es ++ [EvEnd]) as Hop1.
  { destruct Hop as (err & now & Hin). exists err, now. apply elem_of_app. by left. }
  pose proof (opened_after _ _ Hrun1 Hop1) as H0.
  assert (settled s1 = settled s0 /\ isResolved s1 = isResolved s0 /\
          checkInterval s1 = false) as (Hset & Hres & Hci).
  { cbn [step] in Hs. unfold once in Hs. case_bool_decide; [|discriminate].
    injection Hs as <-. unfold onEnd. fields.
    by rewrite settled_cleanup, isResolved_cleanup, checkInterval_cleanup. }
  destruct (timer_stays_off _ _ _ H0 Hci Hrun') as (_ & _ & Hticks & Hopens).
  repeat split; try done.
  intros Ho. destruct (run_cause _ _ _ _ Hrun' Ho) as [Hin|(e & He & Hc)].
  - left. by rewrite <- Hset.
  - right.
    destruct e as [|[message|] now|now| | |err emailId parsed now| |
                   emailId err fullParsed now| | | |junkBox [message|] now|message| |];
      cbn [cause] in Hc; try done.
    + by apply Hopens in He.
    + by apply Hticks in He.
    + by destruct Hc as (_ & _ & _ & _ & _ & m & _ & ?).
    + by destruct Hc as (_ & _ & _ & m & _ & ?).
    + destruct Hc as [_ Hd]. eauto.
Qed.

(** ** An unresolved session keeps its connection and its timer *)

Create HintDb alive.

Lemma alive_refl s : alive s s.
Proof. by intros Hr. Qed.

Lemma alive_trans s1 s2 s3 : alive s1 s2 -> alive s2 s3 -> alive s1 s3.
Proof.
  intros H1 H2 Hr. destruct (H2 Hr) as (Hr2 & Ht2 & Hc2).
  destruct (H1 Hr2) as (Hr1 & Ht1 & Hc1). repeat split; congruence.
Qed.

Lemma alive_frame s s' :
  isResolved s' = isResolved s -> sent s' = sent s ->
  checkInterval s' = checkInterval s -> alive s s'.
Proof. intros Hr Hs Hc Hr'. unfold teardowns. rewrite Hs. repeat split; congruence. Qed.

Lemma alive_say l s : alive s (say l s).
Proof. by apply alive_frame. Qed.

Lemma alive_await c s : alive s (await c s).
Proof. by apply alive_frame. Qed.

Lemma alive_add id s : alive s (add id s).
Proof. by apply alive_frame. Qed.

Lemma alive_set_junkBoxChecked v s : alive s (set_junkBoxChecked v s).
Proof. by apply alive_frame. Qed.

Lemma alive_set_currentBox v s : alive s (set_currentBox v s).
Proof. by apply alive_frame. Qed.

Lemma alive_set_imapState v s : alive s (set_imapState v s).
Proof. by apply alive_frame. Qed.

Lemma alive_set_pending v s : alive s (set_pending v s).
Proof. by apply alive_frame. Qed.

Lemma alive_send c s : c <> CmdEnd -> alive s (send c s).
Proof.
  intros Hc Hr. rewrite teardowns_send. destruct (decide (c = CmdEnd)); [done|].
  repeat split; [done|lia].
Qed.

Lemma isResolved_finish l o s : isResolved (finish l o s) = true.
Proof.
  unfold finish. destruct (isResolved (cleanup s)) eqn:Hr; [done|]. by destruct l, o.
Qed.

Lemma alive_finish l o s : alive s (finish l o s).
Proof. intros Hr. by rewrite isResolved_finish in Hr. Qed.

#[local] Hint Resolve alive_say alive_await alive_add alive_set_junkBoxChecked
  alive_set_currentBox alive_set_imapState alive_set_pending alive_send
  alive_finish : alive.
#[local] Hint Extern 1 (_ <> CmdEnd) => discriminate : alive.

Ltac alive :=
  repeat first
    [ apply alive_refl
    | (eapply alive_trans; [|solve [eauto with alive]])
    | solve [eauto with alive] ].

Lemma alive_processHtml parsed to s : alive s (snd (processHtml parsed to s)).
Proof. unfold processHtml. repeat case_match; cbn [fst snd]; alive. Qed.

#[local] Hint Resolve alive_processHtml : alive.

Lemma alive_processEmail parsed emailId now s :
  alive s (snd (processEmail parsed emailId now s)).
Proof. unfold processEmail. repeat case_match; cbn [fst snd]; alive. Qed.

#[local] Hint Resolve alive_processEmail : alive.

Lemma alive_onFull emailId err parsed now s : alive s (onFull emailId err parsed now s).
Proof. unfold onFull. repeat case_match; alive. Qed.

Lemma alive_onHeader err emailId parsed now s :
  alive s (onHeader err emailId parsed now s).
Proof. unfold onHeader. repeat case_match; alive. Qed.

Lemma alive_checkMail now s : alive s (checkMail now s).
Proof. unfold checkMail. repeat case_match; alive. Qed.

Lemma alive_processSearchResults results s : alive s (processSearchResults results s).
Proof. unfold processSearchResults. case_match; alive. Qed.

Lemma alive_switchToNextBox s : alive s (switchToNextBox s).
Proof. unfold switchToNextBox. case_match; alive. Qed.

#[local] Hint Resolve alive_checkMail alive_processSearchResults
  alive_switchToNextBox : alive.

Lemma alive_onSearch since err results s : alive s (onSearch since err results s).
Proof. unfold onSearch. repeat case_match; alive. Qed.

Lemma alive_onFallback err results now s : alive s (onFallback err results now s).
Proof. unfold onFallback. repeat case_match; alive. Qed.

Lemma alive_onBoxes res s : alive s (onBoxes res s).
Proof. unfold onBoxes. destruct res; cbv beta iota zeta; case_match; alive. Qed.

Lemma alive_onBoxClosed junkBox err s : alive s (onBoxClosed junkBox err s).
Proof. unfold onBoxClosed. case_match; alive. Qed.

Lemma alive_onJunkOpened junkBox err now s :
  alive s (onJunkOpened junkBox err now s).
Proof. unfold onJunkOpened. case_match; alive. Qed.

(** A turn that leaves the session unresolved found it so and, unless it
    is the connection's [end], called no [imap.end()]; it left the timer as
    it was, or armed it on opening INBOX. *)
Lemma step_alive e s s' :
  step e s = Some s' -> e <> EvEnd -> isResolved s' = false ->
  isResolved s = false /\ teardowns s' = teardowns s /\
  ((forall now, e <> EvInboxOpened None now) -> checkInterval s' = checkInterval s) /\
  (forall now, e = EvInboxOpened None now -> checkInterval s' = true).
Proof.
  intros Hs Hne Hr.
  assert (alive s s' ->
    isResolved s = false /\ teardowns s' = teardowns s /\
    ((forall now, e <> EvInboxOpened None now) -> checkInterval s' = checkInterval s) /\
    (forall now, e = EvInboxOpened None now -> checkInterval s' = true)) as Halive.
  { intros Ha. destruct (Ha Hr) as (H1 & H2 & H3). repeat split; try done.
    intros now ->. cbn [step] in Hs. unfold once in Hs.
    case_bool_decide; [|discriminate]. injection Hs as <-. done. }
  assert (forall h c, alive (set_pending (consume c (pending s)) s)
                            (h (set_pending (consume c (pending s)) s)) ->
                      alive s (h (set_pending (consume c (pending s)) s))) as Honce.
  { intros h c Hc. eapply alive_trans; [apply alive_set_pending|exact Hc]. }
  destruct e as [|err now| | | | | | | | | |junkBox err now| | |];
    cbn [step] in Hs; unfold once in Hs;
    try (case_bool_decide; [|discriminate]);
    try (case_match; [|discriminate]); injection Hs as <-; try done.
  - apply Halive, Honce. unfold onReady. alive.
  - destruct err as [message|].
    + apply Halive, Honce. unfold onInboxOpened. alive.
    + unfold onInboxOpened in *. fields_in Hr. fields.
      match type of Hr with isResolved (checkMail now ?s1) = false =>
        destruct (alive_checkMail now s1 Hr) as (Hr1 & Ht1 & _) end.
      fields_in Hr1. unfold teardowns in *.
      cbn [sent checkInterval set_checkInterval]. rewrite Ht1. fields.
      repeat split; try done. intros Hn. by destruct (Hn now).
  - apply Halive, alive_checkMail.
  - apply Halive, Honce, alive_onSearch.
  - apply Halive, Honce, alive_onFallback.
  - apply Halive, alive_onHeader.
  - apply Halive, alive_onFull.
  - apply Halive, Honce, alive_onBoxes.
  - apply Halive, Honce, alive_onBoxClosed.
  - apply Halive, Honce, alive_onJunkOpened.
  - apply Halive, Honce. unfold onError. alive.
Qed.

(** X14.  While the call is unresolved and the connection has not ended,
    [imap.end()] has not been called, and once INBOX has been opened the
    timer is armed: the deadline will be checked. *)
Theorem unresolved_session_keeps_polling es s :
  run es initial = Some s ->
  isResolved s = false ->
  EvEnd ∉ es ->
  teardowns s = 0 /\
  ((exists now, EvInboxOpened None now ∈ es) -> checkInterval s = true).
Proof.
  intros Hrun.
  set (I := fun (pre : list Event) (s : Session) =>
    isResolved s = false -> EvEnd ∉ pre ->
    teardowns s = 0 /\
    ((exists now, EvInboxOpened None now ∈ pre) -> checkInterval s = true)).
  assert (I ([] ++ es) s) as HI; [|exact HI].
  eapply (run_invariant I); [| |exact Hrun].
  - clear. unfold I. intros pre e s s' HI Hs Hr Hne.
    rewrite not_elem_of_app, list_elem_of_singleton in Hne. destruct Hne as [Hpre He].
    assert (e <> EvEnd) as He' by congruence.
    destruct (step_alive e s s' Hs He' Hr) as (Hr0 & Ht & Hc & Hc').
    destruct (HI Hr0 Hpre) as [Ht0 Hc0]. split; [lia|].
    intros (now & Hin). apply elem_of_app in Hin as [Hin|Hin].
    + assert ((exists now, e = EvInboxOpened None now) \/
              (forall now, e <> EvInboxOpened None now)) as [[now' Heq]|Hn].
      { destruct e as [|[m|] now'| | | | | | | | | | | | |];
          try (by right); left; by eexists. }
      * by eapply Hc'.
      * rewrite (Hc Hn). eauto.
    + apply list_elem_of_singleton in Hin. by eapply Hc'.
  - unfold I. intros _ _. split; [done|]. intros (now & Hin). by apply elem_of_nil in Hin.
Qed.

(** ** A mailbox list without a junk mailbox *)

Lemma junkState_onFallback_checked err results now s :
  junkBoxChecked s = true -> junkState (onFallback err results now s) = junkState s.
Proof.
  intros Hj. unfold onFallback, switchToNextBox. fields. rewrite Hj, orb_true_r.
  repeat case_match; rewrite ?junkState_processSearchResults; junk_neutral.
Qed.

Lemma spent_none s c : spent s -> c ∈ pending s -> isSwitchCallback c = false.
Proof.
  intros (_ & HB & HC & HJ) Hc. unfold isSwitchCallback.
  by rewrite (countIf_none _ _ _ HB Hc), (countIf_none _ _ _ HC Hc),
             (countIf_none _ _ _ HJ Hc).
Qed.

Lemma spent_junkState s s' : junkState s' = junkState s -> spent s -> spent s'.
Proof. unfold junkState, spent. intros [= _ _ _ -> -> -> ->]. done. Qed.

Lemma spent_step e s s' : step e s = Some s' -> spent s -> junkState s' = junkState s.
Proof.
  intros Hs Hsp. pose proof (fun c => spent_none s c Hsp) as Hnone.
  destruct Hsp as (Hj & _).
  destruct e; cbn [step] in Hs; unfold once in Hs;
    try (case_bool_decide as Hin; [|discriminate]);
    try (case_match; [|discriminate]); injection Hs as <-;
    try (by specialize (Hnone _ Hin)).
  - unfold onReady. junk_neutral. by apply junkState_consume.
  - rewrite junkState_onInboxOpened. by apply junkState_consume.
  - apply junkState_checkMail.
  - rewrite junkState_onSearch. by apply junkState_consume.
  - rewrite junkState_onFallback_checked by done. by apply junkState_consume.
  - apply junkState_onHeader.
  - unfold onFetchError. junk_neutral.
  - apply junkState_onFull.
  - unfold onFullError. junk_neutral.
  - unfold onError. junk_neutral. by apply junkState_consume.
  - unfold onEnd. junk_neutral. by apply junkState_consume.
  - junk_neutral.
Qed.

Lemma countIf_map_none (p : Command -> bool) (reqs : list (Command * option Callback)) :
  Forall (fun r => p (fst r) = false) reqs -> countIf p (map fst reqs) = 0.
Proof.
  induction 1 as [|[c cb] reqs Hr _ IH]; [done|].
  cbn in *. unfold countIf in *. cbn. by rewrite Hr.
Qed.

(** The calls of one kind: a turn adds none, if its callback makes none. *)
Lemma step_sent_count (p : Command -> bool) e s s' :
  step e s = Some s' -> asks (fun c _ => p c = false) e ->
  countIf p (sent s') = countIf p (sent s).
Proof.
  intros Hs Ha. destruct (step_effect _ e s s' Hs Ha) as (reqs & Hc & _ & HR).
  rewrite Hc, sent_before, countIf_app, (countIf_map_none p reqs) by exact HR. lia.
Qed.

(** With INBOX opened and the attempt to switch over, the current mailbox
    stays, nothing of the switch happens again and no mailbox is opened. *)
Lemma spent_run es : forall s s',
  countIf isOpening (pending s) = 0 -> spent s -> run es s = Some s' ->
  junkState s' = junkState s /\ currentBox s' = currentBox s /\ opens s' = opens s.
Proof.
  induction es as [|e es IH]; cbn [run]; intros s s' H0 Hsp Hr.
  - by injection Hr as <-.
  - destruct (step e s) as [s1|] eqn:Hs; [|discriminate].
    pose proof (spent_step _ _ _ Hs Hsp) as Hjs.
    assert (forall c, fired e = Some c -> isOpening c = false) as Hf.
    { intros c Hc. eapply countIf_none; [exact H0|]. by eapply step_fired. }
    assert (forall c, fired e = Some c -> isSwitchCallback c = false) as Hg.
    { intros c Hc. eapply spent_none; [exact Hsp|]. by eapply step_fired. }
    assert (asks (fun _ cb => forall x, cb = Some x -> isOpening x = false) e) as Ha.
    { apply asks_no_opening. intros ->. by specialize (Hf _ eq_refl). }
    pose proof (step_count isOpening e s s1 Hs Ha) as Hcount.
    assert (countIf isOpening (pending s1) = 0) as H1 by lia.
    assert (spent s1) as Hsp1 by by eapply spent_junkState.
    assert (opens s1 = opens s) as Hopens.
    { apply (step_sent_count isOpenBox e s s1 Hs). clear -Hf Hg.
      destruct e; cbn [asks]; repeat split; intros; try done.
      - by specialize (Hf _ eq_refl).
      - by specialize (Hg _ eq_refl). }
    destruct (IH _ _ H1 Hsp1 Hr) as (Hj' & Hb' & Ho'). split; [by rewrite Hj'|].
    split; [|by rewrite Ho'].
    rewrite Hb'. destruct (step_calm e s s1 Hs) as [_ [Hb|[(now & -> & _)|(j & now & -> & _)]]].
    + done.
    + by specialize (Hf _ eq_refl).
    + by specialize (Hg _ eq_refl).
Qed.

(** X15.  When the mailbox list cannot be read, or names no mailbox that
    looks like a junk mailbox, the session stays in its mailbox for the
    rest of the call: no mailbox is closed, none opened in its place, and
    the list is not asked for again. *)
Theorem no_junk_mailbox_no_switch es s0 res s1 es' s :
  run es initial = Some s0 ->
  step (EvBoxes res) s0 = Some s1 ->
  findJunkBox (listedBoxes res) = None ->
  run es' s1 = Some s ->
  currentBox s = currentBox s0 /\ attempts s = 1 /\ closes s = 0 /\ hops s = 0 /\
  opens s = opens s0 /\
  (forall c, c ∈ pending s -> isSwitchCallback c = false).
Proof.
  intros Hrun Hs Hnone Hrun'.
  pose proof (switchInv_run _ _ _ Hrun switchInv_initial) as (Ha & Hc & Hh).
  pose proof (phase_run _ _ _ Hrun phase_initial) as Hph.
  assert (OnBoxes ∈ pending s0) as Hin by by eapply step_fired.
  pose proof (countIf_consume isOnBoxes _ _ Hin) as HB.
  pose proof (countIf_consume isOnBoxClosed _ _ Hin) as HC.
  pose proof (countIf_consume isOnJunkOpen _ _ Hin) as HJ.
  pose proof (countIf_consume isOpening _ _ Hin) as HO.
  cbn [isOnBoxes isOnBoxClosed isOnJunkOpen isOpening] in *.
  assert (countIf isOpening (pending s0) = 0) as H0.
  { destruct Hph as [(_ & _ & _ & Hp)|[H0 _]]; [|done]. apply Hp in Hin. not_listed Hin. }
  assert (junkBoxChecked s0 = true) as Hj
    by (destruct (junkBoxChecked s0); [done|lia]).
  rewrite Hj in Ha.
  assert (s1 = onBoxes res (set_pending (consume OnBoxes (pending s0)) s0)) as Hs1.
  { cbn [step] in Hs. unfold once in Hs. case_bool_decide; [|done]. by injection Hs. }
  assert (spent s1 /\ countIf isOpening (pending s1) = 0 /\
          currentBox s1 = currentBox s0 /\ opens s1 = opens s0 /\
          attempts s1 = 1 /\ closes s1 = 0 /\ hops s1 = 0)
    as (Hsp & H1 & Hb1 & Ho1 & Ha1 & Hc1 & Hh1).
  { rewrite Hs1. unfold onBoxes.
    replace (match res with
             | inl message => ([], say (LogBoxListFailed message)
                                     (set_pending (consume OnBoxes (pending s0)) s0))
             | inr boxes => (extractBoxNames boxes,
                             set_pending (consume OnBoxes (pending s0)) s0)
             end)
      with (listedBoxes res,
            match res with
            | inl message => say (LogBoxListFailed message)
                               (set_pending (consume OnBoxes (pending s0)) s0)
            | inr boxes => set_pending (consume OnBoxes (pending s0)) s0
            end) by by destruct res.
    rewrite Hnone. unfold spent, opens, attempts, closes, hops in *.
    destruct res; fields; rewrite ?countIf_app, ?countIf_single;
      cbn [isSwitched]; repeat split; lia || done. }
  destruct (spent_run _ _ _ H1 Hsp Hrun') as (Hjs & Hb & Ho).
  pose proof (spent_junkState _ _ Hjs Hsp) as Hsp'.
  unfold junkState in Hjs. injection Hjs as HA' HC' HH' _ _ _ _.
  repeat split; try congruence. intros c. by apply spent_none.
Qed.

(** ** Strings *)

Lemma startsWith_spec p : forall s, startsWith p s = true <-> exists post, s = p ++ post.
Proof.
  induction p as [|a p IH]; intros s; cbn [startsWith].
  - split; [intros _; by exists s|done].
  - destruct s as [|b s].
    + split; [done|]. by intros (post & H).
    + rewrite andb_true_iff, N.eqb_eq, IH. split.
      * intros (-> & post & ->). by exists post.
      * intros (post & [= -> ->]). split; [done|by exists post].
Qed.

Lemma includes_spec sub : forall s,
  includes s sub = true <-> exists pre post, s = pre ++ sub ++ post.
Proof.
  induction s as [|c s IH]; cbn [includes]; rewrite orb_true_iff, startsWith_spec.
  - split.
    + intros [(post & H)|H]; [|done]. by exists [], post.
    + intros (pre & post & H). left. destruct pre; [by exists post|done].
  - rewrite IH. split.
    + intros [(post & H)|(pre & post & ->)]; [by exists [], post|by exists (c :: pre), post].
    + intros (pre & post & H). destruct pre as [|c' pre]; [left; by exists post|].
      right. injection H as -> ->. by exists pre, post.
Qed.

Lemma find_first {A} (p : A -> bool) l x :
  List.find p l = Some x <->
  exists before after, l = before ++ x :: after /\ p x = true /\
                       forall y, y ∈ before -> p y = false.
Proof.
  induction l as [|a l IH]; cbn [List.find].
  - split; [done|]. intros (before & after & H & _). by destruct before.
  - destruct (p a) eqn:Hp.
    + split.
      * intros [= ->]. exists [], l. repeat split; try done.
        intros y Hy. by apply elem_of_nil in Hy.
      * intros ([|b before] & after & H & Hx & Hb).
        -- by injection H as -> _.
        -- injection H as -> _. by rewrite (Hb b (list_elem_of_here _ _)) in Hp.
    + rewrite IH. split.
      * intros (before & after & -> & Hx & Hb). exists (a :: before), after.
        repeat split; try done. intros y Hy. apply elem_of_cons in Hy as [->|Hy]; auto.
      * intros ([|b before] & after & H & Hx & Hb).
        -- injection H as -> _. congruence.
        -- injection H as -> ->. exists before, after. repeat split; try done.
           intros y Hy. apply Hb. by apply list_elem_of_further.
Qed.

Lemma find_none {A} (p : A -> bool) l :
  List.find p l = None <-> forall y, y ∈ l -> p y = false.
Proof.
  induction l as [|a l IH]; cbn [List.find].
  - split; [|done]. intros _ y Hy. by apply elem_of_nil in Hy.
  - destruct (p a) eqn:Hp.
    + split; [done|]. intros H. by rewrite (H a (list_elem_of_here _ _)) in Hp.
    + rewrite IH. split.
      * intros H y Hy. apply elem_of_cons in Hy as [->|Hy]; auto.
      * intros H y Hy. apply H. by apply list_elem_of_further.
Qed.

Lemma looksLikeJunk_spec boxName :
  existsb (fun junk => includes (toLowerCase boxName) (toLowerCase junk)) junkBoxNames
    = true <-> looksLikeJunk boxName.
Proof.
  unfold looksLikeJunk. rewrite existsb_exists. split.
  - intros (junk & Hin & Hi). apply includes_spec in Hi as (pre & post & Hi).
    exists junk, pre, post. split; [by apply list_elem_of_In|done].
  - intros (junk & pre & post & Hin & Hi). exists junk.
    split; [by apply list_elem_of_In|]. apply includes_spec. eauto.
Qed.

(** X16.  The junk mailbox is the first listed name that contains, in lower
    case, one of the eight aliases in lower case; the order is that of the
    mailbox list, not of the aliases, and there is none exactly when no
    listed name contains an alias. *)
Theorem findJunkBox_first allBoxes :
  (forall junkBox,
     findJunkBox allBoxes = Some junkBox <->
     exists before after,
       allBoxes = before ++ junkBox :: after /\ looksLikeJunk junkBox /\
       forall boxName, boxName ∈ before -> ~ looksLikeJunk boxName) /\
  (findJunkBox allBoxes = None <->
   forall boxName, boxName ∈ allBoxes -> ~ looksLikeJunk boxName).
Proof.
  unfold findJunkBox. split.
  - intros junkBox. rewrite find_first. split.
    + intros (before & after & -> & Hj & Hb). exists before, after.
      split; [done|]. split; [by apply looksLikeJunk_spec|].
      intros boxName Hin Hl. apply looksLikeJunk_spec in Hl.
      by rewrite (Hb _ Hin) in Hl.
    + intros (before & after & -> & Hj & Hb). exists before, after.
      split; [done|]. split; [by apply looksLikeJunk_spec|].
      intros boxName Hin. apply not_true_is_false. intros Hl.
      by apply looksLikeJunk_spec, Hb in Hl.
  - rewrite find_none. split.
    + intros H boxName Hin Hl. apply looksLikeJunk_spec in Hl. by rewrite (H _ Hin) in Hl.
    + intros H boxName Hin. apply not_true_is_false. intros Hl.
      by apply looksLikeJunk_spec, H in Hl.
Qed.

(** ** Garbled text *)

(** A greedy star followed by nothing always matches. *)
Lemma star_total ci a st : mtch ci (Star true a) st Some <> None.
Proof.
  rewrite mtch_Star. generalize (S (length (m_rest st))). intros fuel.
  destruct fuel as [|fuel]; [done|].
  change (starLoop ci a true Some (S fuel) st) with
    (match mtch ci a st (fun st' =>
             if length (m_rest st') <? length (m_rest st)
             then starLoop ci a true Some fuel st' else None) with
     | Some res => Some res
     | None => Some st
     end).
  by case_match.
Qed.

(** [exec] finds a match exactly when the pattern matches at some index. *)
Lemma exec_from_finds ci r rest : forall pos,
  exec_from ci r pos rest <> None <->
  exists skipped rest',
    rest = skipped ++ rest' /\
    mtch ci r (MState (pos + length skipped) rest' None) Some <> None.
Proof.
  induction rest as [|c tl IH]; intros pos; cbn [exec_from].
  - destruct (mtch ci r (MState pos [] None) Some) eqn:Hm.
    + split; [|done]. intros _. exists [], []. cbn [length]. rewrite Nat.add_0_r.
      split; [done|congruence].
    + split; [done|]. intros ([|? ?] & rest' & Heq & Hn); [|done].
      cbn in Heq. subst rest'. cbn [length] in Hn. rewrite Nat.add_0_r in Hn. congruence.
  - destruct (mtch ci r (MState pos (c :: tl) None) Some) eqn:Hm.
    + split; [|done]. intros _. exists [], (c :: tl). cbn [length]. rewrite Nat.add_0_r.
      split; [done|congruence].
    + rewrite IH. split.
      * intros (skipped & rest' & -> & Hn). exists (c :: skipped), rest'.
        split; [done|]. cbn [length]. by replace (pos + S (length skipped))
          with (S pos + length skipped) by lia.
      * intros ([|c' skipped] & rest' & Heq & Hn).
        -- cbn in Heq. subst rest'. cbn [length] in Hn. rewrite Nat.add_0_r in Hn.
           congruence.
        -- injection Heq as -> ->. exists skipped, rest'. split; [done|].
           cbn [length] in Hn. by replace (S pos + length skipped)
             with (pos + S (length skipped)) by lia.
Qed.

Lemma in_items_bad c : in_items false [CChar 65533; CRange 0 31] c = isBadUnit c.
Proof.
  unfold in_items, isBadUnit, inRange. cbn [existsb in_item andb].
  rewrite !orb_false_r, (N.eqb_sym 65533 c). f_equal. unfold inRange.
  destruct (N.leb_spec 0 c); [done|lia].
Qed.

Lemma in_items_question c : in_items false [CChar 63] c = (63 =? c)%N.
Proof. unfold in_items. cbn [existsb in_item]. by rewrite orb_false_r. Qed.

Lemma forallb_same {A} (p q : A -> bool) l :
  (forall x, p x = q x) -> forallb p l = forallb q l.
Proof. intros H. induction l as [|x l IH]; [done|]. cbn. by rewrite H, IH. Qed.

Lemma hasRun_here (p : N -> bool) n t :
  hasRun p n t <->
  exists skipped rest,
    t = skipped ++ rest /\ (n <=? length rest) && forallb p (take n rest) = true.
Proof.
  split.
  - intros (pre & run & post & -> & Hlen & Hall). exists pre, (run ++ post).
    split; [done|]. rewrite andb_true_iff, Nat.leb_le, length_app.
    split; [lia|]. by rewrite take_app_length' by done.
  - intros (skipped & rest & -> & H). apply andb_true_iff in H as [Hlen Hall].
    apply Nat.leb_le in Hlen. exists skipped, (take n rest), (drop n rest).
    rewrite take_drop. split; [done|]. split; [rewrite length_take; lia|done].
Qed.

(** The pattern of [isGarbledText] matches exactly the texts with three
    bad units or five question marks in a row. *)
Lemma test_garbledPatterns t :
  test garbledPatterns t = true <-> hasRun isBadUnit 3 t \/ hasRun (N.eqb 63) 5 t.
Proof.
  unfold test, str_match, garbledPatterns. cbn [p_ci p_re].
  rewrite !hasRun_here.
  match goal with |- context [exec_from ?ci ?r 0 t] =>
    pose proof (exec_from_finds ci r t 0) as Hex;
    destruct (exec_from ci r 0 t) eqn:He end.
  - split; [|done]. intros _. destruct (proj1 Hex) as (skipped & rest & -> & Hm); [done|].
    rewrite mtch_Alt, !mtch_Seq, !mtch_Times_Cls in Hm. cbn [m_rest] in Hm.
    unfold Chr in Hm. rewrite mtch_Times_Cls in Hm. cbn [m_rest] in Hm.
    rewrite (forallb_same _ isBadUnit) in Hm
      by (intros c; cbn [xorb]; apply in_items_bad).
    rewrite (forallb_same (fun c => xorb false (in_items false [CChar 63] c)) (N.eqb 63))
      in Hm by (intros c; cbn [xorb]; apply in_items_question).
    destruct ((3 <=? length rest) && forallb isBadUnit (take 3 rest)) eqn:H3;
      [left; by exists skipped, rest|].
    destruct ((5 <=? length rest) && forallb (N.eqb 63) (take 5 rest)) eqn:H5;
      [right; by exists skipped, rest|done].
  - split; [done|]. intros H. exfalso. apply (proj2 Hex); [|done].
    assert (exists skipped rest, t = skipped ++ rest /\
              ((3 <=? length rest) && forallb isBadUnit (take 3 rest) = true \/
               (5 <=? length rest) && forallb (N.eqb 63) (take 5 rest) = true))
      as (skipped & rest & Ht & Hc)
      by (destruct H as [(sk & rest & Ht & Hc)|(sk & rest & Ht & Hc)]; eauto 6).
    exists skipped, rest. split; [done|].
    rewrite mtch_Alt, !mtch_Seq, !mtch_Times_Cls. cbn [m_rest].
    unfold Chr. rewrite mtch_Times_Cls. cbn [m_rest].
    rewrite (forallb_same _ isBadUnit) by (intros c; cbn [xorb]; apply in_items_bad).
    rewrite (forallb_same (fun c => xorb false (in_items false [CChar 63] c)) (N.eqb 63))
      by (intros c; cbn [xorb]; apply in_items_question).
    destruct ((3 <=? length rest) && forallb isBadUnit (take 3 rest)) eqn:H3.
    + pose proof (star_total false (Cls false [CChar 65533; CRange 0 31])
        (MState (0 + length skipped + 3) (drop 3 rest) None)) as Hst.
      cbn [m_pos m_cap]. by destruct (mtch _ (Star true _) _ Some).
    + destruct Hc as [Hc|Hc]; [congruence|]. rewrite Hc.
      pose proof (star_total false (Cls false [CChar 63])
        (MState (0 + length skipped + 5) (drop 5 rest) None)) as Hst.
      cbn [m_pos m_cap]. by destruct (mtch _ (Star true _) _ Some).
Qed.

(** X17.  A text is reported as garbled exactly when it has at least ten
    units and either three consecutive units that are U+FFFD or C0
    controls (line breaks and tabs among them), or five consecutive
    question marks, or more than a tenth of its units in the ranges
    U+0000..U+001F and U+007F..U+009F.  A missing text and a text of fewer
    than ten units are never reported. *)
Theorem isGarbledText_spec text :
  isGarbledText text = true <->
  exists t, text = Some t /\ 10 <= length t /\
    (hasRun isBadUnit 3 t \/ hasRun (N.eqb 63) 5 t \/
     length t < 10 * countIf nonPrintable t).
Proof.
  unfold isGarbledText. destruct text as [t|].
  - destruct (Nat.ltb_spec (length t) 10) as [Hs|Hl].
    + split; [done|]. intros (t' & [= <-] & Hlen & _). lia.
    + rewrite orb_true_iff, test_garbledPatterns, Nat.ltb_lt. unfold countIf. split.
      * intros H. exists t. split; [done|]. split; [done|].
        destruct H as [[H|H]|H]; auto.
      * intros (t' & [= <-] & _ & [H|[H|H]]); auto.
  - split; [done|]. by intros (t & H & _).
Qed.

(** ** The mailbox list *)

Lemma extractBox_head prefix name b :
  exists below, extractBox prefix name b = fullNameOf prefix name b :: below.
Proof. destruct b as [delimiter [cs|]]; cbn [extractBox fullNameOf]; eauto. Qed.

(** Every name listed for an entry extends the full name of the entry. *)
Lemma extractBox_extends : forall b prefix name n,
  n ∈ extractBox prefix name b -> exists rest, n = fullNameOf prefix name b ++ rest.
Proof.
  fix IH 1. intros [delimiter children] prefix name n.
  cbn [extractBox fullNameOf]. cbv zeta.
  set (fullName := match prefix with
                   | [] => name
                   | _ :: _ => prefix ++ (if truthy delimiter then orEmpty delimiter
                                          else js "/") ++ name
                   end).
  intros Hin. apply elem_of_cons in Hin as [->|Hin]; [exists []; by rewrite app_nil_r|].
  destruct children as [cs|]; [|by apply elem_of_nil in Hin].
  revert Hin. generalize fullName. clear fullName. intros fullName.
  induction cs as [|c cs IHcs]; intros Hin; [by apply elem_of_nil in Hin|].
  apply elem_of_app in Hin as [Hin|Hin]; [|by apply IHcs].
  apply IH in Hin as (rest & ->).
  destruct (snd c) as [d' ch']. cbn [fullNameOf].
  destruct fullName as [|x fullName'] eqn:Hf.
  - by exists ((fst c) ++ rest).
  - rewrite <- !app_assoc. cbn [app]. eexists. reflexivity.
Qed.

(** X18.  [getMailboxList] lists every top-level mailbox under its own
    name, every other name it lists extends the name of a top-level
    mailbox, and a list of mailboxes without children is listed as it is,
    in the order of the enumeration. *)
Theorem extractBoxNames_names boxes :
  (forall name b, (name, b) ∈ boxes -> name ∈ extractBoxNames boxes) /\
  (forall n, n ∈ extractBoxNames boxes ->
     exists name b rest, (name, b) ∈ boxes /\ n = name ++ rest) /\
  (forallb (fun c => childless (snd c)) boxes = true ->
   extractBoxNames boxes = map fst boxes).
Proof.
  unfold extractBoxNames. split; [|split].
  - intros name b Hin. apply list_elem_of_In, in_flat_map. exists (name, b).
    split; [by apply list_elem_of_In|]. cbn [fst snd].
    destruct (extractBox_head [] name b) as (below & ->). left. by destruct b.
  - intros n Hin. apply list_elem_of_In, in_flat_map in Hin as ([name b] & Hc & Hn).
    cbn [fst snd] in Hn. apply list_elem_of_In, extractBox_extends in Hn as (rest & ->).
    exists name, b, rest. split; [by apply list_elem_of_In|]. by destruct b.
  - induction boxes as [|[name [d [cs|]]] boxes IH]; cbn; [done|done|].
    intros H. by rewrite IH.
Qed.

(** ** Messages without a usable date *)

Lemma passesForNew_exceeds now d :
  passesForNew now d -> exceeds (emailAge now d) (2 * 60 * 1000) = false.
Proof.
  destruct d as [| |t]; cbn [passesForNew emailAge exceeds]; [done|done|].
  intros H. apply Z.ltb_ge. lia.
Qed.

Lemma quiet_finish l o s1 s2 :
  quiet s1 = quiet s2 -> quiet (finish l o s1) = quiet (finish l o s2).
Proof.
  destruct s1, s2. unfold quiet, set_logs. cbn. intros [= -> -> -> -> -> -> -> -> ->].
  unfold finish, cleanup.
  match goal with
  | |- context [MkSession ?c ?r _ _ _ ?i _ _ _ _] => destruct c, i, r, l, o; reflexivity
  end.
Qed.

Lemma quiet_processHtml parsed to s1 s2 :
  quiet s1 = quiet s2 ->
  fst (processHtml parsed to s1) = fst (processHtml parsed to s2) /\
  quiet (snd (processHtml parsed to s1)) = quiet (snd (processHtml parsed to s2)).
Proof.
  intros H. unfold processHtml.
  destruct (truthy (p_html parsed)); [|by split].
  destruct (negb _); [by split|].
  destruct (cascade patterns (orEmpty (p_html parsed))); cbn [fst snd].
  - split; [done|]. by apply quiet_finish.
  - destruct (cascade patterns (cleanHtml _)); cbn [fst snd]; [|by split].
    split; [done|]. by apply quiet_finish.
Qed.

(** X19.  The date of a message is used for the age check and nothing
    else.  A message with no date, with a date that is not a time, or
    dated less than two minutes back (or in the future) is handled as one
    without a date, which the code takes to be dated now: the header
    callback does the same, and [processEmail] returns the same and leaves
    the same session but for the date it logs. *)
Theorem date_only_gates_age parsed d now :
  passesForNew now d ->
  (forall err emailId s,
     onHeader err emailId (withDate d parsed) now s =
     onHeader err emailId (withDate NoDate parsed) now s) /\
  (forall emailId s,
     let r := processEmail (withDate d parsed) emailId now s in
     let r' := processEmail (withDate NoDate parsed) emailId now s in
     fst r = fst r' /\ quiet (snd r) = quiet (snd r')).
Proof.
  intros Hd. pose proof (passesForNew_exceeds now d Hd) as Hx.
  assert (exceeds (emailAge now NoDate) (2 * 60 * 1000) = false) as Hx0 by done.
  split.
  - intros err emailId s. unfold onHeader.
    cbn [withDate p_subject p_from p_to p_date p_text p_html p_contentType].
    by rewrite Hx, Hx0.
  - intros emailId s. cbv zeta. unfold processEmail, maxEmailAge.
    cbn [withDate p_subject p_from p_to p_date p_text p_html p_contentType].
    rewrite Hx, Hx0.
    destruct (isResolved s || has emailId s); [by split|].
    destruct (negb (isWindsurfEmail _ _)); [by split|].
    destruct (subjectMatch _); cbn [fst snd]; [split; [done|by apply quiet_finish]|].
    destruct (truthy (p_text parsed)).
    + destruct (negb (isTargetEmailBody _ _)); [by split|].
      destruct (cascade patterns (orEmpty (p_text parsed))); cbn [fst snd];
        [split; [done|by apply quiet_finish]|].
      by apply (quiet_processHtml (withDate d parsed)
                  (orEmpty (p_to parsed)) _ _).
    + by apply (quiet_processHtml (withDate d parsed) (orEmpty (p_to parsed)) _ _).
Qed.

(** ** The timer of a session that is already settled *)

(** X20.  The callback that opens INBOX arms the timer whatever the state
    of the call.  When the call was settled before (the connection had
    reported an error), or is settled by the deadline check of that very
    callback, the timer is armed on a settled call: it is not cleared by
    that settlement, and each of its ticks returns at once. *)
Theorem inbox_open_arms_timer_regardless s now s' :
  step (EvInboxOpened None now) s = Some s' ->
  checkInterval s' = true /\
  (isResolved s = true \/ (maxWaitTime < now - startTime)%Z ->
   isResolved s' = true /\
   forall now', step (EvTick now') s' = Some s').
Proof.
  intros Hs. cbn [step] in Hs. unfold once in Hs.
  case_bool_decide; [|discriminate]. injection Hs as <-.
  match goal with
  | |- checkInterval ?t = true /\ _ =>
      assert (checkInterval t = true) as Hc by done;
      assert (isResolved s = true \/ (maxWaitTime < now - startTime)%Z ->
              isResolved t = true) as Hr;
      [|revert Hc Hr; generalize t]
  end.
  - intros Hlate. cbn [isResolved set_checkInterval].
    destruct (isResolved s) eqn:Hr0.
    + unfold checkMail. fields. by rewrite Hr0.
    + destruct Hlate as [|Hlate]; [done|].
      unfold checkMail. fields. rewrite Hr0.
      destruct (Z.ltb_spec maxWaitTime (now - startTime)); [|lia].
      apply isResolved_finish.
  - intros s1 Hc Hr. split; [exact Hc|]. intros Hlate. split; [by apply Hr|].
    intros now'. cbn [step]. rewrite Hc. unfold checkMail. by rewrite (Hr Hlate).
Qed.

(** ** After the junk mailbox was asked for *)

Lemma hops_step e s s' : step e s = Some s' -> hops s <= hops s'.
Proof.
  intros Hs.
  assert (junkState s' = junkState s -> hops s <= hops s') as Hjs.
  { unfold junkState. intros [= _ _ -> _ _ _ _]. lia. }
  assert (forall c, junkState (set_pending (consume c (pending s)) s) =
                    (attempts s, closes s, hops s,
                     countIf isOnBoxes (consume c (pending s)),
                     countIf isOnBoxClosed (consume c (pending s)),
                     countIf isOnJunkOpen (consume c (pending s)),
                     junkBoxChecked s)) as Hcons by done.
  assert (forall s1 c, junkState s1 = junkState (set_pending (consume c (pending s)) s) ->
                       hops s <= hops s1) as Hjc.
  { intros s1 c. rewrite Hcons. unfold junkState. intros [= _ _ -> _ _ _ _]. lia. }
  destruct e; cbn [step] in Hs; unfold once in Hs;
    try (case_bool_decide as Hin; [|discriminate]);
    try (case_match; [|discriminate]); injection Hs as <-.
  - eapply Hjc. unfold onReady. junk_neutral.
  - eapply Hjc. apply junkState_onInboxOpened.
  - apply Hjs, junkState_checkMail.
  - eapply Hjc. apply junkState_onSearch.
  - unfold onFallback, switchToNextBox.
    repeat case_match;
      try (eapply Hjc; rewrite ?junkState_processSearchResults; by junk_neutral);
      unfold hops; fields; rewrite ?countIf_app, ?countIf_single; cbn [isSwitched]; lia.
  - apply Hjs, junkState_onHeader.
  - apply Hjs. unfold onFetchError. junk_neutral.
  - apply Hjs, junkState_onFull.
  - apply Hjs. unfold onFullError. junk_neutral.
  - unfold onBoxes. destruct res; cbv beta iota zeta; case_match;
      unfold hops; fields; rewrite ?countIf_app, ?countIf_single; cbn [isSwitched]; lia.
  - unfold onBoxClosed. case_match;
      unfold hops; fields; rewrite ?countIf_app, ?countIf_single; cbn [isSwitched]; lia.
  - unfold onJunkOpened. destruct err as [message|].
    + unfold hops; fields; rewrite ?countIf_app, ?countIf_single; cbn [isSwitched]; lia.
    + match goal with |- _ <= hops (checkMail now ?s1) =>
        pose proof (junkState_checkMail now s1) as Hcm end.
      unfold junkState in Hcm. injection Hcm as _ _ -> _ _ _ _.
      unfold hops; fields; rewrite ?countIf_app, ?countIf_single; cbn [isSwitched]; lia.
  - eapply Hjc. unfold onError. junk_neutral.
  - eapply Hjc. unfold onEnd. junk_neutral.
  - apply Hjs. junk_neutral.
Qed.

(** Until the current mailbox is replaced it is INBOX, if any. *)
Lemma inbox_until_hop es s :
  run es initial = Some s -> hops s = 0 ->
  currentBox s = None \/ currentBox s = Some INBOX.
Proof.
  intros Hrun.
  set (I := fun (pre : list Event) (s : Session) =>
    hops s = 0 -> currentBox s = None \/ currentBox s = Some INBOX).
  assert (I ([] ++ es) s) as HI; [|exact HI].
  eapply (run_invariant I); [| |exact Hrun]; unfold I.
  - clear. intros pre e s s' HI Hs Hh.
    pose proof (hops_step e s s' Hs) as Hle.
    destruct (step_calm e s s' Hs) as [_ [Hb|[(now & -> & Hb)|(j & now & -> & Hb)]]].
    + rewrite Hb. apply HI. lia.
    + by right.
    + exfalso. cbn [step] in Hs. unfold once in Hs. case_bool_decide; [|discriminate].
      injection Hs as <-. unfold onJunkOpened in Hh.
      match type of Hh with hops (checkMail now ?s1) = 0 =>
        pose proof (junkState_checkMail now s1) as Hcm end.
      unfold junkState in Hcm. injection Hcm as _ _ Hhops _ _ _ _.
      rewrite Hhops in Hh. unfold hops in Hh. fields_in Hh.
      rewrite countIf_app, countIf_single in Hh. cbn [isSwitched] in Hh. lia.
  - intros _. by left.
Qed.

(** Once the switch was attempted a mailbox is current. *)
Lemma box_when_checked es s :
  run es initial = Some s -> junkBoxChecked s = true -> is_Some (currentBox s).
Proof.
  intros Hrun.
  set (I := fun (pre : list Event) (s : Session) =>
    junkBoxChecked s = true -> is_Some (currentBox s)).
  assert (I ([] ++ es) s) as HI; [|exact HI].
  eapply (run_invariant I); [| |exact Hrun]; unfold I.
  - clear. intros pre e s s' HI Hs Hj.
    destruct (step_calm e s s' Hs) as [_ [Hb|[(now & -> & Hb)|(j & now & -> & Hb)]]];
      [|by rewrite Hb|by rewrite Hb].
    rewrite Hb. destruct (junkBoxChecked s) eqn:Hj0; [by apply HI|].
    destruct (junkBoxChecked_step _ _ _ Hs Hj0)
      as [Hf|(_ & _ & err & results & now & _ & _ & Hbox & _)]; [congruence|].
    by rewrite Hbox.
  - intros Hj. discriminate Hj.
Qed.

(** The state in which the callback of [openBox(junkBox)] finds a session,
    and leaves it. *)
Lemma junk_opened_spent es s0 junkBox err now s :
  run es initial = Some s0 ->
  step (EvJunkOpened junkBox err now) s0 = Some s ->
  currentBox s0 = Some INBOX /\ hops s0 = 0 /\ closes s0 = 1 /\ attempts s0 = 1 /\
  spent s /\ countIf isOpening (pending s) = 0 /\
  junkState s = (1, 1, match err with Some _ => 0 | None => 1 end, 0, 0, 0, true) /\
  opens s = opens s0.
Proof.
  intros Hrun Hs.
  pose proof (switchInv_run _ _ _ Hrun switchInv_initial) as (Ha & Hc & Hh).
  pose proof (phase_run _ _ _ Hrun phase_initial) as Hph.
  assert (OnJunkOpen junkBox ∈ pending s0) as Hin by by eapply step_fired.
  pose proof (countIf_consume isOnBoxes _ _ Hin) as HB.
  pose proof (countIf_consume isOnBoxClosed _ _ Hin) as HC.
  pose proof (countIf_consume isOnJunkOpen _ _ Hin) as HJ.
  cbn [isOnBoxes isOnBoxClosed isOnJunkOpen] in *.
  assert (countIf isOpening (pending s0) = 0) as H0.
  { destruct Hph as [(_ & _ & _ & Hp)|[H0 _]]; [|done]. apply Hp in Hin. not_listed Hin. }
  assert (junkBoxChecked s0 = true) as Hj
    by (destruct (junkBoxChecked s0); [done|lia]).
  rewrite Hj in Ha.
  assert (hops s0 = 0) as Hh0 by lia.
  assert (currentBox s0 = Some INBOX) as Hbox.
  { destruct (box_when_checked _ _ Hrun Hj) as [box Hb].
    destruct (inbox_until_hop _ _ Hrun Hh0) as [Hn|Hi]; congruence. }
  assert (asks (fun _ cb => forall x, cb = Some x -> isOpening x = false)
               (EvJunkOpened junkBox err now)) as Hao by by apply asks_no_opening.
  pose proof (step_count isOpening _ _ _ Hs Hao) as HcO. cbn [fired isOpening] in HcO.
  assert (forall p : Callback -> bool,
            (forall since, p (OnSearch since) = false) ->
            asks (fun _ cb => forall x, cb = Some x -> p x = false)
                 (EvJunkOpened junkBox err now)) as Hap.
  { intros p Hp. cbn [asks]. split; [done|]. intros _ x [= <-]. apply Hp. }
  pose proof (step_count isOnBoxes _ _ _ Hs (Hap _ (fun _ => eq_refl))) as HcB.
  pose proof (step_count isOnBoxClosed _ _ _ Hs (Hap _ (fun _ => eq_refl))) as HcC.
  pose proof (step_count isOnJunkOpen _ _ _ Hs (Hap _ (fun _ => eq_refl))) as HcJ.
  cbn [fired isOnBoxes isOnBoxClosed isOnJunkOpen] in *.
  assert (junkBoxChecked s = true) as Hj'.
  { destruct (evolves_step _ _ _ Hs) as (_ & Hmono & _). by apply Hmono. }
  assert (attempts s = 1 /\ closes s = 1 /\
          hops s = match err with Some _ => 0 | None => 1 end)
    as (Ha' & Hc' & Hh').
  { cbn [step] in Hs. unfold once in Hs. case_bool_decide; [|discriminate].
    injection Hs as <-. unfold onJunkOpened. destruct err as [message|].
    - unfold attempts, closes, hops in *. fields.
      rewrite ?countIf_app, ?countIf_single. cbn [isSwitched]. lia.
    - match goal with |- attempts (checkMail now ?s1) = _ /\ _ =>
        pose proof (junkState_checkMail now s1) as Hcm end.
      unfold junkState in Hcm. injection Hcm as -> -> -> _ _ _ _.
      unfold attempts, closes, hops in *. fields.
      rewrite ?countIf_app, ?countIf_single. cbn [isSwitched]. lia. }
  assert (opens s = opens s0) as Ho.
  { apply (step_sent_count isOpenBox _ _ _ Hs). cbn [asks]. split; [done|].
    by intros _. }
  repeat split; try done; try lia.
  unfold junkState. rewrite Ha', Hc', Hh', Hj'. repeat f_equal; lia.
Qed.

(** X21.  The switch to the junk mailbox is final: once the callback of
    [openBox(junkBox)] has made the junk mailbox current, it stays current
    for the rest of the call, no mailbox is opened or closed again, and
    INBOX is never searched again. *)
Theorem junk_switch_is_final es s0 junkBox now s es' s' :
  run es initial = Some s0 ->
  step (EvJunkOpened junkBox None now) s0 = Some s ->
  run es' s = Some s' ->
  currentBox s0 = Some INBOX /\ currentBox s' = Some junkBox /\
  opens s' = opens s0 /\ closes s' = 1 /\ attempts s' = 1 /\ hops s' = 1.
Proof.
  intros Hrun Hs Hrun'.
  destruct (junk_opened_spent _ _ _ _ _ _ Hrun Hs)
    as (Hbox & _ & _ & _ & Hsp & H0 & Hjs & Ho).
  destruct (spent_run _ _ _ H0 Hsp Hrun') as (Hjs' & Hb' & Ho').
  rewrite Hjs in Hjs'. unfold junkState in Hjs'. injection Hjs' as HA HC HH _ _ _ _.
  assert (currentBox s = Some junkBox) as Hb.
  { cbn [step] in Hs. unfold once in Hs. case_bool_decide; [|discriminate].
    injection Hs as <-. unfold onJunkOpened.
    match goal with |- currentBox (checkMail now ?s1) = _ =>
      destruct (calm_checkMail now s1) as [_ ->] end. done. }
  repeat split; congruence.
Qed.

(** X22.  When [openBox(junkBox)] fails, after INBOX was closed for it, the
    failure is logged and nothing else is done: INBOX stays the current
    mailbox of the session, no mailbox is ever opened again, and the switch
    is not attempted again. *)
Theorem failed_junk_open_is_not_repaired es s0 junkBox message now s es' s' :
  run es initial = Some s0 ->
  step (EvJunkOpened junkBox (Some message) now) s0 = Some s ->
  run es' s = Some s' ->
  s = say (LogOpenJunkFailed message)
        (set_pending (consume (OnJunkOpen junkBox) (pending s0)) s0) /\
  closes s0 = 1 /\ currentBox s' = Some INBOX /\
  opens s' = opens s0 /\ closes s' = 1 /\ attempts s' = 1 /\ hops s' = 0.
Proof.
  intros Hrun Hs Hrun'.
  destruct (junk_opened_spent _ _ _ _ _ _ Hrun Hs)
    as (Hbox & _ & Hc0 & _ & Hsp & H0 & Hjs & Ho).
  destruct (spent_run _ _ _ H0 Hsp Hrun') as (Hjs' & Hb' & Ho').
  rewrite Hjs in Hjs'. unfold junkState in Hjs'. injection Hjs' as HA HC HH _ _ _ _.
  assert (s = say (LogOpenJunkFailed message)
                (set_pending (consume (OnJunkOpen junkBox) (pending s0)) s0)) as Heq.
  { cbn [step] in Hs. unfold once in Hs. case_bool_decide; [|discriminate].
    by injection Hs as <-. }
  assert (currentBox s = currentBox s0) as Hb by by rewrite Heq.
  repeat split; congruence.
Qed.

(** * The seen-set, the deadline and the fetch of a tick *)

(** ** The seen-set *)

(** The full-message callback of a seen message: [processEmail] returns at
    once, and all that is left of the callback is the log line for a
    garbled HTML body. *)
Lemma onFull_seen id err fullParsed now s :
  id ∈ processedEmails s ->
  let s' := onFull id err fullParsed now s in
  settled s' = settled s /\ isResolved s' = isResolved s /\ sent s' = sent s /\
  pending s' = pending s /\ processedEmails s' = processedEmails s /\
  checkInterval s' = checkInterval s.
Proof.
  intros Hid. cbn zeta. unfold onFull.
  destruct (err || isResolved s); [done|].
  destruct (truthy (p_html fullParsed) && isGarbledText (p_html fullParsed));
    by rewrite processEmail_seen.
Qed.

(** The header callback on a header that passes and has no code in its
    subject; the seen-set is not looked at. *)
Lemma onHeader_passes emailId parsed now s :
  noId emailId = false -> isResolved s = false ->
  exceeds (emailAge now (p_date parsed)) (2 * 60 * 1000) = false ->
  isWindsurf (orEmpty (p_subject parsed)) (orEmpty (p_from parsed)) = true ->
  isTargetEmail (orEmpty (p_to parsed)) = true ->
  subjectMatch (orEmpty (p_subject parsed)) = None ->
  let s' := onHeader false emailId parsed now s in
  sent s' = sent s ++ [CmdFetchFull (default 0%N emailId)] /\
  pending s' = pending s ++ [OnFull (default 0%N emailId)] /\
  settled s' = settled s /\ processedEmails s' = processedEmails s.
Proof.
  intros Hid Hr Hage Hw Ht Hm. cbn zeta. unfold onHeader.
  rewrite Hid, Hr. cbn [orb]. by rewrite Hage, Hw, Ht, Hm.
Qed.

(** C8.  The seen-set only grows along a run, so an identifier stays in
    it once added.  For an identifier in it, [processSearchResults] filters
    it out of the headers it asks for, no callback of a poll (the tick and
    the searches it starts) sends a fetch for it, [processEmail] returns at
    once and changes nothing, and so the full-message callback settles
    nothing, sends nothing, awaits nothing and leaves the seen-set and the
    timer as they are.  The header callback is where the code falls short:
    unlike [processEmail] it does not test the seen-set, and when the
    header of a seen identifier arrives (from a fetch asked for before the
    identifier was marked), passes the checks and has no code in its
    subject, the full message is fetched once more. *)
Theorem seen_is_skipped id s :
  id ∈ processedEmails s ->
  (forall es s', run es s = Some s' ->
     processedEmails s ⊆ processedEmails s' /\ id ∈ processedEmails s') /\
  (forall parsed now, processEmail parsed id now s = (false, s)) /\
  (forall results,
     let s' := processSearchResults results s in
     s' = s \/
     exists ids, (id ∉ ids) /\ sent s' = sent s ++ [CmdFetchHeaders ids] /\
                 pending s' = pending s ++ [OnHeaders ids]) /\
  (forall e s', isPoll e = true -> step e s = Some s' ->
     exists new, sent s' = sent s ++ new /\ forall c, c ∈ new -> ~ fetches id c) /\
  (forall err fullParsed now s',
     step (EvFull id err fullParsed now) s = Some s' ->
     settled s' = settled s /\ isResolved s' = isResolved s /\ sent s' = sent s /\
     pending s' = pending s /\ processedEmails s' = processedEmails s /\
     checkInterval s' = checkInterval s) /\
  (forall emailId parsed now s',
     step (EvHeader false emailId parsed now) s = Some s' ->
     noId emailId = false -> default 0%N emailId = id -> isResolved s = false ->
     exceeds (emailAge now (p_date parsed)) (2 * 60 * 1000) = false ->
     isWindsurf (orEmpty (p_subject parsed)) (orEmpty (p_from parsed)) = true ->
     isTargetEmail (orEmpty (p_to parsed)) = true ->
     subjectMatch (orEmpty (p_subject parsed)) = None ->
     sent s' = sent s ++ [CmdFetchFull id] /\ pending s' = pending s ++ [OnFull id] /\
     settled s' = settled s /\ processedEmails s' = processedEmails s).
Proof.
  intros Hid. split; [|split; [|split; [|split; [|split]]]].
  - intros es s' Hrun. destruct (evolves_run _ _ _ Hrun) as (Hsub & _).
    split; [exact Hsub|]. by apply Hsub.
  - intros parsed now. by apply processEmail_seen.
  - intros results. cbn zeta.
    destruct (processSearchResults_cases results s) as [[_ Hs]|[_ Hs]]; cbn zeta in Hs.
    + by left.
    + right. destruct Hs as (Hsent & Hpend & _). eexists. split; [|split; eauto].
      intros Hin. apply newestTen_elem_of in Hin. unfold unseen in Hin.
      apply list_elem_of_filter in Hin as [Hn _]. by apply Hn.
  - intros e s' He Hs. by eapply poll_skips_seen.
  - intros err fullParsed now s' Hs. cbn [step] in Hs.
    case_bool_decide; [|discriminate]. injection Hs as <-. by apply onFull_seen.
  - intros emailId parsed now s' Hs Hno <- Hr Hage Hw Ht Hm. cbn [step] in Hs.
    destruct (headerAwaited emailId (pending s)); [|discriminate]. injection Hs as <-.
    by apply onHeader_passes.
Qed.

(** ** The deadline *)

(** The callback of a failed fallback search. *)
Lemma onFallback_failed message results now s :
  onFallback (Some message) results now s =
  let s1 := say (LogFallbackCount (resultsLength results)) s in
  if bool_decide (currentBox s = Some INBOX) && negb (junkBoxChecked s) &&
     (30000 <? now - startTime)%Z
  then switchToNextBox s1 else s1.
Proof.
  unfold onFallback. cbn [bool_decide decide_rel is_Some_dec orb].
  fields. by repeat case_match.
Qed.

(** From the opening of INBOX on, the timer of an unresolved call is armed
    for as long as the connection has not ended. *)
Lemma timer_armed es s :
  run es initial = Some s ->
  isResolved s = false ->
  EvEnd ∉ es ->
  (exists now, EvInboxOpened None now ∈ es) ->
  checkInterval s = true.
Proof.
  intros Hrun.
  set (I := fun (pre : list Event) (s : Session) =>
    isResolved s = false -> EvEnd ∉ pre ->
    (exists now, EvInboxOpened None now ∈ pre) -> checkInterval s = true).
  assert (I ([] ++ es) s) as HI; [|exact HI].
  eapply (run_invariant I); [| |exact Hrun].
  - clear. unfold I. intros pre e s s' HI Hs Hr Hne.
    rewrite not_elem_of_app, list_elem_of_singleton in Hne. destruct Hne as [Hpre He].
    assert (e <> EvEnd) as He' by congruence.
    destruct (step_alive e s s' Hs He' Hr) as (Hr0 & _ & Hc & Hc').
    intros (now & Hin). apply elem_of_app in Hin as [Hin|Hin].
    + assert ((exists now, e = EvInboxOpened None now) \/
              (forall now, e <> EvInboxOpened None now)) as [[now' Heq]|Hn].
      { destruct e as [|[m|] now'| | | | | | | | | | | | |];
          try (by right); left; by eexists. }
      * by eapply Hc'.
      * rewrite (Hc Hn). eauto.
    + apply list_elem_of_singleton in Hin. by eapply Hc'.
  - unfold I. intros _ _ (now & Hin). by apply elem_of_nil in Hin.
Qed.

(** With the timer cleared and nothing awaited but the connection's events
    and the fetches, no turn of the event loop arms the timer, awaits
    anything else or rejects with the timeout error. *)
Lemma stranded_step e s s' :
  step e s = Some s' ->
  checkInterval s = false ->
  (forall c, c ∈ pending s -> idle c = true) ->
  checkInterval s' = false /\
  (forall c, c ∈ pending s' -> idle c = true) /\
  (Rejected TimeoutError ∈ settled s' -> Rejected TimeoutError ∈ settled s).
Proof.
  intros Hs Hci Hidle.
  assert (forall c, fired e = Some c -> idle c = true) as Hf.
  { intros c Hc. apply Hidle. by eapply step_fired. }
  assert (forall now, e <> EvTick now) as Htick.
  { intros now ->. cbn [step] in Hs. by rewrite Hci in Hs. }
  split; [|split].
  - destruct (step_calm e s s' Hs) as [[H|(now & -> & _)] _].
    + destruct (checkInterval s'); [|done]. by rewrite H in Hci.
    + by specialize (Hf OnInboxOpen eq_refl).
  - set (R := fun (c : Command) (cb : option Callback) =>
                forall x, cb = Some x -> idle x = true).
    assert (asks R e) as Ha.
    { destruct e; try (by specialize (Hf _ eq_refl)); try (by destruct (Htick now));
        cbn [asks]; unfold R; repeat split; intros; eqs; done. }
    destruct (step_asks R e s s' Hs Ha) as (_ & _ & Hp).
    intros c Hc. destruct (Hp c Hc) as [H|(cmd & _ & HR)]; [by apply Hidle|by apply HR].
  - intros Ho. destruct (step_cause e s s' Hs) as [Hsame|(o & Hadd & Hc)].
    + by rewrite <- Hsame.
    + rewrite Hadd in Ho. apply elem_of_app in Ho as [Ho|Ho]; [done|].
      apply list_elem_of_singleton in Ho. subst o. exfalso.
      destruct e as [|[message|] now|now| | |err emailId parsed now| |
                     emailId err fullParsed now| | | |junkBox [message|] now|message| |];
        cbn [cause] in Hc; try done.
      * by specialize (Hf _ eq_refl).
      * by destruct (Htick now).
      * by destruct Hc as (_ & _ & _ & _ & _ & m & _ & ?).
      * by destruct Hc as (_ & _ & _ & m & _ & ?).
      * by specialize (Hf _ eq_refl).
Qed.

Lemma stranded_run es : forall s s',
  run es s = Some s' ->
  checkInterval s = false ->
  (forall c, c ∈ pending s -> idle c = true) ->
  checkInterval s' = false /\
  (Rejected TimeoutError ∈ settled s' -> Rejected TimeoutError ∈ settled s).
Proof.
  induction es as [|e es IH]; cbn [run]; intros s s' Hr Hci Hidle.
  - by injection Hr as <-.
  - destruct (step e s) as [s1|] eqn:Hs; [|discriminate].
    destruct (stranded_step e s s1 Hs Hci Hidle) as (Hci1 & Hidle1 & Ho1).
    destruct (IH s1 s' Hr Hci1 Hidle1) as (Hci' & Ho'). auto.
Qed.

(** C9 (as amended).  A search or a fetch that fails settles nothing and
    leaves the timer alone.  A failed UNSEEN search only logs the error, a
    failed header fetch only logs it, a failed full fetch logs it and
    marks the message seen.  A failed fallback search is handled as one
    that found nothing: its error is not logged, and in INBOX, more than
    30 s after the start and before any switch, it starts the switch to
    the junk mailbox.  The deadline is measured from the [startTime] read
    on entry, whatever happened since: [checkMail] in a session not yet
    resolved rejects with the timeout error exactly when more than
    [maxWaitTime] has passed.  In a run from the start, a tick (for which
    the timer must be armed) of an unresolved call past the deadline
    rejects with the timeout error, which is then the only outcome; and
    the timer is armed whenever INBOX was opened in the run, the call is
    unresolved and the connection has not ended. *)
Theorem failures_end_in_timeout :
  (forall s s' since message results,
     step (EvSearch since (Some message) results) s = Some s' ->
     s' = say (LogSearchFailed message)
            (set_pending (consume (OnSearch since) (pending s)) s)) /\
  (forall s s' message,
     step (EvFetchError message) s = Some s' -> s' = say (LogFetchFailed message) s) /\
  (forall s s' emailId message,
     step (EvFullError emailId message) s = Some s' ->
     s' = add emailId (say (LogFullFetchFailed message) s)) /\
  (forall e s s',
     isTransientFailure e = true -> step e s = Some s' ->
     settled s' = settled s /\ isResolved s' = isResolved s /\
     checkInterval s' = checkInterval s) /\
  (forall s now,
     isResolved s = false -> (now - startTime <= maxWaitTime)%Z ->
     settled (checkMail now s) = settled s /\ isResolved (checkMail now s) = false) /\
  (forall s now,
     isResolved s = false -> (maxWaitTime < now - startTime)%Z ->
     settled (checkMail now s) = settled s ++ [Rejected TimeoutError] /\
     isResolved (checkMail now s) = true /\
     checkInterval (checkMail now s) = false) /\
  (forall es s now,
     run es initial = Some s -> isResolved s = false -> checkInterval s = true ->
     (maxWaitTime < now - startTime)%Z ->
     exists s', step (EvTick now) s = Some s' /\
                settled s' = [Rejected TimeoutError] /\ isResolved s' = true) /\
  (forall es s now,
     run es initial = Some s -> isResolved s = false ->
     (exists now0, EvInboxOpened None now0 ∈ es) -> EvEnd ∉ es ->
     (maxWaitTime < now - startTime)%Z ->
     checkInterval s = true /\
     exists s', step (EvTick now) s = Some s' /\
                settled s' = [Rejected TimeoutError] /\ isResolved s' = true) /\
  (forall s s' message results now,
     step (EvFallback (Some message) results now) s = Some s' ->
     let s1 := say (LogFallbackCount (resultsLength results))
                 (set_pending (consume OnFallback (pending s)) s) in
     s' = if bool_decide (currentBox s = Some INBOX) && negb (junkBoxChecked s) &&
             (30000 <? now - startTime)%Z
          then switchToNextBox s1 else s1) /\
  (forall s s' message results now,
     step (EvFallback (Some message) results now) s = Some s' ->
     isResolved s = false -> currentBox s = Some INBOX -> junkBoxChecked s = false ->
     (30000 < now - startTime)%Z ->
     sent s' = sent s ++ [CmdGetBoxes] /\ junkBoxChecked s' = true /\
     logs s' = logs s ++ [LogFallbackCount (resultsLength results); LogTryJunk]).
Proof.
  assert (forall es s now,
     run es initial = Some s -> isResolved s = false -> checkInterval s = true ->
     (maxWaitTime < now - startTime)%Z ->
     exists s', step (EvTick now) s = Some s' /\
                settled s' = [Rejected TimeoutError] /\ isResolved s' = true) as Htick.
  { intros es s now Hrun Hr Hc Hd. exists (checkMail now s).
    split; [simpl; by rewrite Hc|].
    destruct (checkMail_deadline now s Hr Hd) as (Hs & Hr' & _).
    split; [|exact Hr'].
    destruct (settledOnce_reachable s) as [[_ Hnil]|[Ht _]]; [by exists es| |congruence].
    by rewrite Hs, Hnil. }
  assert (forall s s' message results now,
     step (EvFallback (Some message) results now) s = Some s' ->
     let s1 := say (LogFallbackCount (resultsLength results))
                 (set_pending (consume OnFallback (pending s)) s) in
     s' = if bool_decide (currentBox s = Some INBOX) && negb (junkBoxChecked s) &&
             (30000 <? now - startTime)%Z
          then switchToNextBox s1 else s1) as Hfall.
  { intros s s' message results now Hs. cbn [step] in Hs. unfold once in Hs.
    case_bool_decide; [|discriminate]. injection Hs as <-.
    by rewrite onFallback_failed. }
  split; [|split; [|split; [|split; [|split; [|split; [|split; [|split; [|split]]]]]]]].
  - intros s s' since message results Hs. simpl in Hs. unfold once in Hs.
    case_bool_decide; [|discriminate]. by injection Hs as <-.
  - intros s s' message Hs. simpl in Hs.
    case_match; [|discriminate]. by injection Hs as <-.
  - intros s s' emailId message Hs. simpl in Hs.
    case_match; [|discriminate]. by injection Hs as <-.
  - intros e s s'. apply transient_keeps.
  - intros s now Hr Hd. destruct (checkMail_before now s Hd) as (H1 & H2 & _).
    split; [exact H1|]. by rewrite H2.
  - intros s now Hr Hd. destruct (checkMail_deadline now s Hr Hd) as (H1 & H2 & H3 & _).
    done.
  - exact Htick.
  - intros es s now Hrun Hr Hop Hend Hd.
    assert (checkInterval s = true) as Hc by by eapply timer_armed.
    split; [exact Hc|]. by eapply Htick.
  - exact Hfall.
  - intros s s' message results now Hs Hr Hb Hj Hd.
    rewrite (Hfall _ _ _ _ _ Hs). cbn zeta.
    rewrite bool_decide_eq_true_2 by done. rewrite Hj.
    apply Z.ltb_lt in Hd. rewrite Hd. cbn [negb andb].
    unfold switchToNextBox. fields. rewrite Hr, Hj. cbn [orb]. fields.
    by rewrite <- app_assoc.
Qed.

(** ** The fetch of one tick *)

(** The sorted list falls into the ten that are asked for and the rest. *)
Lemma newestTen_split l :
  newestTen l ++ drop 10 (merge_sort newerFirst l) ≡ₚ l /\
  forall x y, x ∈ newestTen l -> y ∈ drop 10 (merge_sort newerFirst l) -> (y <= x)%N.
Proof.
  unfold newestTen. split.
  - rewrite take_drop. apply merge_sort_Permutation.
  - intros x y Hx Hy.
    pose proof (StronglySorted_merge_sort newerFirst l) as Hs.
    rewrite <- (take_drop 10 (merge_sort newerFirst l)) in Hs.
    exact (StronglySorted_app_1_elem_of _ _ _ _ _ Hs Hx Hy).
Qed.

Lemma headerAwaited_app id ids cs :
  id ∈ ids -> headerAwaited (Some id) (cs ++ [OnHeaders ids]) = true.
Proof.
  intros Hid. unfold headerAwaited. rewrite existsb_app. cbn [existsb].
  by rewrite bool_decide_eq_true_2, orb_true_r.
Qed.

(** C10 (as amended).  The header fetch of a tick asks for at most ten
    identifiers: the first ten of the search results not yet seen, sorted
    from the largest down, each as often as the search returned it.  They
    are listed in the request from the largest down, every unseen search
    result left out is no larger than any asked for, and ten are asked for
    whenever ten or more are unseen; when no result is unseen nothing is
    fetched.  The request fixes no order of handling: once it is made, the
    header callback of any identifier in it can be the next to run. *)
Theorem fetch_newest_ten results s :
  let s' := processSearchResults results s in
  let new := unseen s results in
  (new = [] -> s' = s) /\
  (new <> [] ->
   exists ids rest,
     sent s' = sent s ++ [CmdFetchHeaders ids] /\
     pending s' = pending s ++ [OnHeaders ids] /\
     ids ++ rest ≡ₚ new /\
     length ids = Nat.min 10 (length new) /\
     StronglySorted (fun a b => (b <= a)%N) ids /\
     (forall x y, x ∈ ids -> y ∈ rest -> (y <= x)%N) /\
     (forall x, x ∈ ids -> x ∈ results /\ x ∉ processedEmails s) /\
     (forall x y, x ∈ ids -> y ∈ results -> y ∉ processedEmails s ->
                  y ∉ ids -> (y <= x)%N) /\
     (forall id err parsed now,
        id ∈ ids ->
        step (EvHeader err (Some id) parsed now) s'
        = Some (onHeader err (Some id) parsed now s'))).
Proof.
  cbn zeta.
  destruct (processSearchResults_cases results s) as [[Hu Hs]|[Hu Hs]]; cbn zeta in Hs.
  - split; [done|]. intros Hne. by destruct Hne.
  - split; [intros Hnil; by destruct Hu|]. intros _.
    destruct Hs as (Hsent & Hpend & _).
    destruct (newestTen_split (unseen s results)) as (Hperm & Hrest).
    exists (newestTen (unseen s results)),
           (drop 10 (merge_sort newerFirst (unseen s results))).
    split; [exact Hsent|]. split; [exact Hpend|]. split; [exact Hperm|].
    split; [apply newestTen_length|]. split; [apply newestTen_sorted|].
    split; [exact Hrest|]. split; [|split].
    + intros x Hx. apply newestTen_elem_of in Hx.
      unfold unseen in Hx. by apply list_elem_of_filter in Hx as [? ?].
    + intros x y Hx Hy Hyp Hny. eapply newestTen_newest; [exact Hx| |exact Hny].
      unfold unseen. by apply list_elem_of_filter.
    + intros id err parsed now Hid. cbn [step].
      by rewrite Hpend, headerAwaited_app.
Qed.

End GetVerificationCode.

(** * Concrete sessions *)

(** [toLowerCase] on text inside Basic Latin. *)
Definition asciiLower (s : jsstring) : jsstring := List.map lowerLatin s.

Module Sample.
Definition target : jsstring := js "user@qq.com".
Definition maxWait : Z := 120000.
Definition start : Z := 0.

Abbreviation step' := (step asciiLower target maxWait start).
Abbreviation run' := (run asciiLower target maxWait start).
Abbreviation init := (initial target).

(** The session a run ends in. *)
Definition after (es : list Event) : Session := default init (run' es init).

(** A message with headers only. *)
Definition header (subject from to : string) (sentAt : Z) : Parsed :=
  MkParsed (Some (js subject)) (Some (js from)) (Some (js to)) (DateMs sentAt)
           None None None.

(** A message with a plain-text body. *)
Definition mail (subject from to : string) (sentAt : Z) (text : string) : Parsed :=
  MkParsed (Some (js subject)) (Some (js from)) (Some (js to)) (DateMs sentAt)
           (Some (js text)) None (Some (js "text/plain")).

(** Connected, INBOX open at 1 s, the first search under way. *)
Definition opened : list Event :=
  [EvReady; EvConn Authenticated; EvInboxOpened None 1000].

(** The first search finds messages 7, 3 and 9; the header of message 9
    carries the code in its subject. *)
Definition resolvedBySubject : list Event :=
  opened ++
  [EvSearch (-299000) None (Some [7; 3; 9]%N);
   EvHeader false (Some 9%N)
     (header "Your Windsurf code 482913" "noreply@windsurf.com" "user@qq.com" 900)
     1500].
End Sample.

(** ** The scenarios of the specification *)

Example subject_scenario :
  settled (Sample.after Sample.resolvedBySubject) = [Resolved (Some (js "482913"))] /\
  sent (Sample.after Sample.resolvedBySubject) =
    [CmdConnect; CmdOpenBox INBOX; CmdSearch true (-299000);
     CmdFetchHeaders [9; 7; 3]%N; CmdEnd].
Proof. vm_compute. split; reflexivity. Qed.

Example body_scenario :
  settled (Sample.after
    (Sample.opened ++
     [EvSearch (-299000) None (Some [4]%N);
      EvHeader false (Some 4%N)
        (Sample.header "Welcome to Windsurf" "noreply@windsurf.com" "user@qq.com" 900)
        1500;
      EvFull 4 false
        (Sample.mail "Welcome to Windsurf" "noreply@windsurf.com" "user@qq.com" 900
                     "Your verification code: 7Q3K9Z")
        1800]))
  = [Resolved (Some (js "7Q3K9Z"))].
Proof. vm_compute. reflexivity. Qed.

Example junk_scenario :
  let s := Sample.after
    (Sample.opened ++
     [EvSearch (-299000) None (Some []);
      EvFallback None (Some []) 1100;
      EvTick 35000;
      EvSearch (-265000) None (Some []);
      EvFallback None (Some []) 35100;
      EvBoxes (inr [(js "INBOX", MkBox (Some (js "/")) None);
                    (js "Sent", MkBox (Some (js "/")) None);
                    (js "Deleted Messages", MkBox (Some (js "/")) None)]);
      EvBoxClosed (js "Deleted Messages") None;
      EvJunkOpened (js "Deleted Messages") None 35300;
      EvSearch (-264700) None (Some [2]%N);
      EvHeader false (Some 2%N)
        (Sample.header "Windsurf - 112233" "noreply@windsurf.com" "user@qq.com" 35000)
        35400]) in
  currentBox s = Some (js "Deleted Messages") /\
  settled s = [Resolved (Some (js "112233"))] /\ attempts s = 1 /\ hops s = 1.
Proof. vm_compute. repeat split; reflexivity. Qed.

Example timeout_scenario :
  let s := Sample.after
    (Sample.opened ++
     [EvSearch (-299000) (Some (js "timed out")) None;
      EvTick 3000;
      EvSearch (-297000) (Some (js "timed out")) None;
      EvTick 120001]) in
  settled s = [Rejected TimeoutError] /\ teardowns s = 1 /\ checkInterval s = false.
Proof. vm_compute. repeat split; reflexivity. Qed.

Example cascade_labelled :
  group1 <$> cascade patterns (js "Your verification code: 7Q3K9Z")
  = Some (Some (js "7Q3K9Z")).
Proof. vm_compute. reflexivity. Qed.

Example cascade_vendor :
  group1 <$> cascade patterns (js "Please enter the following 6-digit code:  482913 now")
  = Some (Some (js "482913")).
Proof. vm_compute. reflexivity. Qed.

Example cascade_none : cascade patterns (js "nothing to see 12345 here") = None.
Proof. vm_compute. reflexivity. Qed.

Example cleanHtml_entities :
  cleanHtml (js "<p>Code:&nbsp;<b>&#49;23456</b></p><style>x</style> ")
  = js "Code: 123456".
Proof. vm_compute. reflexivity. Qed.

Example junk_box_found :
  findJunkBox asciiLower [js "INBOX"; js "Sent"; js "Deleted Messages"]
  = Some (js "Deleted Messages").
Proof. vm_compute. reflexivity. Qed.

Example box_names :
  extractBoxNames
    [(js "INBOX", MkBox (Some (js ".")) (Some [(js "Junk", MkBox (Some (js ".")) None)]));
     (js "Sent", MkBox None None)]
  = [js "INBOX"; js "INBOX.Junk"; js "Sent"].
Proof. vm_compute. reflexivity. Qed.

(** ** Exactly-once resolution, on a run *)

Lemma resolution_is_final_witness :
  let s := Sample.after Sample.resolvedBySubject in
  Sample.run' Sample.resolvedBySubject Sample.init = Some s /\
  length (settled s) <= 1 /\
  (isResolved s = true <-> settled s <> []) /\
  forall e s', isResolved s = true -> Sample.step' e s = Some s' ->
    settled s' = settled s /\ isResolved s' = true /\
    (isFetchOrSearch e = true ->
       teardowns s' = teardowns s /\ checkInterval s' = checkInterval s) /\
    (forall message, e = EvError message ->
       checkInterval s' = false /\
       teardowns s' =
         teardowns s + (if decide (imapState s = Disconnected) then 0 else 1)).
Proof.
  cbn zeta.
  assert (Sample.run' Sample.resolvedBySubject Sample.init
          = Some (Sample.after Sample.resolvedBySubject)) as Hrun
    by (vm_compute; reflexivity).
  split; [exact Hrun|].
  exact (resolution_is_final asciiLower Sample.target Sample.maxWait Sample.start
           Sample.resolvedBySubject (Sample.after Sample.resolvedBySubject) Hrun).
Defined.

(** C1, as stated, fails.  The session is resolved from the subject of
    message 9, which calls [imap.end()]; the connection then reports an
    error while [imap.state] is still ['authenticated'].  The handler runs
    [cleanup] before it looks at [isResolved], and [imap.end()] is called a
    second time.  The outcome is not touched. *)
Lemma late_error_ends_twice :
  let s := Sample.after Sample.resolvedBySubject in
  let e := EvError (js "read ECONNRESET") in
  let s' := Sample.after (Sample.resolvedBySubject ++ [e]) in
  Sample.run' Sample.resolvedBySubject Sample.init = Some s /\
  isResolved s = true /\
  Sample.step' e s = Some s' /\
  settled s' = settled s /\
  teardowns s = 1 /\ teardowns s' = 2.
Proof. vm_compute. repeat split; reflexivity. Qed.

(** ** The subject fast path, on a subject *)

Lemma subject_fast_path_witness :
  let pre := js "Your Windsurf code " in
  let d := js "482913" in
  sixDigits d = true /\ leftOk pre = true /\ rightOk [] = true /\
  exists pre0 d0 post0,
    pre0 ++ d0 ++ post0 = pre ++ d ++ [] /\
    length pre0 <= length pre /\
    (length pre0 = length pre -> d0 = d) /\
    group1 <$> subjectMatch (pre ++ d ++ []) = Some (Some d0).
Proof.
  cbn zeta.
  assert (sixDigits (js "482913") = true) as H1 by reflexivity.
  assert (leftOk (js "Your Windsurf code ") = true) as H2 by reflexivity.
  assert (rightOk [] = true) as H3 by reflexivity.
  split; [exact H1|]. split; [exact H2|]. split; [exact H3|].
  destruct (subject_fast_path asciiLower Sample.target _ _ _ H1 H2 H3)
    as (pre0 & d0 & post0 & Heq & _ & _ & _ & Hlen & Hsame & Hm & _).
  exists pre0, d0, post0. auto.
Defined.

(** C2, as stated, fails.  In the subject "482913: your Windsurf code" the
    six digits stand between the start of the subject and a colon, both of
    them flanks the claim allows, and the subject pattern does not match:
    its right flank is [[\s\-]], without the colon.  The header passes the
    other checks, so the header callback asks for the full message instead
    of resolving. *)
Lemma colon_after_digits_is_no_match :
  let d := js "482913" in
  let post := js ": your Windsurf code" in
  let s := Sample.after
    (Sample.opened ++
     [EvSearch (-299000) None (Some [9]%N);
      EvHeader false (Some 9%N)
        (Sample.header "482913: your Windsurf code" "noreply@windsurf.com"
                       "user@qq.com" 900) 1500]) in
  sixDigits d = true /\ leftOk [] = true /\ head post = Some 58%N /\
  leftFlank 58 = true /\
  subjectMatch ([] ++ d ++ post) = None /\
  settled s = [] /\ isResolved s = false /\
  last (sent s) = Some (CmdFetchFull 9).
Proof. vm_compute. repeat split; reflexivity. Qed.

(** ** The switch to the junk mailbox, on a run *)

Module JunkRun.
(** Both searches come back empty at 1 s and again at 35 s. *)
Definition emptyInbox : list Event :=
  Sample.opened ++
  [EvSearch (-299000) None (Some []);
   EvFallback None (Some []) 1100;
   EvTick 35000;
   EvSearch (-265000) None (Some []);
   EvFallback None (Some []) 35100].

(** An unread message from someone else sits in INBOX: its header is
    read at 1.5 s, and the search of the tick at 35 s finds it again. *)
Definition otherMail : list Event :=
  Sample.opened ++
  [EvSearch (-299000) None (Some [5]%N);
   EvHeader false (Some 5%N)
     (Sample.header "Lunch on Friday?" "friend@example.com" "user@qq.com" 900)
     1500].
Definition pollAt35s : list Event :=
  [EvTick 35000; EvSearch (-265000) None (Some [5]%N)].
End JunkRun.

Lemma junk_switch_once_witness :
  let s := Sample.after JunkRun.emptyInbox in
  Sample.run' JunkRun.emptyInbox Sample.init = Some s /\
  attempts s <= 1 /\ closes s <= 1 /\ hops s <= 1 /\
  (junkBoxChecked s = true <-> attempts s = 1).
Proof.
  cbn zeta.
  assert (Sample.run' JunkRun.emptyInbox Sample.init
          = Some (Sample.after JunkRun.emptyInbox)) as Hrun
    by (vm_compute; reflexivity).
  split; [exact Hrun|].
  destruct (junk_switch_once asciiLower Sample.target Sample.maxWait Sample.start
              JunkRun.emptyInbox _ Hrun) as (H1 & H2 & H3 & H4 & _).
  auto.
Defined.

(** C3, as stated, fails.  At 35 s the session has polled INBOX for more
    than 30 s, is not resolved and has not switched; the tick's search
    returns the unread message of someone else, already seen.  The switch
    lives in the branch for an empty fallback search, which is not taken:
    the poll ends with [junkBoxChecked] unset and no call of
    [getMailboxList]. *)
Lemma unread_mail_blocks_switch :
  let s := Sample.after JunkRun.otherMail in
  let s' := Sample.after (JunkRun.otherMail ++ JunkRun.pollAt35s) in
  Sample.run' JunkRun.otherMail Sample.init = Some s /\
  Sample.run' JunkRun.pollAt35s s = Some s' /\
  currentBox s = Some INBOX /\ isResolved s = false /\ junkBoxChecked s = false /\
  (30000 < 35000 - Sample.start)%Z /\
  junkBoxChecked s' = false /\ attempts s' = 0 /\
  sent s' = sent s ++ [CmdSearch true (-265000)] /\
  currentBox s' = Some INBOX /\ isResolved s' = false.
Proof. vm_compute. repeat split; reflexivity. Qed.

(** ** Provenance, on a message *)

(** The failing input of C4: the only provenance signal is the word
    "verification" in the subject.  [processEmail] would accept it; the
    header callback, which decides first, marks it seen and stops. *)
Lemma verification_only_is_dropped_witness :
  let parsed := Sample.header "Account verification" "security@example.com"
                              "user@qq.com" 900 in
  let before := Sample.after (Sample.opened ++ [EvSearch (-299000) None (Some [9]%N)]) in
  includes (asciiLower (orEmpty (p_subject parsed))) (js "verification") = true /\
  isWindsurf asciiLower (orEmpty (p_subject parsed)) (orEmpty (p_from parsed)) = false /\
  isResolved before = false /\ noId (Some 9%N) = false /\
  exceeds (emailAge 1500 (p_date parsed)) (2 * 60 * 1000) = false /\
  isWindsurfEmail asciiLower (orEmpty (p_subject parsed)) (orEmpty (p_from parsed)) = true /\
  onHeader asciiLower Sample.target false (Some 9%N) parsed 1500 before = add 9 before.
Proof.
  cbn zeta.
  set (parsed := Sample.header "Account verification" "security@example.com"
                               "user@qq.com" 900).
  set (before := Sample.after _).
  assert (includes (asciiLower (orEmpty (p_subject parsed))) (js "verification") = true)
    as H1 by reflexivity.
  assert (isWindsurf asciiLower (orEmpty (p_subject parsed)) (orEmpty (p_from parsed))
          = false) as H2 by reflexivity.
  assert (isResolved before = false) as H3 by (vm_compute; reflexivity).
  assert (noId (Some 9%N) = false) as H4 by reflexivity.
  assert (exceeds (emailAge 1500 (p_date parsed)) (2 * 60 * 1000) = false)
    as H5 by reflexivity.
  do 5 (split; [assumption|]).
  exact (verification_only_is_dropped asciiLower Sample.target parsed (Some 9%N)
           1500 before H1 H2 H3 H4 H5).
Defined.

(** The message is then never fetched in full: the run ends unresolved,
    with the message seen and no [CmdFetchFull] sent. *)
Example verification_only_run :
  let s := Sample.after
    (Sample.opened ++
     [EvSearch (-299000) None (Some [9]%N);
      EvHeader false (Some 9%N)
        (Sample.header "Account verification" "security@example.com" "user@qq.com" 900)
        1500;
      EvTick 3000;
      EvSearch (-297000) None (Some [9]%N)]) in
  settled s = [] /\ elements (processedEmails s) = [9%N] /\
  sent s = [CmdConnect; CmdOpenBox INBOX; CmdSearch true (-299000);
            CmdFetchHeaders [9%N]; CmdSearch true (-297000)].
Proof. vm_compute. repeat split; reflexivity. Qed.

(** ** The cascade, on a text *)

Module CascadeText.
Definition text : jsstring := js "order 555555 and verification code: ABC123".
End CascadeText.


(** ** The recipient check, on a run *)

Module OtherRecipient.
(** The code of somebody else's registration arrives in the shared
    mailbox. *)
Definition events : list Event :=
  Sample.opened ++
  [EvSearch (-299000) None (Some [9]%N);
   EvHeader false (Some 9%N)
     (Sample.header "Your Windsurf code 482913" "noreply@windsurf.com"
                    "someone.else@qq.com" 900) 1500].
End OtherRecipient.

Lemma other_recipient_never_resolves_witness :
  let s := Sample.after OtherRecipient.events in
  Forall (otherRecipient asciiLower Sample.target 9) OtherRecipient.events /\
  Sample.run' OtherRecipient.events Sample.init = Some s /\
  (forall err fullParsed now, Sample.step' (EvFull 9 err fullParsed now) s = None) /\
  settled s = [].
Proof.
  cbn zeta.
  assert (Forall (otherRecipient asciiLower Sample.target 9) OtherRecipient.events) as H1.
  { repeat apply Forall_cons_2; try exact I; [|apply Forall_nil_2].
    intros _. split; vm_compute; reflexivity. }
  assert (Sample.run' OtherRecipient.events Sample.init
          = Some (Sample.after OtherRecipient.events)) as H2
    by (vm_compute; reflexivity).
  split; [exact H1|]. split; [exact H2|]. split; [|vm_compute; reflexivity].
  exact (proj1 (other_recipient_never_resolves asciiLower Sample.target Sample.maxWait
                  Sample.start 9 OtherRecipient.events _ H1 H2)).
Defined.

(** ** The age check, on a message *)

Lemma stale_message_rejected_witness :
  let parsed := Sample.header "Your Windsurf code 482913" "noreply@windsurf.com"
                              "user@qq.com" 900 in
  p_date parsed = DateMs 900 /\ (2 * 60 * 1000 < 200000 - 900)%Z /\
  forall s emailId,
    isResolved s = false -> noId emailId = false ->
    onHeader asciiLower Sample.target false emailId parsed 200000 s
    = add (default 0%N emailId) s.
Proof.
  cbn zeta.
  assert ((2 * 60 * 1000 < 200000 - 900)%Z) as H2 by lia.
  split; [reflexivity|]. split; [exact H2|].
  exact (proj1 (stale_message_rejected asciiLower Sample.target
                  (Sample.header "Your Windsurf code 482913" "noreply@windsurf.com"
                                 "user@qq.com" 900)
                  200000%Z 900%Z eq_refl H2)).
Defined.

(** ** The seen-set, on a run *)

Module SeenRun.
(** The header of message 7 has no code in its subject, and neither has its
    body. *)
Definition welcome : Parsed :=
  Sample.header "Welcome to Windsurf" "noreply@windsurf.com" "user@qq.com" 900.
Definition body : Parsed :=
  Sample.mail "Welcome to Windsurf" "noreply@windsurf.com" "user@qq.com" 900
              "Thanks for signing up, user@qq.com.".

(** Two polls find message 7 before any header of it has arrived, and each
    asks for its header.  The first header to arrive passes, the full
    message is fetched, holds no code and is marked seen. *)
Definition events : list Event :=
  Sample.opened ++
  [EvSearch (-299000) None (Some [7]%N);
   EvTick 3000;
   EvSearch (-297000) None (Some [7]%N);
   EvHeader false (Some 7%N) welcome 3100;
   EvFull 7 false body 3200].

(** The header asked for by the second poll arrives. *)
Definition secondHeader : Event := EvHeader false (Some 7%N) welcome 3300.
End SeenRun.

(** The failing input of C8: message 7 is in the seen-set when the header
    that the second poll asked for arrives.  The header callback tests the
    error, the identifier and [isResolved] only: the header is classified
    again, passes, and the full message is fetched a second time. *)
Lemma seen_is_skipped_witness :
  let s := Sample.after SeenRun.events in
  let s' := Sample.after (SeenRun.events ++ [SeenRun.secondHeader]) in
  7%N ∈ processedEmails s /\
  (forall parsed now,
     processEmail asciiLower Sample.target parsed 7 now s = (false, s)) /\
  processSearchResults [7%N] s = s /\
  Sample.step' SeenRun.secondHeader s = Some s' /\
  sent s' = sent s ++ [CmdFetchFull 7] /\
  pending s' = pending s ++ [OnFull 7].
Proof.
  cbn zeta.
  assert (7%N ∈ processedEmails (Sample.after SeenRun.events)) as H1.
  { apply (bool_decide_eq_true_1 (7%N ∈ processedEmails (Sample.after SeenRun.events))).
    vm_compute. reflexivity. }
  assert (Sample.step' SeenRun.secondHeader (Sample.after SeenRun.events)
          = Some (Sample.after (SeenRun.events ++ [SeenRun.secondHeader]))) as Hs
    by (vm_compute; reflexivity).
  assert (isResolved (Sample.after SeenRun.events) = false) as Hr
    by (vm_compute; reflexivity).
  assert (exceeds (emailAge 3300 (p_date SeenRun.welcome)) (2 * 60 * 1000) = false)
    as Hage by (vm_compute; reflexivity).
  assert (isWindsurf asciiLower (orEmpty (p_subject SeenRun.welcome))
            (orEmpty (p_from SeenRun.welcome)) = true) as Hw
    by (vm_compute; reflexivity).
  assert (isTargetEmail asciiLower Sample.target (orEmpty (p_to SeenRun.welcome)) = true)
    as Ht by (vm_compute; reflexivity).
  assert (subjectMatch (orEmpty (p_subject SeenRun.welcome)) = None) as Hm
    by (vm_compute; reflexivity).
  split; [exact H1|].
  destruct (seen_is_skipped asciiLower Sample.target Sample.maxWait Sample.start
              7 _ H1) as (_ & H2 & H3 & _ & _ & H6).
  split; [exact H2|]. split; [|split; [exact Hs|]].
  - destruct (H3 [7%N]) as [H|(ids & _ & Hsent & _)]; [exact H|].
    exfalso. revert Hsent. vm_compute. intros Hsent.
    apply (f_equal (@length Command)) in Hsent. discriminate Hsent.
  - destruct (H6 (Some 7%N) SeenRun.welcome 3300%Z _ Hs eq_refl eq_refl Hr Hage Hw Ht Hm)
      as (Hsent & Hpend & _).
    split; [exact Hsent|exact Hpend].
Defined.

(** The run up to it: two polls, one header, one full message, and then
    the second header. *)
Example seen_header_is_fetched_again :
  let s := Sample.after SeenRun.events in
  let s' := Sample.after (SeenRun.events ++ [SeenRun.secondHeader]) in
  Sample.run' SeenRun.events Sample.init = Some s /\
  elements (processedEmails s) = [7%N] /\
  isResolved s = false /\
  sent s = [CmdConnect; CmdOpenBox INBOX; CmdSearch true (-299000);
            CmdFetchHeaders [7%N]; CmdSearch true (-297000);
            CmdFetchHeaders [7%N]; CmdFetchFull 7] /\
  Sample.step' SeenRun.secondHeader s = Some s' /\
  sent s' = sent s ++ [CmdFetchFull 7] /\
  pending s' = pending s ++ [OnFull 7].
Proof. vm_compute. repeat split; reflexivity. Qed.

(** ** The deadline, on a run *)

Module DeadlineRun.
(** Two searches fail; the connection stays up. *)
Definition failing : list Event :=
  Sample.opened ++
  [EvSearch (-299000) (Some (js "timed out")) None;
   EvTick 3000;
   EvSearch (-297000) (Some (js "timed out")) None].

(** INBOX has been polled without result; at 35 s the UNSEEN search of the
    tick comes back empty and the fallback search is under way. *)
Definition fallbackUnderWay : list Event :=
  Sample.opened ++
  [EvSearch (-299000) None (Some []);
   EvFallback None (Some []) 1100;
   EvTick 35000;
   EvSearch (-265000) None (Some [])].

(** The first search fails, then the server closes the connection. *)
Definition ended : list Event :=
  Sample.opened ++
  [EvSearch (-299000) (Some (js "timed out")) None; EvConn Disconnected; EvEnd].
End DeadlineRun.

Lemma failures_end_in_timeout_witness :
  let es := DeadlineRun.failing in
  let s := Sample.after es in
  Sample.run' es Sample.init = Some s /\
  isResolved s = false /\
  (exists now0, EvInboxOpened None now0 ∈ es) /\ (EvEnd ∉ es) /\
  (Sample.maxWait < 120001 - Sample.start)%Z /\
  checkInterval s = true /\
  exists s', Sample.step' (EvTick 120001) s = Some s' /\
             settled s' = [Rejected TimeoutError] /\ isResolved s' = true.
Proof.
  cbn zeta. set (es := DeadlineRun.failing).
  assert (Sample.run' es Sample.init = Some (Sample.after es)) as H1
    by (vm_compute; reflexivity).
  assert (isResolved (Sample.after es) = false) as H2 by (vm_compute; reflexivity).
  assert (exists now0, EvInboxOpened None now0 ∈ es) as H3.
  { exists 1000%Z. do 2 apply list_elem_of_further. apply list_elem_of_here. }
  assert (EvEnd ∉ es) as H4.
  { intros H. unfold es, DeadlineRun.failing, Sample.opened in H. cbn [app] in H.
    repeat (apply elem_of_cons in H as [H|H]; [discriminate H|]).
    by apply elem_of_nil in H. }
  assert ((Sample.maxWait < 120001 - Sample.start)%Z) as H5 by (vm_compute; reflexivity).
  do 5 (split; [assumption|]).
  exact (proj1 (proj2 (proj2 (proj2 (proj2 (proj2 (proj2 (proj2
           (failures_end_in_timeout asciiLower Sample.target Sample.maxWait
              Sample.start))))))))
           es _ 120001%Z H1 H2 H3 H4 H5).
Defined.

(** C9, as stated, fails, in two ways.  A fallback search that fails at
    35 s is not logged as a failure and does not leave the rest to the
    next tick: it is handled as a search that found nothing, and the
    switch to the junk mailbox starts.  And when the connection ends
    while the call is unresolved, the [end] handler clears the timer and
    settles nothing: no tick can occur any more, and whatever happens
    next, the call never fails with the timeout error. *)
Lemma failures_without_timeout :
  let s := Sample.after DeadlineRun.fallbackUnderWay in
  let e := EvFallback (Some (js "timed out")) None 35100 in
  let s' := Sample.after (DeadlineRun.fallbackUnderWay ++ [e]) in
  let t := Sample.after DeadlineRun.ended in
  (Sample.run' DeadlineRun.fallbackUnderWay Sample.init = Some s /\
   Sample.step' e s = Some s' /\
   logs s' = logs s ++ [LogFallbackCount 0; LogTryJunk] /\
   sent s' = sent s ++ [CmdGetBoxes] /\
   pending s' = [OnError; OnEnd; OnBoxes]) /\
  (Sample.run' DeadlineRun.ended Sample.init = Some t /\
   isResolved t = false /\ settled t = [] /\ checkInterval t = false /\
   teardowns t = 0 /\
   (forall now, Sample.step' (EvTick now) t = None) /\
   (forall es t', Sample.run' es t = Some t' -> Rejected TimeoutError ∉ settled t')).
Proof.
  cbn zeta. split.
  - vm_compute. repeat split; reflexivity.
  - assert (pending (Sample.after DeadlineRun.ended) = [OnError]) as Hp
      by (vm_compute; reflexivity).
    assert (checkInterval (Sample.after DeadlineRun.ended) = false) as Hc
      by (vm_compute; reflexivity).
    assert (settled (Sample.after DeadlineRun.ended) = []) as Hs
      by (vm_compute; reflexivity).
    split; [vm_compute; reflexivity|]. split; [vm_compute; reflexivity|].
    split; [exact Hs|]. split; [exact Hc|]. split; [vm_compute; reflexivity|]. split.
    + intros now. cbn [step]. by rewrite Hc.
    + intros es t' Hrun Hin.
      destruct (stranded_run asciiLower Sample.target Sample.maxWait Sample.start
                  es _ t' Hrun Hc) as (_ & Ho).
      * intros c Hin'. rewrite Hp in Hin'.
        apply list_elem_of_singleton in Hin'. by subst c.
      * apply Ho in Hin. rewrite Hs in Hin. by apply elem_of_nil in Hin.
Qed.

(** ** The fetch of one tick, on a search result *)

Lemma fetch_newest_ten_witness :
  let results := [5; 1; 12; 7; 3; 9; 2; 20; 11; 4; 6; 8; 30]%N in
  let s' := processSearchResults results Sample.init in
  unseen Sample.init results <> [] /\
  exists ids rest,
    sent s' = sent Sample.init ++ [CmdFetchHeaders ids] /\
    ids ++ rest ≡ₚ unseen Sample.init results /\
    length ids = 10.
Proof.
  cbn zeta.
  assert (unseen Sample.init [5; 1; 12; 7; 3; 9; 2; 20; 11; 4; 6; 8; 30]%N <> []) as H
    by (vm_compute; discriminate).
  split; [exact H|].
  destruct (proj2 (fetch_newest_ten asciiLower Sample.target Sample.maxWait Sample.start
                     [5; 1; 12; 7; 3; 9; 2; 20; 11; 4; 6; 8; 30]%N Sample.init) H)
    as (ids & rest & Hsent & _ & Hperm & Hlen & _).
  exists ids, rest. split; [exact Hsent|]. split; [exact Hperm|].
  rewrite Hlen. vm_compute. reflexivity.
Defined.

Example newest_ten_of_thirteen :
  sent (processSearchResults [5; 1; 12; 7; 3; 9; 2; 20; 11; 4; 6; 8; 30]%N Sample.init)
  = sent Sample.init ++ [CmdFetchHeaders [30; 20; 12; 11; 9; 8; 7; 6; 5; 4]%N].
Proof. vm_compute. reflexivity. Qed.

(** C10, as stated, fails.  The search finds messages 3 and 9 and their
    headers are asked for as [[9; 3]].  The header of message 3 is the
    first to arrive: it is classified first and its subject resolves the
    call.  The header of message 9, the newer one, arrives afterwards and
    is dropped unread. *)
Lemma older_header_handled_first :
  let es := Sample.opened ++ [EvSearch (-299000) None (Some [3; 9]%N)] in
  let s := Sample.after es in
  let older := EvHeader false (Some 3%N)
                 (Sample.header "Your Windsurf code 111111" "noreply@windsurf.com"
                                "user@qq.com" 800) 1500 in
  let newer := EvHeader false (Some 9%N)
                 (Sample.header "Your Windsurf code 999999" "noreply@windsurf.com"
                                "user@qq.com" 900) 1600 in
  let s' := Sample.after (es ++ [older]) in
  Sample.run' es Sample.init = Some s /\
  last (sent s) = Some (CmdFetchHeaders [9; 3]%N) /\
  Sample.step' older s = Some s' /\
  settled s' = [Resolved (Some (js "111111"))] /\
  elements (processedEmails s') = [3%N] /\
  Sample.step' newer s' = Some s'.
Proof. vm_compute. repeat split; reflexivity. Qed.

(** * The further properties, on concrete runs *)

Module More.
(** The run of [body_scenario]: the header of message 4 has no code in its
    subject, its body has. *)
Definition resolvedByBody : list Event :=
  Sample.opened ++
  [EvSearch (-299000) None (Some [4]%N);
   EvHeader false (Some 4%N)
     (Sample.header "Welcome to Windsurf" "noreply@windsurf.com" "user@qq.com" 900)
     1500;
   EvFull 4 false
     (Sample.mail "Welcome to Windsurf" "noreply@windsurf.com" "user@qq.com" 900
                  "Your verification code: 7Q3K9Z")
     1800].

(** A search fails and the next tick comes after the deadline. *)
Definition timedOut : list Event :=
  Sample.opened ++
  [EvSearch (-299000) (Some (js "timed out")) None; EvTick 120001].

(** INBOX is open and the first search has failed. *)
Definition waiting : list Event :=
  Sample.opened ++ [EvSearch (-299000) (Some (js "timed out")) None].

(** Both searches of the first poll come back empty. *)
Definition emptyPoll : list Event :=
  Sample.opened ++
  [EvSearch (-299000) None (Some []); EvFallback None (Some []) 1100].

(** After 30 s of empty polls the mailbox list is asked for. *)
Definition listing : list Event :=
  emptyPoll ++
  [EvTick 35000; EvSearch (-265000) None (Some []); EvFallback None (Some []) 35100].

(** A mailbox list without a junk mailbox. *)
Definition plainBoxes : jsstring + list (jsstring * Box) :=
  inr [(js "INBOX", MkBox (Some (js "/")) None);
       (js "Sent", MkBox (Some (js "/")) None)].

(** A mailbox list with the junk mailbox of QQ Mail; INBOX is closed for it. *)
Definition closedForJunk : list Event :=
  listing ++
  [EvBoxes (inr [(js "INBOX", MkBox (Some (js "/")) None);
                 (js "Sent", MkBox (Some (js "/")) None);
                 (js "Deleted Messages", MkBox (Some (js "/")) None)]);
   EvBoxClosed (js "Deleted Messages") None].
End More.

Lemma cascade_code_shape_witness :
  let text := js "Your verification code: 7Q3K9Z" in
  exists m code before after,
    cascade patterns text = Some m /\
    group1 m = Some code /\ text = before ++ code ++ after /\
    length code = 6 /\ forallb isCodeChar code = true.
Proof.
  cbn zeta.
  assert (exists m, cascade patterns (js "Your verification code: 7Q3K9Z") = Some m)
    as [m Hm] by (vm_compute; eexists; reflexivity).
  destruct (proj1 (cascade_code_shape _) m Hm) as (code & before & after & H).
  exists m, code, before, after. split; [exact Hm|exact H].
Defined.

Lemma subjectMatch_flanked_witness :
  let subject := js "Your Windsurf code 482913" in
  exists m pre d post,
    subjectMatch subject = Some m /\
    subject = pre ++ d ++ post /\ group1 m = Some d /\
    sixDigits d = true /\ leftOk pre = true /\ rightOk post = true.
Proof.
  cbn zeta.
  assert (exists m, subjectMatch (js "Your Windsurf code 482913") = Some m)
    as [m Hm] by (vm_compute; eexists; reflexivity).
  destruct (proj1 (subjectMatch_flanked _) m Hm) as (pre & d & post & H).
  exists m, pre, d, post. split; [exact Hm|exact H].
Defined.

Lemma resolved_code_shape_witness :
  let s := Sample.after Sample.resolvedBySubject in
  Sample.run' Sample.resolvedBySubject Sample.init = Some s /\
  Resolved (Some (js "482913")) ∈ settled s /\
  exists code,
    Some (js "482913") = Some code /\ length code = 6 /\
    forallb isCodeChar code = true.
Proof.
  cbn zeta.
  assert (Sample.run' Sample.resolvedBySubject Sample.init
          = Some (Sample.after Sample.resolvedBySubject)) as Hrun
    by (vm_compute; reflexivity).
  assert (settled (Sample.after Sample.resolvedBySubject)
          = [Resolved (Some (js "482913"))]) as Hs by (vm_compute; reflexivity).
  assert (Resolved (Some (js "482913")) ∈ settled (Sample.after Sample.resolvedBySubject))
    as Hin by (rewrite Hs; apply list_elem_of_here).
  split; [exact Hrun|]. split; [exact Hin|].
  exact (resolved_code_shape asciiLower Sample.target Sample.maxWait Sample.start
           _ _ _ Hrun Hin).
Defined.

Lemma timeout_only_after_deadline_witness :
  let s := Sample.after More.timedOut in
  Sample.run' More.timedOut Sample.init = Some s /\
  Rejected TimeoutError ∈ settled s /\
  exists now,
    (Sample.maxWait < now - Sample.start)%Z /\
    (EvTick now ∈ More.timedOut \/ EvInboxOpened None now ∈ More.timedOut \/
     exists junkBox, EvJunkOpened junkBox None now ∈ More.timedOut).
Proof.
  cbn zeta.
  assert (Sample.run' More.timedOut Sample.init = Some (Sample.after More.timedOut))
    as Hrun by (vm_compute; reflexivity).
  assert (settled (Sample.after More.timedOut) = [Rejected TimeoutError]) as Hs
    by (vm_compute; reflexivity).
  assert (Rejected TimeoutError ∈ settled (Sample.after More.timedOut)) as Hin
    by (rewrite Hs; apply list_elem_of_here).
  split; [exact Hrun|]. split; [exact Hin|].
  exact (timeout_only_after_deadline asciiLower Sample.target Sample.maxWait
           Sample.start _ _ Hrun Hin).
Defined.

Lemma reported_errors_were_raised_witness :
  let es := [EvError (js "read ECONNRESET")] in
  let s := Sample.after es in
  Sample.run' es Sample.init = Some s /\
  Rejected (ConnectionError (js "read ECONNRESET")) ∈ settled s /\
  EvError (js "read ECONNRESET") ∈ es.
Proof.
  cbn zeta. set (es := [EvError (js "read ECONNRESET")]).
  assert (Sample.run' es Sample.init = Some (Sample.after es)) as Hrun
    by (vm_compute; reflexivity).
  assert (settled (Sample.after es) = [Rejected (ConnectionError (js "read ECONNRESET"))])
    as Hs by (vm_compute; reflexivity).
  assert (Rejected (ConnectionError (js "read ECONNRESET")) ∈ settled (Sample.after es))
    as Hin by (rewrite Hs; apply list_elem_of_here).
  split; [exact Hrun|]. split; [exact Hin|].
  exact (proj1 (reported_errors_were_raised asciiLower Sample.target Sample.maxWait
                  Sample.start _ _ (js "read ECONNRESET") Hrun) Hin).
Defined.

Lemma code_from_fresh_vendor_mail_witness :
  let s := Sample.after More.resolvedByBody in
  let c := Some (js "7Q3K9Z") in
  Sample.run' More.resolvedByBody Sample.init = Some s /\
  Resolved c ∈ settled s /\
  exists es1 e es2 s1 s2 parsed now m,
    More.resolvedByBody = es1 ++ e :: es2 /\
    Sample.run' es1 Sample.init = Some s1 /\ Sample.step' e s1 = Some s2 /\
    settled s1 = [] /\ settled s2 = [Resolved c] /\
    ((exists emailId, e = EvHeader false emailId parsed now) \/
     (exists emailId, e = EvFull emailId false parsed now)) /\
    exceeds (emailAge now (p_date parsed)) maxEmailAge = false /\
    isWindsurfEmail asciiLower (orEmpty (p_subject parsed)) (orEmpty (p_from parsed))
      = true /\
    extracted asciiLower Sample.target parsed m /\ c = group1 m.
Proof.
  cbn zeta.
  assert (Sample.run' More.resolvedByBody Sample.init
          = Some (Sample.after More.resolvedByBody)) as Hrun
    by (vm_compute; reflexivity).
  assert (settled (Sample.after More.resolvedByBody)
          = [Resolved (Some (js "7Q3K9Z"))]) as Hs by (vm_compute; reflexivity).
  assert (Resolved (Some (js "7Q3K9Z")) ∈ settled (Sample.after More.resolvedByBody))
    as Hin by (rewrite Hs; apply list_elem_of_here).
  split; [exact Hrun|]. split; [exact Hin|].
  exact (code_from_fresh_vendor_mail asciiLower Sample.target Sample.maxWait
           Sample.start _ _ _ Hrun Hin).
Defined.

Lemma searches_look_back_five_minutes_witness :
  let s := Sample.after More.emptyPoll in
  Sample.run' More.emptyPoll Sample.init = Some s /\
  CmdSearch false (-299000) ∈ sent s /\
  polledAt More.emptyPoll (-299000) /\ CmdSearch true (-299000) ∈ sent s.
Proof.
  cbn zeta.
  assert (Sample.run' More.emptyPoll Sample.init = Some (Sample.after More.emptyPoll))
    as Hrun by (vm_compute; reflexivity).
  assert (sent (Sample.after More.emptyPoll)
          = [CmdConnect; CmdOpenBox INBOX; CmdSearch true (-299000);
             CmdSearch false (-299000)]) as Hs by (vm_compute; reflexivity).
  assert (CmdSearch false (-299000) ∈ sent (Sample.after More.emptyPoll)) as Hin
    by (rewrite Hs; do 3 apply list_elem_of_further; apply list_elem_of_here).
  split; [exact Hrun|]. split; [exact Hin|].
  exact (searches_look_back_five_minutes asciiLower Sample.target Sample.maxWait
           Sample.start _ _ _ _ Hrun Hin).
Defined.

Lemma body_only_after_header_witness :
  let s := Sample.after More.resolvedByBody in
  Sample.run' More.resolvedByBody Sample.init = Some s /\
  CmdFetchFull 4 ∈ sent s /\
  headerPassed asciiLower Sample.target More.resolvedByBody 4.
Proof.
  cbn zeta.
  assert (Sample.run' More.resolvedByBody Sample.init
          = Some (Sample.after More.resolvedByBody)) as Hrun
    by (vm_compute; reflexivity).
  assert (sent (Sample.after More.resolvedByBody)
          = [CmdConnect; CmdOpenBox INBOX; CmdSearch true (-299000);
             CmdFetchHeaders [4%N]; CmdFetchFull 4; CmdEnd]) as Hs
    by (vm_compute; reflexivity).
  assert (CmdFetchFull 4 ∈ sent (Sample.after More.resolvedByBody)) as Hin
    by (rewrite Hs; do 4 apply list_elem_of_further; apply list_elem_of_here).
  split; [exact Hrun|]. split; [exact Hin|].
  exact (proj1 (body_only_after_header asciiLower Sample.target Sample.maxWait
                  Sample.start _ _ 4%N Hrun) Hin).
Defined.

Lemma code_only_for_target_witness :
  let s := Sample.after More.resolvedByBody in
  let c := Some (js "7Q3K9Z") in
  Sample.run' More.resolvedByBody Sample.init = Some s /\
  Resolved c ∈ settled s /\
  exists es1 e es2 s1 s2 emailId header now m,
    More.resolvedByBody = es1 ++ e :: es2 /\
    Sample.run' es1 Sample.init = Some s1 /\ Sample.step' e s1 = Some s2 /\
    settled s1 = [] /\ settled s2 = [Resolved c] /\ c = group1 m /\
    noId emailId = false /\
    exceeds (emailAge now (p_date header)) (2 * 60 * 1000) = false /\
    isWindsurf asciiLower (orEmpty (p_subject header)) (orEmpty (p_from header)) = true /\
    isTargetEmail asciiLower Sample.target (orEmpty (p_to header)) = true /\
    ((e = EvHeader false emailId header now /\
      subjectMatch (orEmpty (p_subject header)) = Some m) \/
     (EvHeader false emailId header now ∈ es1 /\
      subjectMatch (orEmpty (p_subject header)) = None /\
      exists fullParsed now',
        e = EvFull (default 0%N emailId) false fullParsed now' /\
        extracted asciiLower Sample.target fullParsed m)).
Proof.
  cbn zeta.
  assert (Sample.run' More.resolvedByBody Sample.init
          = Some (Sample.after More.resolvedByBody)) as Hrun
    by (vm_compute; reflexivity).
  assert (settled (Sample.after More.resolvedByBody)
          = [Resolved (Some (js "7Q3K9Z"))]) as Hs by (vm_compute; reflexivity).
  assert (Resolved (Some (js "7Q3K9Z")) ∈ settled (Sample.after More.resolvedByBody))
    as Hin by (rewrite Hs; apply list_elem_of_here).
  split; [exact Hrun|]. split; [exact Hin|].
  exact (code_only_for_target asciiLower Sample.target Sample.maxWait
           Sample.start _ _ _ Hrun Hin).
Defined.

Lemma every_tick_searches_witness :
  let s := Sample.after More.waiting in
  let s' := Sample.after (More.waiting ++ [EvTick 3000]) in
  Sample.run' More.waiting Sample.init = Some s /\
  Sample.step' (EvTick 3000) s = Some s' /\
  isResolved s = false /\ (3000 - Sample.start <= Sample.maxWait)%Z /\
  exists box,
    currentBox s = Some box /\
    s' = await (OnSearch (3000 - 5 * 60 * 1000))
           (send (CmdSearch true (3000 - 5 * 60 * 1000))
              (say (LogCurrentBox box) (say (LogCriteria (3000 - 5 * 60 * 1000)) s))).
Proof.
  cbn zeta.
  assert (Sample.run' More.waiting Sample.init = Some (Sample.after More.waiting))
    as Hrun by (vm_compute; reflexivity).
  assert (Sample.step' (EvTick 3000) (Sample.after More.waiting)
          = Some (Sample.after (More.waiting ++ [EvTick 3000]))) as Hstep
    by (vm_compute; reflexivity).
  assert (isResolved (Sample.after More.waiting) = false) as Hr
    by (vm_compute; reflexivity).
  assert ((3000 - Sample.start <= Sample.maxWait)%Z) as Hd by (vm_compute; discriminate).
  split; [exact Hrun|]. split; [exact Hstep|]. split; [exact Hr|]. split; [exact Hd|].
  exact (every_tick_searches asciiLower Sample.target Sample.maxWait Sample.start
           _ _ _ _ Hrun Hstep Hr Hd).
Defined.

Lemma polling_stops_witness :
  let s := Sample.after Sample.resolvedBySubject in
  let es' := [EvConn Disconnected; EvEnd] in
  let s' := Sample.after (Sample.resolvedBySubject ++ es') in
  Sample.run' Sample.resolvedBySubject Sample.init = Some s /\
  (exists err now, EvInboxOpened err now ∈ Sample.resolvedBySubject) /\
  checkInterval s = false /\
  Sample.run' es' s = Some s' /\
  checkInterval s' = false /\ forall now, EvTick now ∉ es'.
Proof.
  cbn zeta.
  assert (Sample.run' Sample.resolvedBySubject Sample.init
          = Some (Sample.after Sample.resolvedBySubject)) as Hrun
    by (vm_compute; reflexivity).
  assert (exists err now, EvInboxOpened err now ∈ Sample.resolvedBySubject) as Hop.
  { exists None, 1000%Z. do 2 apply list_elem_of_further. apply list_elem_of_here. }
  assert (checkInterval (Sample.after Sample.resolvedBySubject) = false) as Hci
    by (vm_compute; reflexivity).
  assert (Sample.run' [EvConn Disconnected; EvEnd] (Sample.after Sample.resolvedBySubject)
          = Some (Sample.after (Sample.resolvedBySubject ++ [EvConn Disconnected; EvEnd])))
    as Hrun' by (vm_compute; reflexivity).
  split; [exact Hrun|]. split; [exact Hop|]. split; [exact Hci|]. split; [exact Hrun'|].
  exact (polling_stops asciiLower Sample.target Sample.maxWait Sample.start
           _ _ _ _ Hrun Hop Hci Hrun').
Defined.

Lemma end_event_stops_the_clock_witness :
  let s0 := Sample.after Sample.opened in
  let s1 := Sample.after (Sample.opened ++ [EvEnd]) in
  let es' := [EvSearch (-299000) None (Some [])] in
  let s := Sample.after (Sample.opened ++ [EvEnd] ++ es') in
  Sample.run' Sample.opened Sample.init = Some s0 /\
  (exists err now, EvInboxOpened err now ∈ Sample.opened) /\
  Sample.step' EvEnd s0 = Some s1 /\
  Sample.run' es' s1 = Some s /\
  settled s1 = settled s0 /\ isResolved s1 = isResolved s0 /\
  (forall now, EvTick now ∉ es') /\
  (Rejected TimeoutError ∈ settled s ->
   Rejected TimeoutError ∈ settled s0 \/
   exists junkBox now, EvJunkOpened junkBox None now ∈ es' /\
                       (Sample.maxWait < now - Sample.start)%Z).
Proof.
  cbn zeta.
  assert (Sample.run' Sample.opened Sample.init = Some (Sample.after Sample.opened))
    as Hrun by (vm_compute; reflexivity).
  assert (exists err now, EvInboxOpened err now ∈ Sample.opened) as Hop.
  { exists None, 1000%Z. do 2 apply list_elem_of_further. apply list_elem_of_here. }
  assert (Sample.step' EvEnd (Sample.after Sample.opened)
          = Some (Sample.after (Sample.opened ++ [EvEnd]))) as Hstep
    by (vm_compute; reflexivity).
  assert (Sample.run' [EvSearch (-299000) None (Some [])]
            (Sample.after (Sample.opened ++ [EvEnd]))
          = Some (Sample.after (Sample.opened ++ [EvEnd]
                                ++ [EvSearch (-299000) None (Some [])])))
    as Hrun' by (vm_compute; reflexivity).
  split; [exact Hrun|]. split; [exact Hop|]. split; [exact Hstep|]. split; [exact Hrun'|].
  exact (end_event_stops_the_clock asciiLower Sample.target Sample.maxWait Sample.start
           _ _ _ _ _ Hrun Hop Hstep Hrun').
Defined.

Lemma unresolved_session_keeps_polling_witness :
  let s := Sample.after More.waiting in
  Sample.run' More.waiting Sample.init = Some s /\
  isResolved s = false /\ (EvEnd ∉ More.waiting) /\
  teardowns s = 0 /\
  ((exists now, EvInboxOpened None now ∈ More.waiting) -> checkInterval s = true).
Proof.
  cbn zeta.
  assert (Sample.run' More.waiting Sample.init = Some (Sample.after More.waiting))
    as Hrun by (vm_compute; reflexivity).
  assert (isResolved (Sample.after More.waiting) = false) as Hr
    by (vm_compute; reflexivity).
  assert (EvEnd ∉ More.waiting) as Hne.
  { intros H. unfold More.waiting, Sample.opened in H. cbn [app] in H.
    repeat (apply elem_of_cons in H as [H|H]; [discriminate H|]).
    by apply elem_of_nil in H. }
  split; [exact Hrun|]. split; [exact Hr|]. split; [exact Hne|].
  exact (unresolved_session_keeps_polling asciiLower Sample.target Sample.maxWait
           Sample.start _ _ Hrun Hr Hne).
Defined.

Lemma no_junk_mailbox_no_switch_witness :
  let s0 := Sample.after More.listing in
  let s1 := Sample.after (More.listing ++ [EvBoxes More.plainBoxes]) in
  let es' := [EvTick 37000] in
  let s := Sample.after (More.listing ++ [EvBoxes More.plainBoxes] ++ es') in
  Sample.run' More.listing Sample.init = Some s0 /\
  Sample.step' (EvBoxes More.plainBoxes) s0 = Some s1 /\
  findJunkBox asciiLower (listedBoxes More.plainBoxes) = None /\
  Sample.run' es' s1 = Some s /\
  currentBox s = currentBox s0 /\ attempts s = 1 /\ closes s = 0 /\ hops s = 0 /\
  opens s = opens s0 /\
  (forall c, c ∈ pending s -> isSwitchCallback c = false).
Proof.
  cbn zeta.
  assert (Sample.run' More.listing Sample.init = Some (Sample.after More.listing))
    as Hrun by (vm_compute; reflexivity).
  assert (Sample.step' (EvBoxes More.plainBoxes) (Sample.after More.listing)
          = Some (Sample.after (More.listing ++ [EvBoxes More.plainBoxes]))) as Hstep
    by (vm_compute; reflexivity).
  assert (findJunkBox asciiLower (listedBoxes More.plainBoxes) = None) as Hnone
    by (vm_compute; reflexivity).
  assert (Sample.run' [EvTick 37000]
            (Sample.after (More.listing ++ [EvBoxes More.plainBoxes]))
          = Some (Sample.after (More.listing ++ [EvBoxes More.plainBoxes]
                                ++ [EvTick 37000]))) as Hrun'
    by (vm_compute; reflexivity).
  split; [exact Hrun|]. split; [exact Hstep|]. split; [exact Hnone|].
  split; [exact Hrun'|].
  exact (no_junk_mailbox_no_switch asciiLower Sample.target Sample.maxWait Sample.start
           _ _ _ _ _ _ Hrun Hstep Hnone Hrun').
Defined.

Lemma date_only_gates_age_witness :
  let parsed := Sample.header "Your Windsurf code 482913" "noreply@windsurf.com"
                              "user@qq.com" 900 in
  passesForNew 1500 InvalidDate /\
  (forall err emailId s,
     onHeader asciiLower Sample.target err emailId (withDate InvalidDate parsed) 1500 s =
     onHeader asciiLower Sample.target err emailId (withDate NoDate parsed) 1500 s) /\
  (forall emailId s,
     let r := processEmail asciiLower Sample.target
                (withDate InvalidDate parsed) emailId 1500 s in
     let r' := processEmail asciiLower Sample.target
                 (withDate NoDate parsed) emailId 1500 s in
     fst r = fst r' /\ quiet (snd r) = quiet (snd r')).
Proof.
  cbn zeta.
  assert (passesForNew 1500 InvalidDate) as Hd by exact I.
  split; [exact Hd|].
  exact (date_only_gates_age asciiLower Sample.target _ InvalidDate 1500%Z Hd).
Defined.

Lemma inbox_open_arms_timer_regardless_witness :
  let s := Sample.after [EvReady; EvConn Authenticated] in
  let s' := Sample.after [EvReady; EvConn Authenticated; EvInboxOpened None 120001] in
  Sample.step' (EvInboxOpened None 120001) s = Some s' /\
  (Sample.maxWait < 120001 - Sample.start)%Z /\
  checkInterval s' = true /\ isResolved s' = true /\
  settled s' = [Rejected TimeoutError] /\
  forall now', Sample.step' (EvTick now') s' = Some s'.
Proof.
  cbn zeta.
  assert (Sample.step' (EvInboxOpened None 120001)
            (Sample.after [EvReady; EvConn Authenticated])
          = Some (Sample.after [EvReady; EvConn Authenticated;
                                EvInboxOpened None 120001])) as Hstep
    by (vm_compute; reflexivity).
  assert ((Sample.maxWait < 120001 - Sample.start)%Z) as Hlate
    by (vm_compute; reflexivity).
  destruct (inbox_open_arms_timer_regardless asciiLower Sample.target Sample.maxWait
              Sample.start _ _ _ Hstep) as [Hc Hr].
  destruct (Hr (or_intror Hlate)) as [Hres Hticks].
  split; [exact Hstep|]. split; [exact Hlate|]. split; [exact Hc|].
  split; [exact Hres|]. split; [vm_compute; reflexivity|exact Hticks].
Defined.

Lemma junk_switch_is_final_witness :
  let junkBox := js "Deleted Messages" in
  let e := EvJunkOpened junkBox None 35300 in
  let s0 := Sample.after More.closedForJunk in
  let s := Sample.after (More.closedForJunk ++ [e]) in
  let es' := [EvSearch (-264700) None (Some []); EvTick 37000] in
  let s' := Sample.after (More.closedForJunk ++ [e] ++ es') in
  Sample.run' More.closedForJunk Sample.init = Some s0 /\
  Sample.step' e s0 = Some s /\
  Sample.run' es' s = Some s' /\
  currentBox s0 = Some INBOX /\ currentBox s' = Some junkBox /\
  opens s' = opens s0 /\ closes s' = 1 /\ attempts s' = 1 /\ hops s' = 1.
Proof.
  cbn zeta.
  assert (Sample.run' More.closedForJunk Sample.init
          = Some (Sample.after More.closedForJunk)) as Hrun
    by (vm_compute; reflexivity).
  assert (Sample.step' (EvJunkOpened (js "Deleted Messages") None 35300)
            (Sample.after More.closedForJunk)
          = Some (Sample.after (More.closedForJunk
                                ++ [EvJunkOpened (js "Deleted Messages") None 35300])))
    as Hstep by (vm_compute; reflexivity).
  assert (Sample.run' [EvSearch (-264700) None (Some []); EvTick 37000]
            (Sample.after (More.closedForJunk
                           ++ [EvJunkOpened (js "Deleted Messages") None 35300]))
          = Some (Sample.after (More.closedForJunk
                                ++ [EvJunkOpened (js "Deleted Messages") None 35300]
                                ++ [EvSearch (-264700) None (Some []); EvTick 37000])))
    as Hrun' by (vm_compute; reflexivity).
  split; [exact Hrun|]. split; [exact Hstep|]. split; [exact Hrun'|].
  exact (junk_switch_is_final asciiLower Sample.target Sample.maxWait Sample.start
           _ _ _ _ _ _ _ Hrun Hstep Hrun').
Defined.

Lemma failed_junk_open_is_not_repaired_witness :
  let junkBox := js "Deleted Messages" in
  let e := EvJunkOpened junkBox (Some (js "Mailbox does not exist")) 35300 in
  let s0 := Sample.after More.closedForJunk in
  let s := Sample.after (More.closedForJunk ++ [e]) in
  let es' := [EvTick 37000; EvSearch (-263000) (Some (js "No mailbox selected")) None] in
  let s' := Sample.after (More.closedForJunk ++ [e] ++ es') in
  Sample.run' More.closedForJunk Sample.init = Some s0 /\
  Sample.step' e s0 = Some s /\
  Sample.run' es' s = Some s' /\
  closes s0 = 1 /\ currentBox s' = Some INBOX /\
  opens s' = opens s0 /\ closes s' = 1 /\ attempts s' = 1 /\ hops s' = 0.
Proof.
  cbn zeta.
  set (e := EvJunkOpened (js "Deleted Messages") (Some (js "Mailbox does not exist")) 35300).
  set (es' := [EvTick 37000; EvSearch (-263000) (Some (js "No mailbox selected")) None]).
  assert (Sample.run' More.closedForJunk Sample.init
          = Some (Sample.after More.closedForJunk)) as Hrun
    by (vm_compute; reflexivity).
  assert (Sample.step' e (Sample.after More.closedForJunk)
          = Some (Sample.after (More.closedForJunk ++ [e]))) as Hstep
    by (vm_compute; reflexivity).
  assert (Sample.run' es' (Sample.after (More.closedForJunk ++ [e]))
          = Some (Sample.after (More.closedForJunk ++ [e] ++ es'))) as Hrun'
    by (vm_compute; reflexivity).
  split; [exact Hrun|]. split; [exact Hstep|]. split; [exact Hrun'|].
  destruct (failed_junk_open_is_not_repaired asciiLower Sample.target Sample.maxWait
              Sample.start _ _ _ _ _ _ _ _ Hrun Hstep Hrun') as (_ & H).
  exact H.
Defined.

(** Three line breaks in a row are three C0 controls: an HTML body with a
    blank line or two counts as garbled, which [onFull] only logs. *)
Example blank_lines_count_as_garbled :
  isGarbledText (Some (js "<p>Hello</p>" ++ [13; 10; 13; 10]%N ++ js "<p>482913</p>"))
  = true.
Proof. vm_compute. reflexivity. Qed.

Example short_text_is_not_garbled : isGarbledText (Some (js "?????")) = false.
Proof. vm_compute. reflexivity. Qed.

(** The mailbox list decides, not the order of the aliases: [Trash] is
    listed before [Junk] and is taken. *)
Example first_listed_junk_box :
  findJunkBox asciiLower [js "INBOX"; js "Trash"; js "Junk"] = Some (js "Trash").
Proof. vm_compute. reflexivity. Qed.
